(** * The TPM 2.0 resource manager of tpm2-abrmd ([src/resource-manager.c])

    A shallow embedding of the handle virtualisation and context swap engine:
    the functions of [resource-manager.c] are written as computations in a
    small state-and-failure monad over the objects the C code shares through
    pointers (the [HandleMapEntry] objects, the per-connection handle maps,
    the response sink and the input queue), and the access broker is an
    oracle whose every call is recorded.

    A computation ends normally, is terminated by [g_error], or has no
    defined behaviour: an index outside an array, a read of a cell that was
    never written and a dangling entry pointer are all checked.

    The handle map, the entries, the commands and the responses live in
    other files of the repository; they are modelled from the
    specification, and the constants come from the TPM 2.0 and TSS2
    headers. *)

From Stdlib Require Import ZArith List Bool Lia.
From stdpp Require Import base option list functions gmap fin_maps.

Local Open Scope Z_scope.

(** ** Scalars and constants *)

Abbreviation TPM_HANDLE := Z (only parsing).
Abbreviation TPM_HT := Z (only parsing).
Abbreviation TPM_CC := Z (only parsing).
Abbreviation TSS2_RC := Z (only parsing).
Abbreviation TPMS_CONTEXT := (list Z) (only parsing).
Abbreviation Connection := nat (only parsing).
(** A pointer to a [HandleMapEntry] object: its index in the object store. *)
Abbreviation addr := nat (only parsing).

(** The headers that define these constants (the TPM 2.0 and TSS2 headers and
    [tabrmd.h]) are not part of the translated file; the values are the ones
    of the TPM 2.0 library specification, part 2, and of the TSS2 headers. *)
Definition HR_SHIFT : Z := 24.
Definition TPM_HT_POLICY_SESSION : TPM_HT := 0x03.
Definition TPM_HT_TRANSIENT : TPM_HT := 0x80.
Definition TPM_CC_CreatePrimary : TPM_CC := 0x131.
Definition TPM_CC_Load : TPM_CC := 0x157.
Definition TPM_CC_FlushContext : TPM_CC := 0x165.
Definition TPM_CC_LoadExternal : TPM_CC := 0x167.
Definition TSS2_RC_SUCCESS : TSS2_RC := 0.
Definition TSS2_BASE_RC_GENERAL_FAILURE : TSS2_RC := 1.
Definition TSS2_RESMGR_ERROR_LEVEL : TSS2_RC := Z.shiftl 11 16.
Definition TPM_RC_HANDLE : TSS2_RC := 0x08B.
Definition TPM_RC_P : TSS2_RC := 0x040.
Definition TPM_RC_1 : TSS2_RC := 0x100.
Definition TPM_RC_OBJECT_MEMORY : TSS2_RC := 0x902.
Definition TSS2_RESMGR_RC_OBJECT_MEMORY : TSS2_RC :=
  Z.lor TSS2_RESMGR_ERROR_LEVEL TPM_RC_OBJECT_MEMORY.

(** [#define RM_RC(rc) TSS2_RESMGR_ERROR_LEVEL + rc], on 32-bit unsigned
    integers. *)
Definition RM_RC (rc : TSS2_RC) : TSS2_RC :=
  (TSS2_RESMGR_ERROR_LEVEL + rc) mod 2 ^ 32.

(** [handle >> HR_SHIFT]: the type byte of a handle. *)
Definition handle_type (handle : TPM_HANDLE) : TPM_HT := Z.shiftr handle HR_SHIFT.

Definition is_transient (handle : TPM_HANDLE) : bool :=
  handle_type handle =? TPM_HT_TRANSIENT.

(** ** Objects *)

(** [HandleMapEntry]: the binding of a virtual handle to its physical handle
    (0 when the context is saved and flushed) and its saved context.  The
    object is reference counted (GObject). *)
Record HandleMapEntry : Type := mkEntry {
  vhandle : TPM_HANDLE;
  phandle : TPM_HANDLE;
  context : TPMS_CONTEXT;
  refcount : nat
}.

(** Modelled from the spec: the [HandleMap] object of [handle-map.c], which
    is not part of the translated file.  One per connection: a table from
    virtual handles to entry objects, a capacity (the per-connection quota)
    and the monotonic allocator of virtual handles. *)
Record HandleMap : Type := mkMap {
  table : gmap Z nat;
  capacity : nat;
  next_vhandle : TPM_HANDLE
}.

(** Typed wrapper of a command buffer ([tpm2-command.h]): the accessors the
    resource manager calls are the projections. [cmd_handle_count] is the
    handle count of the command attributes, [cmd_handles] the handle area,
    [cmd_flush_handle] the handle argument of FlushContext (which lives in
    the parameter area), [cmd_params] the rest of the buffer. *)
Record Tpm2Command : Type := mkCommand {
  cmd_connection : Connection;
  cmd_code : TPM_CC;
  cmd_handle_count : nat;
  cmd_handles : list TPM_HANDLE;
  cmd_flush_handle : TPM_HANDLE;
  cmd_params : list Z
}.

(** Typed wrapper of a response buffer ([tpm2-response.h]). [rsp_has_handle]
    is the attribute that reports a handle in the response. *)
Record Tpm2Response : Type := mkResponse {
  rsp_connection : Connection;
  rsp_rc : TSS2_RC;
  rsp_has_handle : bool;
  rsp_handle : TPM_HANDLE;
  rsp_params : list Z
}.

Definition tpm2_command_get_connection (command : Tpm2Command) : Connection :=
  cmd_connection command.
Definition tpm2_command_get_code (command : Tpm2Command) : TPM_CC :=
  cmd_code command.
Definition tpm2_command_get_handle_count (command : Tpm2Command) : nat :=
  cmd_handle_count command.
Definition tpm2_command_get_flush_handle (command : Tpm2Command) : TPM_HANDLE :=
  cmd_flush_handle command.

(** [tpm2_command_get_handles (command, handles, count)] fills the first
    [count] cells of the caller's array from the handle area. *)
Definition tpm2_command_get_handles (command : Tpm2Command)
    (handles : list TPM_HANDLE) (count : nat) : list TPM_HANDLE :=
  take count (cmd_handles command) ++ drop (length (take count (cmd_handles command))) handles.

(** [tpm2_command_set_handle (command, handle, handle_number)] writes one
    slot of the handle area. *)
Definition tpm2_command_set_handle (command : Tpm2Command)
    (handle : TPM_HANDLE) (handle_number : nat) : Tpm2Command :=
  mkCommand (cmd_connection command) (cmd_code command)
            (cmd_handle_count command)
            (<[handle_number := handle]> (cmd_handles command))
            (cmd_flush_handle command) (cmd_params command).

Definition tpm2_response_get_connection (response : Tpm2Response) : Connection :=
  rsp_connection response.
Definition tpm2_response_has_handle (response : Tpm2Response) : bool :=
  rsp_has_handle response.
Definition tpm2_response_get_handle (response : Tpm2Response) : TPM_HANDLE :=
  rsp_handle response.
Definition tpm2_response_set_handle (response : Tpm2Response)
    (handle : TPM_HANDLE) : Tpm2Response :=
  mkResponse (rsp_connection response) (rsp_rc response)
             (rsp_has_handle response) handle (rsp_params response).

(** [tpm2_response_new_rc (connection, rc)]: a synthesized response that
    carries only a response code; it reports no handle. *)
Definition tpm2_response_new_rc (connection : Connection) (rc : TSS2_RC)
    : Tpm2Response :=
  mkResponse connection rc false 0 [].

(** ** The access broker *)

(** One record per call made on the access broker, with what the broker
    answered. *)
Inductive BrokerCall : Type :=
| CallContextLoad (ctx : TPMS_CONTEXT) (rc : TSS2_RC) (ph : TPM_HANDLE)
| CallContextSaveFlush (ph : TPM_HANDLE) (rc : TSS2_RC) (ctx' : TPMS_CONTEXT)
| CallSendCommand (command : Tpm2Command) (response : option Tpm2Response)
                  (rc : TSS2_RC).

(** The access broker is an external collaborator: an oracle that answers
    each call from the history of the calls made so far (most recent
    first). *)
Record AccessBroker : Type := mkBroker {
  ab_context_load : list BrokerCall -> TPMS_CONTEXT -> TSS2_RC * TPM_HANDLE;
  ab_context_saveflush :
    list BrokerCall -> TPM_HANDLE -> TPMS_CONTEXT -> TSS2_RC * TPMS_CONTEXT;
  ab_send_command :
    list BrokerCall -> Tpm2Command -> option Tpm2Response * TSS2_RC
}.

Inductive ControlCode : Type := CHECK_CANCEL | EXIT.

(** What travels on the input queue: a NULL object, a command or a control
    message. *)
Inductive Message : Type :=
| MsgNull
| MsgCommand (command : Tpm2Command)
| MsgControl (code : ControlCode).

(** The [ResourceManager] object; its queues live in the state below. *)
Record ResourceManager : Type := mkResmgr {
  access_broker : AccessBroker
}.

(** ** State *)

Record State : Type := mkState {
  heap : list HandleMapEntry;            (* the HandleMapEntry objects *)
  trans_map : Connection -> HandleMap;   (* the transient map of each connection *)
  sink : list (option Tpm2Response);     (* objects enqueued on the sink, oldest first *)
  in_queue : list Message;               (* the input queue, oldest first *)
  calls : list BrokerCall                (* access broker calls, most recent first *)
}.

Definition set_heap (h : list HandleMapEntry) (st : State) : State :=
  mkState h (trans_map st) (sink st) (in_queue st) (calls st).
Definition set_trans_map (c : Connection) (m : HandleMap) (st : State) : State :=
  mkState (heap st) (<[c := m]> (trans_map st)) (sink st) (in_queue st) (calls st).
Definition set_sink (s : list (option Tpm2Response)) (st : State) : State :=
  mkState (heap st) (trans_map st) s (in_queue st) (calls st).
Definition set_in_queue (q : list Message) (st : State) : State :=
  mkState (heap st) (trans_map st) (sink st) q (calls st).
Definition set_calls (l : list BrokerCall) (st : State) : State :=
  mkState (heap st) (trans_map st) (sink st) (in_queue st) l.

(** ** The monad of the embedding *)

(** A computation ends normally, or the process is terminated by [g_error]
    (with the state at that point), or the C program has no defined
    behaviour (an index outside an array, a read of an uninitialised cell, a
    dangling pointer). *)
Inductive Outcome (A : Type) : Type :=
| Done (a : A) (st : State)
| Abort (st : State)
| Undefined.
Arguments Done {A} a st.
Arguments Abort {A} st.
Arguments Undefined {A}.

Definition M (A : Type) : Type := State -> Outcome A.

Definition ret {A} (a : A) : M A := fun st => Done a st.
Definition bind {A B} (m : M A) (k : A -> M B) : M B :=
  fun st => match m st with
            | Done a st' => k a st'
            | Abort st' => Abort st'
            | Undefined => Undefined
            end.
Definition g_error {A} : M A := fun st => Abort st.
Definition undefined {A} : M A := fun _ => Undefined.
Definition get : M State := fun st => Done st st.
Definition modify (f : State -> State) : M unit := fun st => Done tt (f st).

(** The computations are written with stdpp's monad notations
    ([x ← c; k] and [c;; k]). *)
#[global] Instance M_ret : MRet M := @ret.
#[global] Instance M_bind : MBind M := fun A B k m => bind m k.

(** ** The object store *)

(** Reading through an entry pointer. *)
Definition deref (entry : addr) : M HandleMapEntry :=
  fun st => match heap st !! entry with
            | Some e => Done e st
            | None => Undefined
            end.

(** Writing through an entry pointer. *)
Definition update_entry (entry : addr) (f : HandleMapEntry -> HandleMapEntry)
    : M unit :=
  fun st => match heap st !! entry with
            | Some e => Done tt (set_heap (<[entry := f e]> (heap st)) st)
            | None => Undefined
            end.

Definition with_phandle (ph : TPM_HANDLE) (e : HandleMapEntry) : HandleMapEntry :=
  mkEntry (vhandle e) ph (context e) (refcount e).
Definition with_context (ctx : TPMS_CONTEXT) (e : HandleMapEntry) : HandleMapEntry :=
  mkEntry (vhandle e) (phandle e) ctx (refcount e).
Definition with_refcount (n : nat) (e : HandleMapEntry) : HandleMapEntry :=
  mkEntry (vhandle e) (phandle e) (context e) n.

Definition handle_map_entry_get_phandle (entry : addr) : M TPM_HANDLE :=
  e ← deref entry; mret (phandle e).
Definition handle_map_entry_get_context (entry : addr) : M TPMS_CONTEXT :=
  e ← deref entry; mret (context e).
Definition handle_map_entry_set_phandle (entry : addr) (ph : TPM_HANDLE) : M unit :=
  update_entry entry (with_phandle ph).

(** [g_object_ref] and [g_object_unref] on an entry.  An object whose count
    reaches 0 is released; the store keeps its cell. *)
Definition g_object_ref (entry : addr) : M unit :=
  update_entry entry (fun e => with_refcount (S (refcount e)) e).
Definition g_object_unref (entry : addr) : M unit :=
  update_entry entry (fun e => with_refcount (Nat.pred (refcount e)) e).
(** [g_object_unref] on a pointer that may be NULL: GLib then only warns. *)
Definition g_object_unref_ptr (entry : option addr) : M unit :=
  match entry with
  | Some entry => g_object_unref entry
  | None => mret tt
  end.

(** Modelled from the spec: [handle_map_entry_new (phandle, vhandle)] of
    [handle-map-entry.c] creates an entry with an empty saved context, owned
    by the caller. *)
Definition handle_map_entry_new (ph vh : TPM_HANDLE) : M addr :=
  fun st => Done (length (heap st))
                 (set_heap (heap st ++ [mkEntry vh ph [] 1%nat]) st).

(** ** The handle map *)

(** Modelled from the spec: [is_full] of [handle-map.c], true iff
    [size () == capacity]. *)
Definition map_is_full (m : HandleMap) : bool :=
  bool_decide (size (table m) = capacity m).

(** Modelled from the spec: [next_vhandle] of [handle-map.c].  The allocator
    advances monotonically inside the transient range; once the range is
    exhausted it reports the rollover by returning 0, which is never a
    virtual handle. *)
Definition map_next_vhandle (m : HandleMap) : TPM_HANDLE * HandleMap :=
  if is_transient (next_vhandle m)
  then (next_vhandle m, mkMap (table m) (capacity m) (next_vhandle m + 1))
  else (0, m).

(** Modelled from the spec: [insert] of [handle-map.c] binds [vh]; it fails
    if [vh] is already bound. *)
Definition map_insert (vh : TPM_HANDLE) (entry : addr) (m : HandleMap)
    : bool * HandleMap :=
  match table m !! vh with
  | Some _ => (false, m)
  | None => (true, mkMap (<[vh := entry]> (table m)) (capacity m) (next_vhandle m))
  end.

(** Modelled from the spec: [remove] of [handle-map.c] removes the binding. *)
Definition map_remove (vh : TPM_HANDLE) (m : HandleMap) : HandleMap :=
  mkMap (delete vh (table m)) (capacity m) (next_vhandle m).

(** A pointer to a [HandleMap] object is the connection that owns it: each
    connection owns exactly one transient map. *)
Definition connection_get_trans_map (connection : Connection) : Connection :=
  connection.

(** Modelled from the spec: [handle_map_vlookup]; the entry found is borrowed
    by the caller, who holds a reference of its own until it releases it. *)
Definition handle_map_vlookup (map : Connection) (vh : TPM_HANDLE)
    : M (option addr) :=
  st ← get;
  match table (trans_map st map) !! vh with
  | Some entry => g_object_ref entry;; mret (Some entry)
  | None => mret None
  end.

(** Modelled from the spec: [handle_map_remove]; the map drops its reference
    to the entry it held. *)
Definition handle_map_remove (map : Connection) (vh : TPM_HANDLE) : M unit :=
  st ← get;
  match table (trans_map st map) !! vh with
  | Some entry =>
      modify (set_trans_map map (map_remove vh (trans_map st map)));;
      g_object_unref entry
  | None => mret tt
  end.

(** Modelled from the spec: [handle_map_insert]; on success the map takes a
    reference to the entry. *)
Definition handle_map_insert (map : Connection) (vh : TPM_HANDLE) (entry : addr)
    : M bool :=
  st ← get;
  let '(ok, m') := map_insert vh entry (trans_map st map) in
  if ok
  then modify (set_trans_map map m');; g_object_ref entry;; mret true
  else mret false.

(** Modelled from the spec: [handle_map_next_vhandle]. *)
Definition handle_map_next_vhandle (map : Connection) : M TPM_HANDLE :=
  st ← get;
  let '(vh, m') := map_next_vhandle (trans_map st map) in
  modify (set_trans_map map m');; mret vh.

(** Modelled from the spec: [handle_map_is_full]. *)
Definition handle_map_is_full (map : Connection) : M bool :=
  st ← get; mret (map_is_full (trans_map st map)).

(** ** The sink and the input queue *)

Definition sink_enqueue (obj : option Tpm2Response) : M unit :=
  modify (fun st => set_sink (sink st ++ [obj]) st).

Definition message_queue_enqueue (obj : Message) : M unit :=
  modify (fun st => set_in_queue (in_queue st ++ [obj]) st).

(** ** Calls on the access broker *)

(** [access_broker_context_load (broker, context, &phandle)]; the context is
    the one of [entry], which the broker only reads. *)
Definition access_broker_context_load (broker : AccessBroker) (ctx : TPMS_CONTEXT)
    : M (TSS2_RC * TPM_HANDLE) :=
  fun st =>
    let r := ab_context_load broker (calls st) ctx in
    Done r (set_calls (CallContextLoad ctx r.1 r.2 :: calls st) st).

(** [access_broker_context_saveflush (broker, phandle, context)]; [context]
    points into [entry], and the broker writes the saved context through
    it. *)
Definition access_broker_context_saveflush (broker : AccessBroker)
    (ph : TPM_HANDLE) (entry : addr) : M TSS2_RC :=
  e ← deref entry;
  st ← get;
  let r := ab_context_saveflush broker (calls st) ph (context e) in
  modify (set_calls (CallContextSaveFlush ph r.1 r.2 :: calls st));;
  update_entry entry (with_context r.2);;
  mret r.1.

(** [access_broker_send_command (broker, command, &rc)]: the response (NULL
    on failure) and the response code. *)
Definition access_broker_send_command (broker : AccessBroker)
    (command : Tpm2Command) : M (option Tpm2Response * TSS2_RC) :=
  fun st =>
    let r := ab_send_command broker (calls st) command in
    Done r (set_calls (CallSendCommand command r.1 r.2 :: calls st) st).

(** ** The resource manager *)

Definition ENTRY_COUNT : nat := 4.

(** A cell of the local array [entries] of
    [resource_manager_process_tpm2_command]: never written, or holding an
    entry pointer, which may be NULL. *)
Inductive Cell : Type :=
| Unwritten
| Ptr (entry : option nat).

Abbreviation Entries := (list Cell) (only parsing).

Section ResourceManager.

(** Every function of the file takes the resource manager; the ones that
    only use its queues, which live in the state, do not depend on it
    here. *)
Variable resmgr : ResourceManager.

(** [resource_manager_virt_to_phys]: load the context of [entry], store the
    physical handle in the entry and in slot [handle_number] of the
    command. *)
Definition resource_manager_virt_to_phys (command : Tpm2Command) (entry : addr)
    (handle_number : nat) : M (TSS2_RC * Tpm2Command) :=
  ctx ← handle_map_entry_get_context entry;
  '(rc, ph) ← access_broker_context_load (access_broker resmgr) ctx;
  if rc =? TSS2_RC_SUCCESS
  then handle_map_entry_set_phandle entry ph;;
       mret (rc, tpm2_command_set_handle command ph handle_number)
  else mret (rc, command).

(** The variables the loop of [resource_manager_load_contexts] updates:
    [rc], the command, [entries] and [*entry_count]. *)
Abbreviation LoadAcc := (Z * Tpm2Command * list Cell * nat)%type (only parsing).

(** The body of the [for] loop of [resource_manager_load_contexts] for slot
    [i].  The [break] after a failed load leaves the [switch], not the
    loop. *)
Definition load_contexts_body (connection : Connection)
    (handles : list TPM_HANDLE) (i : nat) (acc : LoadAcc) : M LoadAcc :=
  let '(rc, command, entries, entry_count) := acc in
  match handles !! i with
  | None => undefined
  | Some h =>
      if handle_type h =? TPM_HT_TRANSIENT
      then
        let map := connection_get_trans_map connection in
        found ← handle_map_vlookup map h;
        match found with
        | None => mret acc
        | Some entry =>
            '(rc, command) ← resource_manager_virt_to_phys command entry i;
            if negb (rc =? TSS2_RC_SUCCESS)
            then mret (rc, command, entries, entry_count)
            else if bool_decide (entry_count < length entries)%nat
                 then mret (rc, command, <[entry_count := Ptr (Some entry)]> entries,
                            S entry_count)
                 else undefined
        end
      else mret acc
  end.

Fixpoint load_contexts_loop (connection : Connection)
    (handles : list TPM_HANDLE) (slots : list nat) (acc : LoadAcc)
    : M LoadAcc :=
  match slots with
  | [] => mret acc
  | i :: slots' =>
      acc' ← load_contexts_body connection handles i acc;
      load_contexts_loop connection handles slots' acc'
  end.

(** [resource_manager_load_contexts (resmgr, command, entries, entry_count)].
    The pointers are never NULL here.  The local array [handles] has three
    cells. *)
Definition resource_manager_load_contexts (command : Tpm2Command)
    (entries : Entries) (entry_count : nat) : M LoadAcc :=
  let rc := TSS2_RC_SUCCESS in
  let handles := [0; 0; 0] in
  let connection := tpm2_command_get_connection command in
  let handle_count := tpm2_command_get_handle_count command in
  if bool_decide (entry_count < handle_count)%nat
  then mret (RM_RC TSS2_BASE_RC_GENERAL_FAILURE, command, entries, entry_count)
  else
    let entry_count := 0%nat in
    if bool_decide (length handles < handle_count)%nat
    then undefined
    else
      let handles := tpm2_command_get_handles command handles handle_count in
      load_contexts_loop connection handles (seq 0 handle_count)
                         (rc, command, entries, entry_count).

(** [resource_manager_flushsave_context]: save and flush the context of an
    entry whose physical handle is transient, and clear the physical handle
    when that succeeded.  A NULL entry is a fatal error. *)
Definition resource_manager_flushsave_context (entry : option addr)
    : M TSS2_RC :=
  let rc := TSS2_RC_SUCCESS in
  match entry with
  | None => g_error
  | Some entry =>
      ph ← handle_map_entry_get_phandle entry;
      if handle_type ph =? TPM_HT_TRANSIENT
      then
        rc ← access_broker_context_saveflush (access_broker resmgr) ph entry;
        (if rc =? TSS2_RC_SUCCESS
         then handle_map_entry_set_phandle entry 0
         else mret tt);;
        mret rc
      else mret rc
  end.

(** [resource_manager_virtualize_handle]: the new entry (NULL when the
    handle of the response is not transient) and the response. *)
Definition resource_manager_virtualize_handle (response : Tpm2Response)
    : M (option addr * Tpm2Response) :=
  let ph := tpm2_response_get_handle response in
  if handle_type ph =? TPM_HT_TRANSIENT
  then
    let connection := tpm2_response_get_connection response in
    let handle_map := connection_get_trans_map connection in
    vh ← handle_map_next_vhandle handle_map;
    if vh =? 0
    then g_error
    else
      entry ← handle_map_entry_new ph vh;
      handle_map_insert handle_map vh entry;;
      mret (Some entry, tpm2_response_set_handle response vh)
  else mret (None, response).

(** [resource_manager_flush_context]: the response, NULL when the function
    returns [TSS2_RC_SUCCESS] for a command of another code or when the
    broker returns none.  The case [TPM_HT_POLICY_SESSION] falls through to
    the default one. *)
Definition resource_manager_flush_context (command : Tpm2Command)
    : M (option Tpm2Response) :=
  if negb (tpm2_command_get_code command =? TPM_CC_FlushContext)
  then mret None
  else
    let handle := tpm2_command_get_flush_handle command in
    if handle_type handle =? TPM_HT_TRANSIENT
    then
      let connection := tpm2_command_get_connection command in
      let map := connection_get_trans_map connection in
      found ← handle_map_vlookup map handle;
      rc ← match found with
           | Some entry =>
               handle_map_remove map handle;;
               g_object_unref entry;;
               mret TSS2_RC_SUCCESS
           | None => mret (RM_RC (TPM_RC_HANDLE + TPM_RC_P + TPM_RC_1))
           end;
      mret (Some (tpm2_response_new_rc connection rc))
    else
      '(response, rc) ← access_broker_send_command (access_broker resmgr) command;
      mret response.

(** [resource_manager_is_over_object_quota]. *)
Definition resource_manager_is_over_object_quota (command : Tpm2Command)
    : M bool :=
  let code := tpm2_command_get_code command in
  if (code =? TPM_CC_CreatePrimary) || (code =? TPM_CC_Load)
     || (code =? TPM_CC_LoadExternal)
  then
    let connection := tpm2_command_get_connection command in
    let handle_map := connection_get_trans_map connection in
    handle_map_is_full handle_map
  else mret false.

(** The transformation of the response in
    [resource_manager_process_tpm2_command]: when the response reports a
    handle, the result of [resource_manager_virtualize_handle] is written to
    [entries [entry_count]] and counted when it is not NULL. *)
Definition process_response_handle (response : Tpm2Response)
    (entries : Entries) (entry_count : nat)
    : M (Tpm2Response * Entries * nat) :=
  if tpm2_response_has_handle response
  then
    '(entry, response) ← resource_manager_virtualize_handle response;
    if bool_decide (entry_count < length entries)%nat
    then
      let entries := <[entry_count := Ptr entry]> entries in
      mret (response, entries,
            if entry is Some _ then S entry_count else entry_count)
    else undefined
  else mret (response, entries, entry_count).

(** The [switch] of [resource_manager_process_tpm2_command]: the response
    to enqueue, [entries] and [entry_count]. *)
Definition process_command_switch (command : Tpm2Command)
    (entries : Entries) (entry_count : nat)
    : M (option Tpm2Response * Entries * nat) :=
  let connection := tpm2_command_get_connection command in
  if tpm2_command_get_code command =? TPM_CC_FlushContext
  then
    response ← resource_manager_flush_context command;
    mret (response, entries, 0%nat)
  else
    '(command, entries, entry_count) ←
      (if bool_decide (0 < tpm2_command_get_handle_count command)%nat
       then
         '(_, command, entries, entry_count) ←
           resource_manager_load_contexts command entries entry_count;
         mret (command, entries, entry_count)
       else mret (command, entries, 0%nat));
    '(response, rc) ← access_broker_send_command (access_broker resmgr) command;
    let response :=
      match response with
      | Some r => r
      | None => tpm2_response_new_rc connection rc
      end in
    '(response, entries, entry_count) ←
      process_response_handle response entries entry_count;
    mret (Some response, entries, entry_count).

(** The final loop of [resource_manager_process_tpm2_command].  Reading a
    cell that was never written, or a cell outside the array, has no
    defined behaviour. *)
Fixpoint flushsave_contexts (entries : Entries) (slots : list nat) : M unit :=
  match slots with
  | [] => mret tt
  | i :: slots' =>
      match entries !! i with
      | Some (Ptr entry) =>
          resource_manager_flushsave_context entry;;
          g_object_unref_ptr entry;;
          flushsave_contexts entries slots'
      | _ => undefined
      end
  end.

(** [resource_manager_process_tpm2_command]. *)
Definition resource_manager_process_tpm2_command (command : Tpm2Command)
    : M unit :=
  let entries : Entries := replicate ENTRY_COUNT Unwritten in
  let entry_count := (ENTRY_COUNT - 1)%nat in
  let connection := tpm2_command_get_connection command in
  over ← resource_manager_is_over_object_quota command;
  if (over : bool)
  then
    sink_enqueue (Some (tpm2_response_new_rc connection
                                              TSS2_RESMGR_RC_OBJECT_MEMORY))
  else
    '(response, entries, entry_count) ←
      process_command_switch command entries entry_count;
    sink_enqueue response;;
    flushsave_contexts entries (seq 0 entry_count).

(** [resource_manager_enqueue]: the inbound entry point. *)
Definition resource_manager_enqueue (obj : Message) : M unit :=
  message_queue_enqueue obj.

End ResourceManager.

(** ** Vocabulary of the statements *)

(** The object-creating commands of [resource_manager_is_over_object_quota]. *)
Definition object_creating (code : TPM_CC) : Prop :=
  code = TPM_CC_CreatePrimary ∨ code = TPM_CC_Load ∨ code = TPM_CC_LoadExternal.

(** Every entry pointer held by the transient map of connection [c] points
    to an object of the store. *)
Definition entries_valid (st : State) (c : Connection) : Prop :=
  ∀ vh entry, table (trans_map st c) !! vh = Some entry →
              (entry < length (heap st))%nat.

(** The allocator of a map never collides with a live key. *)
Definition next_vhandle_fresh (m : HandleMap) : Prop :=
  table m !! next_vhandle m = None.

(** The contract of [context_load]: a successful load yields a physical
    handle in a transient slot. *)
Definition loads_transient (broker : AccessBroker) : Prop :=
  ∀ hist ctx,
    (ab_context_load broker hist ctx).1 = TSS2_RC_SUCCESS →
    handle_type (ab_context_load broker hist ctx).2 = TPM_HT_TRANSIENT.

(** The kinds of recorded calls. *)
Definition is_load (call : BrokerCall) : bool :=
  match call with CallContextLoad _ _ _ => true | _ => false end.
Definition is_load_ok (call : BrokerCall) : bool :=
  match call with CallContextLoad _ rc _ => rc =? TSS2_RC_SUCCESS | _ => false end.
Definition is_saveflush (call : BrokerCall) : bool :=
  match call with CallContextSaveFlush _ _ _ => true | _ => false end.

(** Slot [i] of the handle area holds a transient handle bound in the map
    of connection [c]. *)
Definition slot_present (st : State) (c : Connection)
    (handles : list TPM_HANDLE) (i : nat) : bool :=
  match handles !! i with
  | Some h =>
      (handle_type h =? TPM_HT_TRANSIENT)
      && bool_decide (is_Some (table (trans_map st c) !! h))
  | None => false
  end.

(** The number of slots among [slots] that hold a transient handle bound in
    the map, and the number of successful loads among recorded calls. *)
Definition count_present (st : State) (c : Connection)
    (handles : list TPM_HANDLE) (slots : list nat) : nat :=
  length (List.filter (slot_present st c handles) slots).
Definition count_ok (loads : list BrokerCall) : nat :=
  length (List.filter is_load_ok loads).

(** Cell [j] of [entries] has been written with a pointer to an object of
    the store. *)
Definition cell_init (st : State) (entries : list Cell) (j : nat)
    : Prop :=
  ∃ entry, entries !! j = Some (Ptr (Some entry)) ∧ (entry < length (heap st))%nat.

(** Cell [j] of [entries] points to an entry whose physical handle is
    transient: the entry occupies a slot of the TPM. *)
Definition cell_loaded (st : State) (entries : list Cell) (j : nat)
    : Prop :=
  ∃ entry e, entries !! j = Some (Ptr (Some entry)) ∧ heap st !! entry = Some e ∧
             handle_type (phandle e) = TPM_HT_TRANSIENT.

(** The state after the body of the loop of
    [resource_manager_load_contexts] has found [entry] for a slot: the
    lookup has borrowed the entry, the load has been recorded and, when it
    succeeded, the entry carries the new physical handle. *)
Definition after_load (resmgr : ResourceManager) (entry : nat)
    (e : HandleMapEntry) (st : State) : State :=
  let r := ab_context_load (access_broker resmgr) (calls st) (context e) in
  let e1 := with_refcount (S (refcount e)) e in
  set_heap (<[entry := if r.1 =? TSS2_RC_SUCCESS
                       then with_phandle r.2 e1 else e1]> (heap st))
           (set_calls (CallContextLoad (context e) r.1 r.2 :: calls st) st).

(** What the loop of [resource_manager_load_contexts] over [slots]
    guarantees, from [(entries, n)] in state [st] to [(entries', n')] in
    state [st']. *)
Definition load_post (resmgr : ResourceManager) (c : Connection)
    (handles : list TPM_HANDLE) (slots : list nat)
    (entries : list Cell) (n : nat) (st : State)
    (entries' : list Cell) (n' : nat) (st' : State) : Prop :=
  trans_map st' = trans_map st ∧ sink st' = sink st ∧
  in_queue st' = in_queue st ∧
  length (heap st') = length (heap st) ∧
  length entries' = length entries ∧
  (∃ loads,
      calls st' = loads ++ calls st ∧
      Forall (fun call => is_load call = true) loads ∧
      length loads = count_present st c handles slots ∧
      n' = (n + count_ok loads)%nat) ∧
  ((∀ j, (j < n)%nat → cell_init st entries j) →
   ∀ j, (j < n')%nat → cell_init st' entries' j) ∧
  (loads_transient (access_broker resmgr) →
   (∀ j, (j < n)%nat → cell_loaded st entries j) →
   ∀ j, (j < n')%nat → cell_loaded st' entries' j).

(** What [resource_manager_virtualize_handle] does to the state when the
    handle of the response is transient and the allocator has not rolled
    over. *)
Definition virtualize_post (response : Tpm2Response) (st st' : State) : Prop :=
  let c := rsp_connection response in
  let m := trans_map st c in
  let vh := next_vhandle m in
  (∃ rcnt, heap st' = heap st ++ [mkEntry vh (rsp_handle response) [] rcnt] ∧
           (next_vhandle_fresh m → rcnt = 2%nat)) ∧
  next_vhandle (trans_map st' c) = vh + 1 ∧
  capacity (trans_map st' c) = capacity m ∧
  (next_vhandle_fresh m →
   table (trans_map st' c) = <[vh := length (heap st)]> (table m)) ∧
  (∀ c', c' ≠ c → trans_map st' c' = trans_map st c') ∧
  sink st' = sink st ∧ in_queue st' = in_queue st ∧ calls st' = calls st.

(** The physical handle of [entry] is 0 or transient: the entry is saved
    and flushed, or it occupies a slot that eviction can release. *)
Definition evictable (st : State) (entry : nat) : Prop :=
  ∃ e, heap st !! entry = Some e ∧
       (phandle e = 0 ∨ handle_type (phandle e) = TPM_HT_TRANSIENT).

(** The physical handle of [entry] is 0, or a saveflush of that very handle
    recorded in [evs] has failed. *)
Definition settled (st : State) (evs : list BrokerCall) (entry : nat) : Prop :=
  ∃ e, heap st !! entry = Some e ∧
       (phandle e = 0 ∨
        ∃ rc ctx, rc ≠ TSS2_RC_SUCCESS ∧
                  CallContextSaveFlush (phandle e) rc ctx ∈ evs).

(** The entry [e] after [resource_manager_flushsave_context], the broker
    having seen the calls [hist]. *)
Definition evicted (resmgr : ResourceManager) (hist : list BrokerCall)
    (e : HandleMapEntry) : HandleMapEntry :=
  if handle_type (phandle e) =? TPM_HT_TRANSIENT
  then
    let r := ab_context_saveflush (access_broker resmgr) hist
                                  (phandle e) (context e) in
    if r.1 =? TSS2_RC_SUCCESS
    then with_phandle 0 (with_context r.2 e)
    else with_context r.2 e
  else e.

(** The calls [resource_manager_flushsave_context] makes for [e]. *)
Definition evict_calls (resmgr : ResourceManager) (hist : list BrokerCall)
    (e : HandleMapEntry) : list BrokerCall :=
  if handle_type (phandle e) =? TPM_HT_TRANSIENT
  then
    let r := ab_context_saveflush (access_broker resmgr) hist
                                  (phandle e) (context e) in
    [CallContextSaveFlush (phandle e) r.1 r.2]
  else [].

(** The state after one turn of the final loop on [entry]: the context is
    saved and flushed, then the reference held for the command is
    released. *)
Definition after_evict (resmgr : ResourceManager) (entry : nat)
    (e : HandleMapEntry) (st : State) : State :=
  let e' := evicted resmgr (calls st) e in
  set_heap (<[entry := with_refcount (Nat.pred (refcount e')) e']> (heap st))
           (set_calls (evict_calls resmgr (calls st) e ++ calls st) st).

(** What the final loop over [slots] guarantees from [st] to [st']. *)
Definition evict_post (entries : list Cell) (slots : list nat)
    (st st' : State) : Prop :=
  trans_map st' = trans_map st ∧ sink st' = sink st ∧
  in_queue st' = in_queue st ∧
  length (heap st') = length (heap st) ∧
  ∃ evs,
    calls st' = evs ++ calls st ∧
    Forall (fun call => is_saveflush call = true) evs ∧
    (∀ a, evictable st a → evictable st' a) ∧
    (∀ a evs0, evictable st a → settled st evs0 a →
               settled st' (evs ++ evs0) a) ∧
    (∀ i a, i ∈ slots → entries !! i = Some (Ptr (Some a)) → evictable st a →
            settled st' evs a).

(** The allocator of the map of connection [c] has left the transient
    range: the next allocation reports a rollover. *)
Definition rolled_over (st : State) (c : Connection) : Prop :=
  handle_type (next_vhandle (trans_map st c)) ≠ TPM_HT_TRANSIENT.

(** What [resource_manager_load_contexts] does for a command of at most
    three handles: [loads] are the calls it makes on the broker, [cmd'] is
    the command as rewritten, and the count it sets is the number of
    successful loads. *)
Definition load_facts (resmgr : ResourceManager) (command : Tpm2Command)
    (st : State) (loads : list BrokerCall) (cmd' : Tpm2Command) : Prop :=
  ∃ rc_l entries_l st_l,
    resource_manager_load_contexts resmgr command
      (replicate ENTRY_COUNT Unwritten) (ENTRY_COUNT - 1) st
    = Done (rc_l, cmd', entries_l, count_ok loads) st_l ∧
    calls st_l = loads ++ calls st ∧
    Forall (fun call => is_load call = true) loads ∧
    (count_ok loads ≤ cmd_handle_count command)%nat.

(** What the default branch of the [switch] guarantees when it ends
    normally, after the loads [loads] and with [cmd'] the command as
    sent. *)
Definition switch_post (resmgr : ResourceManager) (command : Tpm2Command)
    (st : State) (loads : list BrokerCall) (cmd' : Tpm2Command)
    (response : Tpm2Response) (entries : list Cell)
    (n : nat) (st1 : State) : Prop :=
  let sent := ab_send_command (access_broker resmgr) (loads ++ calls st) cmd' in
  length entries = ENTRY_COUNT ∧
  (count_ok loads ≤ n ≤ S (count_ok loads))%nat ∧
  (∀ j, (j < n)%nat → cell_init st1 entries j) ∧
  (loads_transient (access_broker resmgr) →
   ∀ j, (j < n)%nat → cell_loaded st1 entries j) ∧
  calls st1 = CallSendCommand cmd' sent.1 sent.2 :: loads ++ calls st ∧
  (sent.1 = None →
   response = tpm2_response_new_rc (cmd_connection command) sent.2) ∧
  sink st1 = sink st ∧ in_queue st1 = in_queue st.

(** The state a computation ends in, when it ends normally. *)
Definition final_state {A} (o : Outcome A) : option State :=
  match o with Done _ st => Some st | _ => None end.

(** ** Sample brokers, states and commands *)

(** The response of the sample brokers: success, with a new transient
    object when the command creates one. *)
Definition sample_response (command : Tpm2Command) : Tpm2Response :=
  mkResponse (cmd_connection command) TSS2_RC_SUCCESS
             ((cmd_code command =? TPM_CC_CreatePrimary)
              || (cmd_code command =? TPM_CC_Load)
              || (cmd_code command =? TPM_CC_LoadExternal))
             0x80FFFFFE [].

(** A broker on which every call succeeds. *)
Definition broker_ok : AccessBroker :=
  mkBroker (fun _ _ => (TSS2_RC_SUCCESS, 0x80FFFFFF))
           (fun _ _ _ => (TSS2_RC_SUCCESS, [1; 2; 3]))
           (fun _ command => (Some (sample_response command), TSS2_RC_SUCCESS)).

(** A broker on which [context_load] fails with [TPM_RC_OBJECT_MEMORY]. *)
Definition broker_load_fails : AccessBroker :=
  mkBroker (fun _ _ => (TPM_RC_OBJECT_MEMORY, 0))
           (fun _ _ _ => (TSS2_RC_SUCCESS, [1; 2; 3]))
           (fun _ command => (Some (sample_response command), TSS2_RC_SUCCESS)).


Definition sample_map (cap : nat) (next : TPM_HANDLE) (t : gmap Z nat)
    : HandleMap := mkMap t cap next.

(** The maps of the connections that hold nothing. *)
Definition no_objects : Connection → HandleMap :=
  fun _ => sample_map 27 0x80000000 ∅.

(** Nothing is loaded: every connection has an empty map of capacity 27. *)
Definition st_empty : State :=
  mkState [] no_objects [] [] [].

(** Connection 0 has seen one object created: virtual handle
    [0x80000000], saved and flushed. *)
Definition st_one : State :=
  mkState [mkEntry 0x80000000 0 [7; 7] 1%nat]
          (<[0%nat := sample_map 27 0x80000001 {[ 0x80000000 := 0%nat ]}]>
             no_objects)
          [] [] [].

(** As [st_one], but the entry still carries a physical handle (its last
    saveflush failed). *)
Definition st_stale : State :=
  mkState [mkEntry 0x80000000 0x80FFFFFD [7; 7] 1%nat]
          (<[0%nat := sample_map 27 0x80000001 {[ 0x80000000 := 0%nat ]}]>
             no_objects)
          [] [] [].

(** As [st_one], with a map of capacity 1 for connection 0: the map is
    full. *)
Definition st_full : State :=
  mkState [mkEntry 0x80000000 0 [7; 7] 1%nat]
          (<[0%nat := sample_map 1 0x80000001 {[ 0x80000000 := 0%nat ]}]>
             no_objects)
          [] [] [].


(** CreatePrimary under the owner hierarchy. *)
Definition cmd_create_primary : Tpm2Command :=
  mkCommand 0 TPM_CC_CreatePrimary 1 [0x40000001] 0 [].
(** ReadPublic on the object of virtual handle [0x80000000]. *)
Definition cmd_read_public : Tpm2Command :=
  mkCommand 0 0x173 1 [0x80000000] 0 [].
(** FlushContext of [handle]. *)
Definition cmd_flush (handle : TPM_HANDLE) : Tpm2Command :=
  mkCommand 0 TPM_CC_FlushContext 0 [] handle [].


(** ** The worker thread *)

(** Modelled from the spec: [message_queue_dequeue] of [message-queue.c]
    removes the oldest object of the queue.  On an empty queue the caller
    blocks until an object arrives: no object is returned here. *)
Definition message_queue_dequeue : M (option Message) :=
  fun st => match in_queue st with
            | [] => Done None st
            | obj :: q => Done (Some obj) (set_in_queue q st)
            end.

(** How a run of the worker ends: the thread function has returned (or the
    thread has exited while processing a control code), the thread is
    blocked in [message_queue_dequeue] on an empty queue, or it is still
    running after the number of turns observed. *)
Inductive ThreadStatus : Type := Returned | Blocked | Running.

Section Thread.

Variable resmgr : ResourceManager.

(** [process_control_code] is defined outside [resource-manager.c]; the
    file only relies on the fact that it may cause the thread to exit,
    which is the boolean it returns here. *)
Variable process_control_code : ControlCode → bool.

(** [resource_manager_thread]: the [while (TRUE)] loop, observed for at most
    [turns] turns.  A NULL object ends the loop; a command is processed; the
    code of a control message is handed to [process_control_code].  The
    queue carries no object of another type, and the reference counts of
    the objects dequeued are not modelled. *)
Fixpoint resource_manager_thread (turns : nat) : M ThreadStatus :=
  match turns with
  | O => mret Running
  | S turns =>
      obj ← message_queue_dequeue;
      match obj with
      | None => mret Blocked
      | Some MsgNull => mret Returned
      | Some (MsgCommand command) =>
          resource_manager_process_tpm2_command resmgr command;;
          resource_manager_thread turns
      | Some (MsgControl code) =>
          if process_control_code code
          then mret Returned
          else resource_manager_thread turns
      end
  end.

End Thread.

(** [resource_manager_unblock]: a [CHECK_CANCEL] control message is created
    and put on the input queue, which keeps it.  A NULL resource manager is
    a fatal error. *)
Definition resource_manager_unblock (resmgr : option ResourceManager) : M unit :=
  match resmgr with
  | None => g_error
  | Some _ => message_queue_enqueue (MsgControl CHECK_CANCEL)
  end.

(** ** Vocabulary of the further properties *)

(** Every state that the computation [m] can end in, normally or by
    [g_error], is related by [R] to the state it started from. *)
Definition respects {A} (R : State → State → Prop) (m : M A) : Prop :=
  ∀ st, match m st with
        | Done _ st' | Abort st' => R st st'
        | Undefined => True
        end.

(** The relations that hold across every elementary update of the state
    made while a command is processed, the sink apart: a write through an
    entry pointer that keeps the virtual handle and the saved context, a
    new entry, whose saved context is empty, a saveflush, which writes the
    saved context of an entry, the load of the saved context of an entry,
    the command sent, and the three updates of a handle map: a virtual
    handle is allocated, a handle below the allocator is bound to an
    entry of the store, a binding is removed. *)
Record stable (R : State → State → Prop) : Prop := mkStable {
  stable_refl : ∀ st, R st st;
  stable_trans : ∀ st1 st2 st3, R st1 st2 → R st2 st3 → R st1 st3;
  stable_entry : ∀ st a e e',
    heap st !! a = Some e → vhandle e' = vhandle e → context e' = context e →
    R st (set_heap (<[a := e']> (heap st)) st);
  stable_new : ∀ st e, context e = [] → R st (set_heap (heap st ++ [e]) st);
  stable_saved : ∀ st a e ph rc ctx,
    heap st !! a = Some e →
    R st (set_heap (<[a := with_context ctx e]> (heap st))
            (set_calls (CallContextSaveFlush ph rc ctx :: calls st) st));
  stable_load : ∀ st a e rc ph,
    heap st !! a = Some e →
    R st (set_calls (CallContextLoad (context e) rc ph :: calls st) st);
  stable_send : ∀ st command response rc,
    R st (set_calls (CallSendCommand command response rc :: calls st) st);
  stable_next : ∀ st c,
    R st (set_trans_map c (map_next_vhandle (trans_map st c)).2 st);
  stable_insert : ∀ st c vh a,
    (a < length (heap st))%nat →
    vh < next_vhandle (trans_map st c) →
    R st (set_trans_map c (map_insert vh a (trans_map st c)).2 st);
  stable_remove : ∀ st c vh,
    R st (set_trans_map c (map_remove vh (trans_map st c)) st)
}.


(** The input queue is left as it was, and the objects on the sink and the
    calls recorded are still there, in the same order. *)
Definition keeps_queues (st st' : State) : Prop :=
  in_queue st' = in_queue st ∧
  (∃ objs, sink st' = sink st ++ objs) ∧
  (∃ new, calls st' = new ++ calls st).

(** Every cell of the store is still there (the store keeps the cell of an
    object that was released), with the virtual handle it had, and the
    maps that held valid entry pointers still do. *)
Definition keeps_entries (st st' : State) : Prop :=
  (∀ a e, heap st !! a = Some e →
          ∃ e', heap st' !! a = Some e' ∧ vhandle e' = vhandle e) ∧
  ((∀ c, entries_valid st c) → ∀ c, entries_valid st' c).

(** The context [ctx] was written by a [context_saveflush] among the
    recorded calls, whatever the code that call returned. *)
Definition was_saved (ctx : TPMS_CONTEXT) (l : list BrokerCall) : Prop :=
  ∃ ph rc, CallContextSaveFlush ph rc ctx ∈ l.

(** Every context that was handed to [context_load] in the recorded calls
    (most recent first) had been written by an earlier
    [context_saveflush]. *)
Fixpoint loads_saved (l : list BrokerCall) : Prop :=
  match l with
  | [] => True
  | call :: older =>
      match call with
      | CallContextLoad ctx _ _ => was_saved ctx older
      | _ => True
      end ∧ loads_saved older
  end.

(** The saved context of every entry was written by a recorded
    [context_saveflush], and so were the contexts loaded so far. *)
Definition contexts_saved (st : State) : Prop :=
  (∀ a e, heap st !! a = Some e → was_saved (context e) (calls st)) ∧
  loads_saved (calls st).

(** The saved context of every entry was written by a recorded
    [context_saveflush], but for the entries that carry a transient
    physical handle and are pointed to by one of the cells [slots] of
    [entries]: the final loop has yet to save those. *)
Definition saved_or_held (st : State) (entries : list Cell)
    (slots : list nat) : Prop :=
  ∀ a e, heap st !! a = Some e →
         was_saved (context e) (calls st)
         ∨ (handle_type (phandle e) = TPM_HT_TRANSIENT ∧
            ∃ j, j ∈ slots ∧ entries !! j = Some (Ptr (Some a))).

(** The allocator of every map is ahead of the handles the map binds:
    every virtual handle bound was allocated, and the next one is not. *)
Definition allocator_ahead (st : State) : Prop :=
  ∀ c vh a, table (trans_map st c) !! vh = Some a →
            vh < next_vhandle (trans_map st c).

Definition keeps_allocator (st st' : State) : Prop :=
  (∀ c, capacity (trans_map st' c) = capacity (trans_map st c)) ∧
  (∀ c, next_vhandle (trans_map st c) ≤ next_vhandle (trans_map st' c)) ∧
  (allocator_ahead st → allocator_ahead st').

(** Every entry that a map binds is an object of the store that still holds
    a reference, the one of the map at least, and no entry is bound twice,
    in one map or in two: no map points to a released object. *)
Definition maps_own (st : State) : Prop :=
  (∀ c vh a, table (trans_map st c) !! vh = Some a →
             ∃ e, heap st !! a = Some e ∧ (0 < refcount e)%nat) ∧
  (∀ c vh c' vh' a,
     table (trans_map st c) !! vh = Some a →
     table (trans_map st c') !! vh' = Some a → c = c' ∧ vh = vh').

(** No entry of the store carries a physical handle.  This is what the
    entries record, not the contents of the TPM: a physical handle that was
    overwritten in its entry before it was flushed leaves no trace here. *)
Definition tpm_empty (st : State) : Prop :=
  ∀ a e, heap st !! a = Some e → phandle e = 0.

(** Every entry that carries a physical handle carries a transient one, and
    is pointed to by one of the cells [slots] of [entries]. *)
Definition held_by (st : State) (entries : list Cell) (slots : list nat)
    : Prop :=
  ∀ a e, heap st !! a = Some e → phandle e ≠ 0 →
         handle_type (phandle e) = TPM_HT_TRANSIENT ∧
         ∃ j, j ∈ slots ∧ entries !! j = Some (Ptr (Some a)).

(** No two slots of the handle area of [command] name the same entry: the
    transient handles in two different slots are not bound, in the map of
    the connection, to one entry. *)
Definition names_entries_once (st : State) (command : Tpm2Command) : Prop :=
  let handles := tpm2_command_get_handles command [0; 0; 0]
                   (cmd_handle_count command) in
  ∀ i j h h' a,
    i ∈ seq 0 (cmd_handle_count command) →
    j ∈ seq 0 (cmd_handle_count command) → i ≠ j →
    handles !! i = Some h → handles !! j = Some h' →
    handle_type h = TPM_HT_TRANSIENT → handle_type h' = TPM_HT_TRANSIENT →
    table (trans_map st (cmd_connection command)) !! h = Some a →
    table (trans_map st (cmd_connection command)) !! h' = Some a → False.

(** The physical handle that each successful load among [loads] returned
    is transient and is carried by an entry that one of the first [n] cells
    of [entries] points to; those cells point to entries of the store, and
    no two of them to the same entry. *)
Definition loads_held (st : State) (loads : list BrokerCall)
    (entries : list Cell) (n : nat) : Prop :=
  (∀ ctx ph, CallContextLoad ctx TSS2_RC_SUCCESS ph ∈ loads →
     ∃ j a e, (j < n)%nat ∧ entries !! j = Some (Ptr (Some a)) ∧
              heap st !! a = Some e ∧ phandle e = ph ∧
              handle_type ph = TPM_HT_TRANSIENT) ∧
  (∀ j a, (j < n)%nat → entries !! j = Some (Ptr (Some a)) →
          (a < length (heap st))%nat) ∧
  (∀ j j' a, (j < n)%nat → (j' < n)%nat →
             entries !! j = Some (Ptr (Some a)) →
             entries !! j' = Some (Ptr (Some a)) → j = j').

(** A broker on which [context_saveflush] always succeeds. *)
Definition saves_succeed (broker : AccessBroker) : Prop :=
  ∀ hist ph ctx, (ab_context_saveflush broker hist ph ctx).1 = TSS2_RC_SUCCESS.

(** The response the broker returns for [command], or the one synthesized
    from its response code when it returns none. *)
Definition response_of (resmgr : ResourceManager) (hist : list BrokerCall)
    (connection : Connection) (command : Tpm2Command) : Tpm2Response :=
  let sent := ab_send_command (access_broker resmgr) hist command in
  match sent.1 with
  | Some r => r
  | None => tpm2_response_new_rc connection sent.2
  end.

(** The state after [access_broker_send_command]. *)
Definition after_send (resmgr : ResourceManager) (command : Tpm2Command)
    (st : State) : State :=
  let sent := ab_send_command (access_broker resmgr) (calls st) command in
  set_calls (CallSendCommand command sent.1 sent.2 :: calls st) st.

(** The response is handed to [resource_manager_virtualize_handle] and
    comes back with a virtual handle. *)
Definition virtualized (response : Tpm2Response) : Prop :=
  rsp_has_handle response = true ∧
  handle_type (rsp_handle response) = TPM_HT_TRANSIENT.




(** The command [cmd'] is [command] but for the contents of its handle
    area. *)
Definition same_but_handles (command cmd' : Tpm2Command) : Prop :=
  cmd_connection cmd' = cmd_connection command ∧
  cmd_code cmd' = cmd_code command ∧
  cmd_handle_count cmd' = cmd_handle_count command ∧
  cmd_flush_handle cmd' = cmd_flush_handle command ∧
  cmd_params cmd' = cmd_params command ∧
  length (cmd_handles cmd') = length (cmd_handles command).

(** Slot [i] of the handle area of [cmd'] holds what it holds in [command],
    or a physical handle that a successful load among [loads] returned. *)
Definition slot_rewritten (command cmd' : Tpm2Command)
    (loads : list BrokerCall) (i : nat) : Prop :=
  cmd_handles cmd' !! i = cmd_handles command !! i
  ∨ ∃ ctx ph, CallContextLoad ctx TSS2_RC_SUCCESS ph ∈ loads ∧
              cmd_handles cmd' !! i = Some ph.

(** ** More samples *)

(** A command whose attributes announce four handles. *)
Definition cmd_four_handles : Tpm2Command :=
  mkCommand 0 0x173 4 [0x80000000; 0x80000001; 0x80000002; 0x80000003] 0 [].


(** As [st_one], after the command that created the object: the saved
    context of the entry is the one the saveflush of that command wrote. *)
Definition st_saved : State :=
  mkState [mkEntry 0x80000000 0 [1; 2; 3] 1%nat]
          (<[0%nat := sample_map 27 0x80000001 {[ 0x80000000 := 0%nat ]}]>
             no_objects)
          [] []
          [CallContextSaveFlush 0x80FFFFFE TSS2_RC_SUCCESS [1; 2; 3]].

(** A broker like [broker_ok] on which every load returns a physical handle
    of its own. *)
Definition broker_fresh_handles : AccessBroker :=
  mkBroker (fun hist _ =>
              (TSS2_RC_SUCCESS, 0x80FFFF00 + Z.of_nat (length hist) mod 256))
           (fun _ _ _ => (TSS2_RC_SUCCESS, [1; 2; 3]))
           (fun _ command => (Some (sample_response command), TSS2_RC_SUCCESS)).

(** A command that names the object of virtual handle [0x80000000] in two
    slots, and one that names two objects. *)
Definition cmd_same_handle_twice : Tpm2Command :=
  mkCommand 0 0x173 2 [0x80000000; 0x80000000] 0 [].
Definition cmd_two_handles : Tpm2Command :=
  mkCommand 0 0x173 2 [0x80000000; 0x80000001] 0 [].

(** Connection 0 has seen two objects created, both saved and flushed. *)
Definition st_two : State :=
  mkState [mkEntry 0x80000000 0 [7; 7] 1%nat; mkEntry 0x80000001 0 [8; 8] 1%nat]
          (<[0%nat := sample_map 27 0x80000002
                        (<[0x80000000 := 0%nat]> {[ 0x80000001 := 1%nat ]})]>
             no_objects)
          [] [] [].

(** A [process_control_code] that lets the thread run. *)
Definition keep_running : ControlCode → bool := fun _ => false.

(** ** References *)

#[global] Instance Cell_eq_dec : EqDecision Cell.
Proof. solve_decision. Defined.

(** The number of cells of [entries] among [slots] that point to
    [entry]. *)
Definition cells_of (entries : list Cell) (slots : list nat) (entry : nat)
    : nat :=
  length (List.filter
            (fun j => bool_decide (entries !! j = Some (Ptr (Some entry))))
            slots).

(** The number of failed context loads among recorded calls. *)
Definition is_load_failed (call : BrokerCall) : bool :=
  match call with
  | CallContextLoad _ rc _ => negb (rc =? TSS2_RC_SUCCESS)
  | _ => false
  end.
Definition count_failed (l : list BrokerCall) : nat :=
  length (List.filter is_load_failed l).

(** Every entry of [st0] is in [st], and holds the references it held in
    [st0], one more for each cell among [slots] that points to it, and at
    most [failed] more. *)
Definition borrowed (st0 st : State) (entries : list Cell)
    (slots : list nat) (failed : nat) : Prop :=
  ∀ a e0, heap st0 !! a = Some e0 →
    ∃ e, heap st !! a = Some e ∧
         (refcount e0 + cells_of entries slots a ≤ refcount e
          ≤ refcount e0 + cells_of entries slots a + failed)%nat.

(** ** The object, its properties and its life cycle *)

(** The property ids of the class (the [enum] at the head of the file,
    between [PROP_0] and [N_PROPERTIES]). *)
Definition PROP_QUEUE_IN : nat := 1.
Definition PROP_SINK : nat := 2.
Definition PROP_ACCESS_BROKER : nat := 3.

(** The input queue, the sink and the access broker are objects of other
    files; the functions below only store their address and count
    references to them.  [refs] is the reference count of the object at
    each address, [next_object] the address of the next object created. *)
Record Objects : Type := mkObjects {
  refs : addr → nat;
  next_object : addr
}.

(** The instance structure: the thread id of its [Thread] parent (0 when no
    thread runs) and its three pointers, NULL or the address of an
    object. *)
Record Instance : Type := mkInstance {
  thread_id : Z;
  in_queue_ptr : option addr;
  sink_ptr : option addr;
  access_broker_ptr : option addr
}.

(** [g_object_ref] and [g_object_unref] on such an object; on NULL GLib
    only warns. *)
Definition object_ref (p : option addr) (o : Objects) : Objects :=
  match p with
  | Some a => mkObjects (<[a := S (refs o a)]> (refs o)) (next_object o)
  | None => o
  end.
Definition object_unref (p : option addr) (o : Objects) : Objects :=
  match p with
  | Some a => mkObjects (<[a := Nat.pred (refs o a)]> (refs o)) (next_object o)
  | None => o
  end.

(** A [GValue] of type [G_TYPE_OBJECT] holds a pointer, and a reference to
    the object when the pointer is not NULL. *)
Abbreviation GValue := (option addr) (only parsing).

(** [g_value_set_object]: the value takes a reference to the object and
    releases the one it held; [g_value_get_object] reads the pointer;
    [g_value_unset] releases the reference. *)
Definition g_value_set_object (value : GValue) (obj : option addr)
    (o : Objects) : GValue * Objects :=
  (obj, object_unref value (object_ref obj o)).
Definition g_value_get_object (value : GValue) : option addr := value.
Definition g_value_unset (value : GValue) (o : Objects) : Objects :=
  object_unref value o.

(** [resource_manager_set_property]: the input queue is stored as it is;
    the sink and the access broker are stored, and referenced, only when
    the field is still NULL; any other id only draws a warning. *)
Definition resource_manager_set_property (property_id : nat) (value : GValue)
    (s : Objects * Instance) : Objects * Instance :=
  let '(o, resmgr) := s in
  match property_id with
  | 1 (* PROP_QUEUE_IN *) =>
      (o, mkInstance (thread_id resmgr) (g_value_get_object value)
                     (sink_ptr resmgr) (access_broker_ptr resmgr))
  | 2 (* PROP_SINK *) =>
      match sink_ptr resmgr with
      | Some _ => (o, resmgr)
      | None =>
          let sink := g_value_get_object value in
          (object_ref sink o,
           mkInstance (thread_id resmgr) (in_queue_ptr resmgr) sink
                      (access_broker_ptr resmgr))
      end
  | 3 (* PROP_ACCESS_BROKER *) =>
      match access_broker_ptr resmgr with
      | Some _ => (o, resmgr)
      | None =>
          let broker := g_value_get_object value in
          (object_ref broker o,
           mkInstance (thread_id resmgr) (in_queue_ptr resmgr)
                      (sink_ptr resmgr) broker)
      end
  | _ => (o, resmgr)
  end%nat.

(** [resource_manager_get_property]: the field is copied into the value;
    any other id only draws a warning. *)
Definition resource_manager_get_property (property_id : nat) (value : GValue)
    (s : Objects * Instance) : GValue * Objects :=
  let '(o, resmgr) := s in
  match property_id with
  | 1 => g_value_set_object value (in_queue_ptr resmgr) o
  | 2 => g_value_set_object value (sink_ptr resmgr) o
  | 3 => g_value_set_object value (access_broker_ptr resmgr) o
  | _ => (value, o)
  end%nat.

(** [resource_manager_add_sink]: the sink goes through a [GValue] and the
    property [sink], which [resource_manager_class_init] installs under
    [PROP_SINK] as a property that can be written at any time. *)
Definition resource_manager_add_sink (sink : option addr)
    (s : Objects * Instance) : Objects * Instance :=
  let '(o, resmgr) := s in
  let '(value, o) := g_value_set_object None sink o in
  let '(o, resmgr) := resource_manager_set_property PROP_SINK value (o, resmgr) in
  (g_value_unset value o, resmgr).

(** [resource_manager_finalize], on an object that is not NULL: a fatal
    error when the thread is still running; otherwise the references to the
    queue, the sink and the broker are released.  The finalizer of the
    parent class is not part of the file. *)
Definition resource_manager_finalize (s : Objects * Instance)
    : option (Objects * Instance) :=
  let '(o, resmgr) := s in
  if negb (thread_id resmgr =? 0)
  then None
  else
    let o := object_unref (in_queue_ptr resmgr) o in
    let '(o, sink) :=
      match sink_ptr resmgr with
      | Some sink => (object_unref (Some sink) o, None)
      | None => (o, None)
      end in
    let '(o, broker) :=
      match access_broker_ptr resmgr with
      | Some broker => (object_unref (Some broker) o, None)
      | None => (o, None)
      end in
    Some (o, mkInstance (thread_id resmgr) (in_queue_ptr resmgr) sink broker).

(** Modelled from the spec: [message_queue_new] of [message-queue.c] creates
    a queue, which the caller owns. *)
Definition message_queue_new (o : Objects) : addr * Objects :=
  (next_object o,
   mkObjects (<[next_object o := 1%nat]> (refs o)) (S (next_object o))).

(** [g_object_new] with construct properties: the instance starts with
    every field null ([resource_manager_init] does nothing) and each
    property given is set through [resource_manager_set_property]. *)
Definition g_object_new (properties : list (nat * GValue)) (o : Objects)
    : Objects * Instance :=
  foldl (fun s p => resource_manager_set_property p.1 p.2 s)
        (o, mkInstance 0 None None None) properties.

(** [resource_manager_new]: a NULL broker is a fatal error. *)
Definition resource_manager_new (broker : option addr) (o : Objects)
    : option (Objects * Instance) :=
  match broker with
  | None => None
  | Some _ =>
      let '(queue, o) := message_queue_new o in
      Some (g_object_new [(PROP_QUEUE_IN, Some queue);
                          (PROP_ACCESS_BROKER, broker)] o)
  end.

(** Sample objects: a broker at address 0 and two sinks at 1 and 2, each
    referenced once by its creator. *)
Definition sample_objects : Objects := mkObjects (fun _ => 1%nat) 3.
(** * Properties *)

Ltac munfold :=
  unfold mbind, mret, M_bind, M_ret, bind, ret, get, modify, g_error,
    undefined in *.

(** ** Equations of the primitives *)

Lemma deref_eq entry e st :
  heap st !! entry = Some e → deref entry st = Done e st.
Proof. intros H. unfold deref. by rewrite H. Qed.

Lemma update_entry_eq entry e f st :
  heap st !! entry = Some e →
  update_entry entry f st = Done tt (set_heap (<[entry := f e]> (heap st)) st).
Proof. intros H. unfold update_entry. by rewrite H. Qed.

Lemma heap_insert_lookup (h : list HandleMapEntry) a e e' :
  h !! a = Some e → <[a := e']> h !! a = Some e'.
Proof. intros H. apply list_lookup_insert_eq. by eapply lookup_lt_Some. Qed.

Lemma handle_map_vlookup_Some map vh entry e st :
  table (trans_map st map) !! vh = Some entry →
  heap st !! entry = Some e →
  handle_map_vlookup map vh st =
  Done (Some entry)
       (set_heap (<[entry := with_refcount (S (refcount e)) e]> (heap st)) st).
Proof.
  intros Ht He. unfold handle_map_vlookup, g_object_ref. munfold.
  rewrite Ht. by rewrite (update_entry_eq _ e).
Qed.

Lemma handle_map_vlookup_None map vh st :
  table (trans_map st map) !! vh = None →
  handle_map_vlookup map vh st = Done None st.
Proof. intros Ht. unfold handle_map_vlookup. munfold. by rewrite Ht. Qed.

Lemma is_over_object_quota_eq command st :
  resource_manager_is_over_object_quota command st =
  Done (bool_decide (object_creating (cmd_code command))
        && map_is_full (trans_map st (cmd_connection command))) st.
Proof.
  unfold resource_manager_is_over_object_quota, tpm2_command_get_code,
    handle_map_is_full, connection_get_trans_map,
    tpm2_command_get_connection, object_creating.
  destruct (Z.eqb_spec (cmd_code command) TPM_CC_CreatePrimary) as [->|H1];
    [reflexivity|].
  destruct (Z.eqb_spec (cmd_code command) TPM_CC_Load) as [->|H2];
    [reflexivity|].
  destruct (Z.eqb_spec (cmd_code command) TPM_CC_LoadExternal) as [->|H3];
    [reflexivity|].
  rewrite bool_decide_eq_false_2 by tauto. reflexivity.
Qed.

Lemma flush_not_object_creating : ¬ object_creating TPM_CC_FlushContext.
Proof. intros [H|[H|H]]; discriminate H. Qed.

(** FlushContext always passes the quota gate. *)
Lemma flush_passes_gate command st :
  cmd_code command = TPM_CC_FlushContext →
  resource_manager_is_over_object_quota command st = Done false st.
Proof.
  intros H. rewrite is_over_object_quota_eq, H.
  by rewrite bool_decide_eq_false_2 by apply flush_not_object_creating.
Qed.

(** A rejected command: the synthesized response goes to the sink and
    nothing else happens. *)
Lemma process_over_quota resmgr command st :
  resource_manager_is_over_object_quota command st = Done true st →
  resource_manager_process_tpm2_command resmgr command st =
  Done tt (set_sink (sink st ++
                     [Some (tpm2_response_new_rc (cmd_connection command)
                                          TSS2_RESMGR_RC_OBJECT_MEMORY)]) st).
Proof.
  intros Hq. unfold resource_manager_process_tpm2_command. munfold.
  by rewrite Hq.
Qed.

(** What [resource_manager_process_tpm2_command] does with a FlushContext
    command, in terms of [resource_manager_flush_context]. *)
Lemma process_flush_eq resmgr command st :
  cmd_code command = TPM_CC_FlushContext →
  resource_manager_process_tpm2_command resmgr command st =
  match resource_manager_flush_context resmgr command st with
  | Done response st' => Done tt (set_sink (sink st' ++ [response]) st')
  | Abort st' => Abort st'
  | Undefined => Undefined
  end.
Proof.
  intros Hcode. unfold resource_manager_process_tpm2_command. munfold.
  rewrite flush_passes_gate by done.
  unfold process_command_switch, tpm2_command_get_code. rewrite Hcode.
  cbn [Z.eqb TPM_CC_FlushContext Pos.eqb]. munfold.
  destruct (resource_manager_flush_context resmgr command st); reflexivity.
Qed.

(** ** The three cases of FlushContext *)

Lemma flush_context_managed resmgr command st entry e :
  cmd_code command = TPM_CC_FlushContext →
  handle_type (cmd_flush_handle command) = TPM_HT_TRANSIENT →
  table (trans_map st (cmd_connection command)) !! cmd_flush_handle command
    = Some entry →
  heap st !! entry = Some e →
  resource_manager_flush_context resmgr command st =
  Done (Some (tpm2_response_new_rc (cmd_connection command) TSS2_RC_SUCCESS))
    (set_heap (<[entry := with_refcount (Nat.pred (refcount e)) e]> (heap st))
       (set_trans_map (cmd_connection command)
          (map_remove (cmd_flush_handle command)
                      (trans_map st (cmd_connection command))) st)).
Proof.
  intros Hcode Hty Ht He.
  unfold resource_manager_flush_context, tpm2_command_get_code,
    tpm2_command_get_flush_handle, tpm2_command_get_connection,
    connection_get_trans_map.
  rewrite Hcode, Hty.
  cbn [Z.eqb TPM_CC_FlushContext Pos.eqb negb TPM_HT_TRANSIENT].
  munfold. rewrite (handle_map_vlookup_Some _ _ _ _ _ Ht He).
  unfold handle_map_remove, g_object_unref. munfold.
  cbn [trans_map set_heap heap]. rewrite Ht.
  erewrite update_entry_eq by (cbn; by eapply heap_insert_lookup).
  erewrite update_entry_eq
    by (cbn; eapply heap_insert_lookup; by eapply heap_insert_lookup).
  cbn. by rewrite !list_insert_insert_eq.
Qed.

Lemma flush_context_unknown resmgr command st :
  cmd_code command = TPM_CC_FlushContext →
  handle_type (cmd_flush_handle command) = TPM_HT_TRANSIENT →
  table (trans_map st (cmd_connection command)) !! cmd_flush_handle command
    = None →
  resource_manager_flush_context resmgr command st =
  Done (Some (tpm2_response_new_rc (cmd_connection command)
                (RM_RC (TPM_RC_HANDLE + TPM_RC_P + TPM_RC_1)))) st.
Proof.
  intros Hcode Hty Ht.
  unfold resource_manager_flush_context, tpm2_command_get_code,
    tpm2_command_get_flush_handle, tpm2_command_get_connection,
    connection_get_trans_map.
  rewrite Hcode, Hty.
  cbn [Z.eqb TPM_CC_FlushContext Pos.eqb negb TPM_HT_TRANSIENT].
  munfold. by rewrite (handle_map_vlookup_None _ _ _ Ht).
Qed.

Lemma flush_context_unmanaged resmgr command st :
  cmd_code command = TPM_CC_FlushContext →
  handle_type (cmd_flush_handle command) ≠ TPM_HT_TRANSIENT →
  resource_manager_flush_context resmgr command st =
  Done (ab_send_command (access_broker resmgr) (calls st) command).1
    (set_calls
       (CallSendCommand command
          (ab_send_command (access_broker resmgr) (calls st) command).1
          (ab_send_command (access_broker resmgr) (calls st) command).2
        :: calls st) st).
Proof.
  intros Hcode Hty.
  unfold resource_manager_flush_context, tpm2_command_get_code,
    tpm2_command_get_flush_handle.
  rewrite Hcode.
  cbn [Z.eqb TPM_CC_FlushContext Pos.eqb negb].
  destruct (Z.eqb_spec (handle_type (cmd_flush_handle command))
                       TPM_HT_TRANSIENT) as [Heq|_]; [done|].
  unfold access_broker_send_command. munfold.
  by destruct (ab_send_command (access_broker resmgr) (calls st) command).
Qed.

(** ** Command rewriting *)

Lemma virt_to_phys_eq resmgr command entry i e st :
  heap st !! entry = Some e →
  resource_manager_virt_to_phys resmgr command entry i st =
  let r := ab_context_load (access_broker resmgr) (calls st) (context e) in
  let st1 := set_calls (CallContextLoad (context e) r.1 r.2 :: calls st) st in
  if r.1 =? TSS2_RC_SUCCESS
  then Done (r.1, tpm2_command_set_handle command r.2 i)
            (set_heap (<[entry := with_phandle r.2 e]> (heap st)) st1)
  else Done (r.1, command) st1.
Proof.
  intros He. unfold resource_manager_virt_to_phys, handle_map_entry_get_context,
    access_broker_context_load, handle_map_entry_set_phandle.
  munfold. rewrite (deref_eq _ _ _ He).
  destruct (ab_context_load (access_broker resmgr) (calls st) (context e))
    as [rc ph]. cbn [fst snd].
  destruct (rc =? TSS2_RC_SUCCESS); [|reflexivity].
  erewrite update_entry_eq by (cbn; exact He). reflexivity.
Qed.

Lemma load_contexts_body_skip resmgr conn handles i acc st :
  (i < length handles)%nat →
  slot_present st conn handles i = false →
  load_contexts_body resmgr conn handles i acc st = Done acc st.
Proof.
  intros Hi Hp. unfold load_contexts_body, slot_present in *.
  destruct acc as [[[rc cmd] entries] n].
  destruct (lookup_lt_is_Some_2 _ _ Hi) as [h Hh]. rewrite Hh in *.
  destruct (handle_type h =? TPM_HT_TRANSIENT); [|reflexivity].
  cbn in Hp. apply bool_decide_eq_false in Hp.
  unfold connection_get_trans_map. munfold.
  rewrite handle_map_vlookup_None; [reflexivity|].
  destruct (table (trans_map st conn) !! h) eqn:E; [|done].
  exfalso. apply Hp. eauto.
Qed.

Lemma load_contexts_body_present resmgr conn handles i rc cmd entries n st h entry e :
  handles !! i = Some h →
  handle_type h = TPM_HT_TRANSIENT →
  table (trans_map st conn) !! h = Some entry →
  heap st !! entry = Some e →
  load_contexts_body resmgr conn handles i (rc, cmd, entries, n) st =
  let r := ab_context_load (access_broker resmgr) (calls st) (context e) in
  if r.1 =? TSS2_RC_SUCCESS
  then if bool_decide (n < length entries)%nat
       then Done (r.1, tpm2_command_set_handle cmd r.2 i,
                  <[n := Ptr (Some entry)]> entries, S n)
                 (after_load resmgr entry e st)
       else Undefined
  else Done (r.1, cmd, entries, n) (after_load resmgr entry e st).
Proof.
  intros Hh Hty Ht He. unfold load_contexts_body, connection_get_trans_map.
  rewrite Hh, Hty. cbn [Z.eqb TPM_HT_TRANSIENT Pos.eqb].
  munfold. rewrite (handle_map_vlookup_Some _ _ _ _ _ Ht He).
  erewrite virt_to_phys_eq by (cbn; by eapply heap_insert_lookup).
  unfold after_load. cbn [heap set_heap calls set_calls context with_refcount].
  destruct (ab_context_load (access_broker resmgr) (calls st) (context e))
    as [rc' ph]. cbn [fst snd].
  destruct (rc' =? TSS2_RC_SUCCESS) eqn:Hrc; cbn [negb].
  - rewrite Hrc. cbn [negb]. destruct (bool_decide (n < length entries)%nat); [|reflexivity].
    cbn. by rewrite list_insert_insert_eq.
  - rewrite Hrc. reflexivity.
Qed.

Lemma after_load_frame resmgr entry e st :
  trans_map (after_load resmgr entry e st) = trans_map st ∧
  sink (after_load resmgr entry e st) = sink st ∧
  in_queue (after_load resmgr entry e st) = in_queue st ∧
  length (heap (after_load resmgr entry e st)) = length (heap st) ∧
  calls (after_load resmgr entry e st) =
    [CallContextLoad (context e)
       (ab_context_load (access_broker resmgr) (calls st) (context e)).1
       (ab_context_load (access_broker resmgr) (calls st) (context e)).2]
    ++ calls st.
Proof. unfold after_load. cbn. by rewrite length_insert. Qed.

Lemma cell_init_after_load resmgr entry e st entries j :
  cell_init st entries j → cell_init (after_load resmgr entry e st) entries j.
Proof.
  intros (a & Ha & Hlt). exists a. split; [done|].
  by rewrite (proj1 (proj2 (proj2 (proj2 (after_load_frame resmgr entry e st))))).
Qed.

Lemma cell_loaded_after_load resmgr entry e st entries j :
  loads_transient (access_broker resmgr) →
  heap st !! entry = Some e →
  cell_loaded st entries j →
  cell_loaded (after_load resmgr entry e st) entries j.
Proof.
  intros Hb He (a & e0 & Ha & He0 & Hty). unfold cell_loaded, after_load. cbn.
  destruct (decide (a = entry)) as [->|Hne].
  - eexists entry, _. split; [done|]. split.
    + by eapply heap_insert_lookup.
    + assert (e0 = e) as -> by congruence.
      destruct (_ =? _) eqn:Hrc; cbn; [|done].
      apply Hb. by apply Z.eqb_eq.
  - exists a, e0. split; [done|]. split; [|done].
    by rewrite list_lookup_insert_ne.
Qed.

Lemma cell_init_insert st (entries : list Cell) n x j :
  (j < n)%nat → cell_init st entries j → cell_init st (<[n := x]> entries) j.
Proof.
  intros Hj (a & Ha & Hlt). exists a. split; [|done].
  rewrite list_lookup_insert_ne by lia. done.
Qed.

Lemma cell_loaded_insert st (entries : list Cell) n x j :
  (j < n)%nat → cell_loaded st entries j → cell_loaded st (<[n := x]> entries) j.
Proof.
  intros Hj (a & e & Ha & He). exists a, e. split; [|done].
  rewrite list_lookup_insert_ne by lia. done.
Qed.

Lemma slot_present_true st c handles i :
  slot_present st c handles i = true →
  ∃ h entry, handles !! i = Some h ∧ handle_type h = TPM_HT_TRANSIENT ∧
             table (trans_map st c) !! h = Some entry.
Proof.
  unfold slot_present. destruct (handles !! i) as [h|]; [|done].
  intros [Hty Hin]%andb_true_iff. apply Z.eqb_eq in Hty.
  apply bool_decide_eq_true in Hin as [entry Hentry]. eauto.
Qed.

(** One turn of the loop of [resource_manager_load_contexts]. *)
Lemma load_contexts_body_post resmgr c handles i rc cmd entries n st :
  (i < length handles)%nat →
  entries_valid st c →
  (n < length entries)%nat →
  ∃ rc' cmd' entries' n' st',
    load_contexts_body resmgr c handles i (rc, cmd, entries, n) st =
      Done (rc', cmd', entries', n') st' ∧
    load_post resmgr c handles [i] entries n st entries' n' st'.
Proof.
  intros Hi Hv Hn.
  destruct (slot_present st c handles i) eqn:Hp.
  - destruct (slot_present_true _ _ _ _ Hp) as (h & entry & Hh & Hty & Ht).
    destruct (lookup_lt_is_Some_2 (heap st) entry (Hv _ _ Ht)) as [e He].
    rewrite (load_contexts_body_present _ _ _ _ _ _ _ _ _ _ _ _ Hh Hty Ht He).
    cbn zeta.
    destruct (after_load_frame resmgr entry e st) as (F1 & F2 & F3 & F4 & F5).
    destruct ((ab_context_load (access_broker resmgr) (calls st) (context e)).1
              =? TSS2_RC_SUCCESS) eqn:Hrc.
    + rewrite bool_decide_eq_true_2 by done.
      do 5 eexists. split; [reflexivity|].
      unfold load_post. rewrite length_insert.
      split_and!; try done.
      * eexists. split; [exact F5|]. split; [by repeat constructor|].
        unfold count_present, count_ok. cbn. rewrite Hp, Hrc. cbn. split; [done|lia].
      * intros Hinit j Hj. destruct (decide (j = n)) as [->|Hne].
        -- exists entry. rewrite list_lookup_insert_eq by done.
           split; [done|]. rewrite F4. by eapply lookup_lt_Some.
        -- apply cell_init_insert; [lia|]. apply cell_init_after_load.
           apply Hinit. lia.
      * intros Hb Hl j Hj. destruct (decide (j = n)) as [->|Hne].
        -- eexists entry, _. rewrite list_lookup_insert_eq by done.
           split; [done|]. unfold after_load. cbn. split.
           ++ by eapply heap_insert_lookup.
           ++ rewrite Hrc. cbn. apply Hb. by apply Z.eqb_eq.
        -- apply cell_loaded_insert; [lia|]. apply cell_loaded_after_load; [done..|].
           apply Hl. lia.
    + do 5 eexists. split; [reflexivity|].
      unfold load_post. split_and!; try done.
      * eexists. split; [exact F5|]. split; [by repeat constructor|].
        unfold count_present, count_ok. cbn. rewrite Hp, Hrc. cbn. split; [done|lia].
      * intros Hinit j Hj. apply cell_init_after_load. by apply Hinit.
      * intros Hb Hl j Hj. apply cell_loaded_after_load; [done..|]. by apply Hl.
  - rewrite load_contexts_body_skip by done.
    do 5 eexists. split; [reflexivity|].
    unfold load_post. split_and!; try done.
    exists []. split; [done|]. split; [constructor|].
    unfold count_present, count_ok. cbn. rewrite Hp. cbn. split; [done|lia].
Qed.

Lemma slot_present_trans_map st st' c handles i :
  trans_map st' = trans_map st →
  slot_present st' c handles i = slot_present st c handles i.
Proof. intros H. unfold slot_present. by rewrite H. Qed.

Lemma count_present_trans_map st st' c handles slots :
  trans_map st' = trans_map st →
  count_present st' c handles slots = count_present st c handles slots.
Proof.
  intros H. unfold count_present. f_equal.
  apply List.filter_ext. intros i. by apply slot_present_trans_map.
Qed.

Lemma count_present_cons st c handles i slots :
  count_present st c handles (i :: slots) =
  (count_present st c handles [i] + count_present st c handles slots)%nat.
Proof.
  unfold count_present. cbn. destruct (slot_present st c handles i); reflexivity.
Qed.

Lemma count_present_le st c handles slots :
  (count_present st c handles slots ≤ length slots)%nat.
Proof. apply List.filter_length_le. Qed.

Lemma count_ok_app l1 l2 : count_ok (l1 ++ l2) = (count_ok l1 + count_ok l2)%nat.
Proof. unfold count_ok. by rewrite List.filter_app, length_app. Qed.

Lemma count_ok_le l : (count_ok l ≤ length l)%nat.
Proof. apply List.filter_length_le. Qed.

Lemma load_post_refl resmgr c handles entries n st :
  load_post resmgr c handles [] entries n st entries n st.
Proof.
  unfold load_post. split_and!; try done.
  exists []. split; [done|]. split; [constructor|]. cbn. split; [done|lia].
Qed.

Lemma load_post_trans resmgr c handles i slots
    entries n st entries1 n1 st1 entries' n' st' :
  load_post resmgr c handles [i] entries n st entries1 n1 st1 →
  load_post resmgr c handles slots entries1 n1 st1 entries' n' st' →
  load_post resmgr c handles (i :: slots) entries n st entries' n' st'.
Proof.
  intros (A1 & A2 & A3 & A4 & A5 & (l1 & A6 & A7 & A8 & A9) & A10 & A11)
         (B1 & B2 & B3 & B4 & B5 & (l2 & B6 & B7 & B8 & B9) & B10 & B11).
  unfold load_post. split_and!; try congruence.
  - exists (l2 ++ l1). split; [by rewrite B6, A6, app_assoc|].
    split; [by apply Forall_app|].
    rewrite length_app, count_present_cons, count_ok_app, A8, B8.
    rewrite (count_present_trans_map _ _ _ _ _ A1). split; lia.
  - auto.
  - auto.
Qed.

Lemma entries_valid_frame st st' c :
  trans_map st' = trans_map st → length (heap st') = length (heap st) →
  entries_valid st c → entries_valid st' c.
Proof. intros Ht Hl Hv vh entry. rewrite Ht, Hl. apply Hv. Qed.

(** The loop of [resource_manager_load_contexts] ends normally when the
    array has room for one entry per slot, and establishes [load_post]. *)
Lemma load_contexts_loop_post resmgr c handles slots :
  ∀ rc cmd entries n st,
  (∀ i, i ∈ slots → (i < length handles)%nat) →
  entries_valid st c →
  (n + length slots ≤ length entries)%nat →
  ∃ rc' cmd' entries' n' st',
    load_contexts_loop resmgr c handles slots (rc, cmd, entries, n) st =
      Done (rc', cmd', entries', n') st' ∧
    load_post resmgr c handles slots entries n st entries' n' st'.
Proof.
  induction slots as [|i slots IH]; intros rc cmd entries n st Hidx Hv Hroom.
  - do 5 eexists. split; [reflexivity|]. apply load_post_refl.
  - cbn [load_contexts_loop]. munfold. cbn [length] in Hroom.
    destruct (load_contexts_body_post resmgr c handles i rc cmd entries n st)
      as (rc1 & cmd1 & entries1 & n1 & st1 & Hbody & Hpost);
      [apply Hidx; left| done | lia |].
    rewrite Hbody.
    pose proof Hpost as (A1 & _ & _ & A4 & A5 & (l1 & _ & _ & A8 & A9) & _).
    destruct (IH rc1 cmd1 entries1 n1 st1)
      as (rc' & cmd' & entries' & n' & st' & Hloop & Hpost').
    + intros j Hj. apply Hidx. by right.
    + by eapply entries_valid_frame.
    + pose proof (count_ok_le l1). pose proof (count_present_le st c handles [i]).
      cbn [length] in *. lia.
    + rewrite Hloop. do 5 eexists. split; [reflexivity|].
      by eapply load_post_trans.
Qed.

Lemma tpm2_command_get_handles_length command handles count :
  (count ≤ length handles)%nat →
  length (tpm2_command_get_handles command handles count) = length handles.
Proof.
  intros H. unfold tpm2_command_get_handles.
  rewrite length_app, length_drop, length_take. lia.
Qed.

(** [resource_manager_load_contexts] on a command of at most three
    handles. *)
Lemma load_contexts_post resmgr command entries entry_count st :
  (cmd_handle_count command ≤ 3)%nat →
  (cmd_handle_count command ≤ entry_count)%nat →
  (cmd_handle_count command ≤ length entries)%nat →
  entries_valid st (cmd_connection command) →
  ∃ rc' cmd' entries' n' st',
    resource_manager_load_contexts resmgr command entries entry_count st =
      Done (rc', cmd', entries', n') st' ∧
    load_post resmgr (cmd_connection command)
      (tpm2_command_get_handles command [0; 0; 0] (cmd_handle_count command))
      (seq 0 (cmd_handle_count command)) entries 0 st entries' n' st'.
Proof.
  intros H3 Hec Hlen Hv. unfold resource_manager_load_contexts,
    tpm2_command_get_handle_count, tpm2_command_get_connection.
  rewrite bool_decide_eq_false_2 by lia.
  rewrite bool_decide_eq_false_2 by (cbn; lia).
  apply load_contexts_loop_post; [|done|by rewrite length_seq].
  intros i Hi%elem_of_seq.
  rewrite tpm2_command_get_handles_length by (cbn; lia). cbn. lia.
Qed.

(** ** Response virtualization *)

Lemma transient_nonzero h : handle_type h = TPM_HT_TRANSIENT → h ≠ 0.
Proof. intros H ->. discriminate H. Qed.

Lemma virtualize_handle_transient response st :
  handle_type (rsp_handle response) = TPM_HT_TRANSIENT →
  handle_type (next_vhandle (trans_map st (rsp_connection response)))
    = TPM_HT_TRANSIENT →
  ∃ st',
    resource_manager_virtualize_handle response st =
      Done (Some (length (heap st)),
            tpm2_response_set_handle response
              (next_vhandle (trans_map st (rsp_connection response)))) st' ∧
    virtualize_post response st st'.
Proof.
  intros Hty Hnext.
  unfold resource_manager_virtualize_handle, tpm2_response_get_handle,
    tpm2_response_get_connection, connection_get_trans_map,
    handle_map_next_vhandle, map_next_vhandle, is_transient.
  rewrite Hty. cbn [Z.eqb TPM_HT_TRANSIENT Pos.eqb]. munfold.
  rewrite Hnext. cbn [Z.eqb TPM_HT_TRANSIENT Pos.eqb].
  set (m := trans_map st (rsp_connection response)) in *.
  destruct (Z.eqb_spec (next_vhandle m) 0) as [H0|_];
    [by apply transient_nonzero in Hnext|].
  unfold handle_map_entry_new, handle_map_insert, map_insert. munfold.
  cbn [heap trans_map set_trans_map set_heap table capacity next_vhandle].
  rewrite fn_lookup_insert. cbn [table capacity next_vhandle].
  destruct (table m !! next_vhandle m) eqn:Hfresh.
  - eexists. split; [reflexivity|]. unfold virtualize_post. fold m.
    cbn. rewrite fn_lookup_insert. cbn.
    split_and!; try done.
    + eexists. split; [reflexivity|]. unfold next_vhandle_fresh. congruence.
    + unfold next_vhandle_fresh. congruence.
    + intros c' Hc'. by rewrite fn_lookup_insert_ne.
  - unfold g_object_ref.
    erewrite update_entry_eq
      by (cbn; rewrite lookup_app_r, Nat.sub_diag by lia; reflexivity).
    eexists. split; [reflexivity|]. unfold virtualize_post. fold m.
    cbn. rewrite fn_lookup_insert. cbn.
    split_and!; try done.
    + eexists. split; [|done].
      rewrite insert_app_r_alt, Nat.sub_diag by lia. reflexivity.
    + intros c' Hc'. by rewrite !fn_lookup_insert_ne.
Qed.

Lemma virtualize_handle_other response st :
  handle_type (rsp_handle response) ≠ TPM_HT_TRANSIENT →
  resource_manager_virtualize_handle response st = Done (None, response) st.
Proof.
  intros Hty. unfold resource_manager_virtualize_handle,
    tpm2_response_get_handle.
  by destruct (Z.eqb_spec (handle_type (rsp_handle response)) TPM_HT_TRANSIENT).
Qed.

Lemma virtualize_handle_rollover response st :
  handle_type (rsp_handle response) = TPM_HT_TRANSIENT →
  handle_type (next_vhandle (trans_map st (rsp_connection response)))
    ≠ TPM_HT_TRANSIENT →
  ∃ st', resource_manager_virtualize_handle response st = Abort st' ∧
         sink st' = sink st.
Proof.
  intros Hty Hnext.
  unfold resource_manager_virtualize_handle, tpm2_response_get_handle,
    tpm2_response_get_connection, connection_get_trans_map,
    handle_map_next_vhandle, map_next_vhandle, is_transient.
  rewrite Hty. cbn [Z.eqb TPM_HT_TRANSIENT Pos.eqb]. munfold.
  destruct (Z.eqb_spec (handle_type (next_vhandle
              (trans_map st (rsp_connection response)))) TPM_HT_TRANSIENT);
    [done|].
  cbn. eexists. split; reflexivity.
Qed.

(** ** Context eviction *)

Lemma flushsave_context_eq resmgr entry e st :
  heap st !! entry = Some e →
  resource_manager_flushsave_context resmgr (Some entry) st =
  if handle_type (phandle e) =? TPM_HT_TRANSIENT
  then
    let r := ab_context_saveflush (access_broker resmgr) (calls st)
                                  (phandle e) (context e) in
    Done r.1
      (set_heap (<[entry := evicted resmgr (calls st) e]> (heap st))
         (set_calls (CallContextSaveFlush (phandle e) r.1 r.2 :: calls st) st))
  else Done TSS2_RC_SUCCESS st.
Proof.
  intros He. unfold resource_manager_flushsave_context,
    handle_map_entry_get_phandle, access_broker_context_saveflush,
    handle_map_entry_set_phandle, evicted.
  munfold. rewrite (deref_eq _ _ _ He).
  destruct (handle_type (phandle e) =? TPM_HT_TRANSIENT); [|reflexivity].
  rewrite (deref_eq _ _ _ He).
  erewrite update_entry_eq by (cbn; exact He).
  cbn [heap calls set_heap set_calls].
  destruct (ab_context_saveflush (access_broker resmgr) (calls st)
              (phandle e) (context e)) as [rc ctx']. cbn [fst snd].
  destruct (rc =? TSS2_RC_SUCCESS); [|reflexivity].
  erewrite update_entry_eq by (cbn; by eapply heap_insert_lookup).
  cbn. by rewrite list_insert_insert_eq.
Qed.

Lemma evict_step_eq resmgr entry e st :
  heap st !! entry = Some e →
  (resource_manager_flushsave_context resmgr (Some entry);;
   g_object_unref_ptr (Some entry)) st
  = Done tt (after_evict resmgr entry e st).
Proof.
  intros He. munfold. rewrite (flushsave_context_eq _ _ _ _ He).
  unfold after_evict, evicted, evict_calls, g_object_unref_ptr, g_object_unref.
  destruct (handle_type (phandle e) =? TPM_HT_TRANSIENT).
  - cbn zeta. erewrite update_entry_eq by (cbn; by eapply heap_insert_lookup).
    cbn. by rewrite list_insert_insert_eq.
  - by rewrite (update_entry_eq _ _ _ _ He).
Qed.

Lemma evicted_phandle resmgr hist e :
  phandle (evicted resmgr hist e) = 0 ∨
  phandle (evicted resmgr hist e) = phandle e ∧
  (handle_type (phandle e) = TPM_HT_TRANSIENT →
   ∃ rc ctx, rc ≠ TSS2_RC_SUCCESS ∧
     evict_calls resmgr hist e = [CallContextSaveFlush (phandle e) rc ctx]).
Proof.
  unfold evicted, evict_calls.
  destruct (Z.eqb_spec (handle_type (phandle e)) TPM_HT_TRANSIENT) as [Hty|Hty].
  - cbn zeta.
    destruct (Z.eqb_spec (ab_context_saveflush (access_broker resmgr) hist
                (phandle e) (context e)).1 TSS2_RC_SUCCESS) as [Hrc|Hrc].
    + left. reflexivity.
    + right. split; [reflexivity|]. intros _. eauto.
  - right. split; [reflexivity|]. done.
Qed.

Lemma evict_calls_saveflush resmgr hist e :
  Forall (fun call => is_saveflush call = true) (evict_calls resmgr hist e).
Proof.
  unfold evict_calls. destruct (_ =? _); by repeat constructor.
Qed.

Lemma settled_mono st evs evs' a :
  settled st evs a → settled st (evs' ++ evs) a.
Proof.
  intros (e & He & [H0|(rc & ctx & Hrc & Hin)]); exists e; split; auto.
  right. exists rc, ctx. split; [done|]. apply elem_of_app. by right.
Qed.

Lemma settled_mono_l st evs evs' a :
  settled st evs a → settled st (evs ++ evs') a.
Proof.
  intros (e & He & [H0|(rc & ctx & Hrc & Hin)]); exists e; split; auto.
  right. exists rc, ctx. split; [done|]. apply elem_of_app. by left.
Qed.

Lemma after_evict_other resmgr entry e st a :
  a ≠ entry → heap (after_evict resmgr entry e st) !! a = heap st !! a.
Proof. intros H. unfold after_evict. cbn. by rewrite list_lookup_insert_ne. Qed.

Lemma after_evict_same resmgr entry e st :
  heap st !! entry = Some e →
  heap (after_evict resmgr entry e st) !! entry =
  Some (with_refcount (Nat.pred (refcount (evicted resmgr (calls st) e)))
          (evicted resmgr (calls st) e)).
Proof. intros H. unfold after_evict. cbn. by eapply heap_insert_lookup. Qed.

Lemma after_evict_settles resmgr entry e st :
  heap st !! entry = Some e →
  evictable st entry →
  settled (after_evict resmgr entry e st) (evict_calls resmgr (calls st) e)
          entry.
Proof.
  intros He (e0 & He0 & Hph). assert (e0 = e) as -> by congruence.
  eexists. split; [by apply after_evict_same|]. cbn.
  destruct (evicted_phandle resmgr (calls st) e) as [H0|[Heq Hfail]]; [by left|].
  rewrite Heq. destruct Hph as [H0|Hty]; [by left|].
  right. destruct (Hfail Hty) as (rc & ctx & Hrc & ->).
  exists rc, ctx. split; [done|]. by left.
Qed.

Lemma after_evict_evictable resmgr entry e st a :
  heap st !! entry = Some e →
  evictable st a → evictable (after_evict resmgr entry e st) a.
Proof.
  intros He (e0 & He0 & Hph). destruct (decide (a = entry)) as [->|Hne].
  - assert (e0 = e) as -> by congruence.
    eexists. split; [by apply after_evict_same|]. cbn.
    destruct (evicted_phandle resmgr (calls st) e) as [H0|[Heq _]];
      [by left|by rewrite Heq].
  - exists e0. by rewrite after_evict_other.
Qed.

Lemma after_evict_settled resmgr entry e st a evs0 :
  heap st !! entry = Some e →
  evictable st a → settled st evs0 a →
  settled (after_evict resmgr entry e st)
          (evict_calls resmgr (calls st) e ++ evs0) a.
Proof.
  intros He Hev Hs. destruct (decide (a = entry)) as [->|Hne].
  - apply settled_mono_l. by apply after_evict_settles.
  - apply settled_mono. destruct Hs as (e0 & He0 & Hs).
    exists e0. by rewrite after_evict_other.
Qed.

Lemma evict_post_refl entries st : evict_post entries [] st st.
Proof.
  unfold evict_post. split_and!; try done.
  exists []. split_and!; try done.
  intros i a Hi. by apply elem_of_nil in Hi.
Qed.

(** The final loop of [resource_manager_process_tpm2_command] ends
    normally when it visits initialised cells only, and establishes
    [evict_post]. *)
Lemma flushsave_contexts_post resmgr entries slots :
  ∀ st,
  (∀ i, i ∈ slots → cell_init st entries i) →
  ∃ st', flushsave_contexts resmgr entries slots st = Done tt st' ∧
         evict_post entries slots st st'.
Proof.
  induction slots as [|i slots IH]; intros st Hinit.
  - exists st. split; [reflexivity|]. apply evict_post_refl.
  - destruct (Hinit i) as (entry & Hcell & Hlt); [by left|].
    destruct (lookup_lt_is_Some_2 _ _ Hlt) as [e He].
    cbn [flushsave_contexts]. rewrite Hcell.
    pose proof (evict_step_eq resmgr entry e st He) as Hstep.
    munfold.
    destruct (resource_manager_flushsave_context resmgr (Some entry) st)
      as [rc st0| |] eqn:Hfs; try discriminate Hstep.
    destruct (g_object_unref_ptr (Some entry) st0) as [[] st1| |] eqn:Hun;
      try discriminate Hstep.
    injection Hstep as ->.
    destruct (IH (after_evict resmgr entry e st)) as (st' & Hloop & Hpost).
    { intros j Hj. destruct (Hinit j) as (a & Ha & Hlta); [by right|].
      exists a. split; [done|]. unfold after_evict. cbn.
      by rewrite length_insert. }
    rewrite Hloop. exists st'. split; [reflexivity|].
    destruct Hpost as (B1 & B2 & B3 & B4 & evs & B5 & B6 & B7 & B8 & B9).
    unfold evict_post. split_and!; try done.
    { rewrite B4. unfold after_evict. cbn. by rewrite length_insert. }
    exists (evs ++ evict_calls resmgr (calls st) e).
    split_and!.
    + rewrite B5. unfold after_evict. cbn. by rewrite app_assoc.
    + apply Forall_app. split; [done|]. apply evict_calls_saveflush.
    + intros a Ha. apply B7. by apply after_evict_evictable.
    + intros a evs0 Ha Hs. rewrite <- app_assoc. apply B8.
      * by apply after_evict_evictable.
      * by apply after_evict_settled.
    + intros j a Hj Hcellj Ha. apply elem_of_cons in Hj as [->|Hj].
      * assert (a = entry) as -> by congruence.
        apply B8; [by apply after_evict_evictable|].
        by apply after_evict_settles.
      * apply settled_mono_l. eapply B9; [done..|].
        by apply after_evict_evictable.
Qed.

(** ** The pipeline of a command *)

(** The first stage of the default branch: the contexts are loaded when the
    command has handles. *)
Lemma load_stage_post resmgr command st :
  (cmd_handle_count command ≤ 3)%nat →
  entries_valid st (cmd_connection command) →
  ∃ cmd1 entries1 n1 st1,
    (if bool_decide (0 < tpm2_command_get_handle_count command)%nat
     then
       '(_, command, entries, entry_count) ←
         resource_manager_load_contexts resmgr command
           (replicate ENTRY_COUNT Unwritten) (ENTRY_COUNT - 1);
       mret (command, entries, entry_count)
     else mret (command, replicate ENTRY_COUNT Unwritten, 0%nat)) st
    = Done (cmd1, entries1, n1) st1 ∧
    (∃ rc1, resource_manager_load_contexts resmgr command
              (replicate ENTRY_COUNT Unwritten) (ENTRY_COUNT - 1) st
            = Done (rc1, cmd1, entries1, n1) st1) ∧
    load_post resmgr (cmd_connection command)
      (tpm2_command_get_handles command [0; 0; 0] (cmd_handle_count command))
      (seq 0 (cmd_handle_count command))
      (replicate ENTRY_COUNT Unwritten) 0 st entries1 n1 st1.
Proof.
  intros H3 Hv. unfold tpm2_command_get_handle_count.
  case_bool_decide as Hhc.
  - destruct (load_contexts_post resmgr command (replicate ENTRY_COUNT Unwritten)
                (ENTRY_COUNT - 1) st)
      as (rc' & cmd' & entries' & n' & st' & Heq & Hpost);
      [done | cbn; lia | cbn; lia | done |].
    munfold. rewrite Heq. exists cmd', entries', n', st'. eauto.
  - assert (cmd_handle_count command = 0%nat) as Hz by lia.
    unfold resource_manager_load_contexts, tpm2_command_get_handle_count.
    rewrite Hz. cbn [seq load_contexts_loop].
    do 4 eexists. split; [reflexivity|]. split; [eexists; reflexivity|].
    apply load_post_refl.
Qed.

(** The transformation of the response, for any response.  Either the
    response carries a transient handle and the allocator of its
    connection has rolled over, and the process is terminated; or the
    array is written at [n] at most, and an entry counted at [n] is new
    and holds a transient physical handle. *)
Lemma process_response_handle_post response entries n st :
  (n < length entries)%nat →
  (∃ st',
      process_response_handle response entries n st = Abort st' ∧
      sink st' = sink st ∧
      rolled_over st (rsp_connection response))
  ∨ (∃ response' entries' n' st',
      process_response_handle response entries n st =
        Done (response', entries', n') st' ∧
      length entries' = length entries ∧
      (n ≤ n' ≤ S n)%nat ∧
      sink st' = sink st ∧ in_queue st' = in_queue st ∧
      calls st' = calls st ∧
      (length (heap st) ≤ length (heap st'))%nat ∧
      (∀ a e, heap st !! a = Some e → heap st' !! a = Some e) ∧
      (∀ j, (j < n)%nat → entries' !! j = entries !! j) ∧
      (n' = S n → cell_init st' entries' n ∧ cell_loaded st' entries' n) ∧
      (rsp_has_handle response = false → response' = response)).
Proof.
  intros Hn. unfold process_response_handle, tpm2_response_has_handle.
  destruct (rsp_has_handle response).
  - destruct (decide (handle_type (rsp_handle response) = TPM_HT_TRANSIENT))
      as [Hty|Hty].
    + destruct (decide (handle_type (next_vhandle
                  (trans_map st (rsp_connection response))) = TPM_HT_TRANSIENT))
        as [Hnext|Hnext].
      * right.
        destruct (virtualize_handle_transient response st Hty Hnext)
          as (st' & Heq & Hpost).
        munfold. rewrite Heq. rewrite bool_decide_eq_true_2 by done.
        destruct Hpost as ((rcnt & Hheap & _) & _ & _ & _ & _ & Hsink & Hq
                           & Hcalls).
        do 4 eexists. split; [reflexivity|].
        rewrite length_insert, Hheap, length_app. cbn [length].
        split_and!; try done; try lia.
        -- intros a e He. by apply lookup_app_l_Some.
        -- intros j Hj. by rewrite list_lookup_insert_ne by lia.
        -- intros _. split.
           ++ eexists. rewrite list_lookup_insert_eq by done. split; [done|].
              rewrite Hheap, length_app. cbn [length]. lia.
           ++ eexists _, _. rewrite list_lookup_insert_eq by done.
              split; [done|]. split.
              ** rewrite Hheap, lookup_app_r, Nat.sub_diag by lia. reflexivity.
              ** exact Hty.
      * left.
        destruct (virtualize_handle_rollover response st Hty Hnext)
          as (st' & Heq & Hsink).
        munfold. rewrite Heq. by exists st'.
    + right. munfold. rewrite virtualize_handle_other by done.
      rewrite bool_decide_eq_true_2 by done.
      do 4 eexists. split; [reflexivity|].
      rewrite length_insert. split_and!; try done; try lia.
      intros j Hj. by rewrite list_lookup_insert_ne by lia.
  - right. do 4 eexists. split; [reflexivity|]. split_and!; try done; lia.
Qed.

(** The default branch of the [switch]: the contexts are loaded, the
    command is sent, and the response is transformed unless the allocator
    of virtual handles has rolled over. *)
Lemma process_command_switch_default resmgr command st :
  cmd_code command ≠ TPM_CC_FlushContext →
  (cmd_handle_count command ≤ 3)%nat →
  entries_valid st (cmd_connection command) →
  ∃ loads cmd',
    load_facts resmgr command st loads cmd' ∧
    ((∃ st' c,
        process_command_switch resmgr command (replicate ENTRY_COUNT Unwritten)
          (ENTRY_COUNT - 1) st = Abort st' ∧
        sink st' = sink st ∧ rolled_over st c)
     ∨ (∃ response entries n st1,
          process_command_switch resmgr command (replicate ENTRY_COUNT Unwritten)
            (ENTRY_COUNT - 1) st = Done (Some response, entries, n) st1 ∧
          switch_post resmgr command st loads cmd' response entries n st1)).
Proof.
  intros Hcode H3 Hv.
  unfold process_command_switch, tpm2_command_get_code.
  destruct (Z.eqb_spec (cmd_code command) TPM_CC_FlushContext) as [|_]; [done|].
  destruct (load_stage_post resmgr command st H3 Hv)
    as (cmd1 & entries1 & n1 & st1 & Hload & (rc1 & Hlc) & Hpost).
  destruct Hpost as (A1 & A2 & A3 & A4 & A5 & (loads & A6 & A7 & A8 & A9)
                     & A10 & A11).
  cbn [Nat.add] in A9. subst n1.
  assert (count_ok loads ≤ cmd_handle_count command)%nat as Hcount.
  { pose proof (count_ok_le loads).
    pose proof (count_present_le st (cmd_connection command)
      (tpm2_command_get_handles command [0; 0; 0] (cmd_handle_count command))
      (seq 0 (cmd_handle_count command))) as Hp.
    rewrite length_seq in Hp. lia. }
  exists loads, cmd1. split.
  { exists rc1, entries1, st1. by split_and!. }
  munfold. rewrite Hload.
  unfold access_broker_send_command, switch_post. rewrite A6.
  destruct (ab_send_command (access_broker resmgr) (loads ++ calls st) cmd1)
    as [sent_response sent_rc] eqn:Hsent.
  cbn [fst snd].
  set (st2 := set_calls _ st1).
  set (response0 := match sent_response with
                    | Some r => r
                    | None => tpm2_response_new_rc
                                (tpm2_command_get_connection command) sent_rc
                    end).
  destruct (process_response_handle_post response0 entries1
              (count_ok loads) st2)
    as [(st' & Habort & Hsink & Hroll)
       |(response & entries2 & n2 & st3 & Hresp & B1 & B2 & B3 & B4 & B5 & B6
         & B7 & B8 & B9 & B10)].
  { rewrite A5. cbn. lia. }
  - left. rewrite Habort. exists st', (rsp_connection response0).
    split; [done|]. split; [by rewrite Hsink, <- A2|].
    unfold rolled_over, st2 in *. cbn in Hroll. by rewrite <- A1.
  - right.
    assert (∀ j, (j < count_ok loads)%nat → cell_init st1 entries1 j)
      as Hinit1.
    { apply A10. intros j Hj. lia. }
    rewrite Hresp.
    exists response, entries2, n2, st3. split; [reflexivity|].
    split_and!.
    + by rewrite B1, A5.
    + lia.
    + lia.
    + intros j Hj. destruct (decide (j < count_ok loads)%nat) as [Hlt|Hge].
      * destruct (Hinit1 j Hlt) as (a & Ha & Hlta). exists a.
        rewrite B8 by done. split; [done|]. unfold st2 in B6. cbn in B6. lia.
      * assert (j = count_ok loads) as -> by lia.
        apply B9. lia.
    + intros Hb j Hj. destruct (decide (j < count_ok loads)%nat) as [Hlt|Hge].
      * destruct (A11 Hb (fun j Hj => ltac:(lia)) j Hlt)
          as (a & e & Ha & He & Hty).
        exists a, e. rewrite B8 by done. split; [done|]. split; [|done].
        apply B7. exact He.
      * assert (j = count_ok loads) as -> by lia.
        apply B9. lia.
    + by rewrite B5.
    + intros ->. apply B10. reflexivity.
    + by rewrite B3, <- A2.
    + by rewrite B4, <- A3.
Qed.

(** A command of another code than FlushContext that passes the quota
    gate: the [switch], then the response on the sink, then the final
    loop over the first [n] cells of [entries]; or the process is
    terminated in the [switch]. *)
Lemma process_default resmgr command st :
  cmd_code command ≠ TPM_CC_FlushContext →
  (cmd_handle_count command ≤ 3)%nat →
  entries_valid st (cmd_connection command) →
  resource_manager_is_over_object_quota command st = Done false st →
  ∃ loads cmd',
    load_facts resmgr command st loads cmd' ∧
    ((∃ st' c,
        resource_manager_process_tpm2_command resmgr command st = Abort st' ∧
        sink st' = sink st ∧ rolled_over st c)
     ∨ (∃ response entries n st1 st',
          process_command_switch resmgr command (replicate ENTRY_COUNT Unwritten)
            (ENTRY_COUNT - 1) st = Done (Some response, entries, n) st1 ∧
          switch_post resmgr command st loads cmd' response entries n st1 ∧
          resource_manager_process_tpm2_command resmgr command st
            = Done tt st' ∧
          flushsave_contexts resmgr entries (seq 0 n)
            (set_sink (sink st1 ++ [Some response]) st1) = Done tt st' ∧
          evict_post entries (seq 0 n)
            (set_sink (sink st1 ++ [Some response]) st1) st')).
Proof.
  intros Hcode H3 Hv Hq.
  destruct (process_command_switch_default resmgr command st)
    as (loads & cmd' & Hfacts
        & [(st' & c & Hsw & Hsink & Hroll)
          |(response & entries & n & st1 & Hsw & Hpost)]); [done..| |];
    exists loads, cmd'; (split; [done|]).
  - left. exists st', c. split; [|done].
    unfold resource_manager_process_tpm2_command. munfold.
    by rewrite Hq, Hsw.
  - right. pose proof Hpost as (_ & _ & Hinit & _).
    destruct (flushsave_contexts_post resmgr entries (seq 0 n)
                (set_sink (sink st1 ++ [Some response]) st1))
      as (st' & Hloop & Hev).
    { intros i Hi%elem_of_seq. destruct (Hinit i) as (a & Ha & Hlt); [lia|].
      by exists a. }
    exists response, entries, n, st1, st'. split_and!; try done.
    unfold resource_manager_process_tpm2_command. munfold.
    rewrite Hq, Hsw. unfold sink_enqueue. munfold. exact Hloop.
Qed.

(** ** The sample states and brokers *)

Lemma st_one_entries_valid : entries_valid st_one 0%nat.
Proof.
  intros vh entry H. unfold st_one, sample_map in *.
  cbn [trans_map heap] in *. rewrite fn_lookup_insert in H.
  cbn [table] in H. apply lookup_singleton_Some in H as [_ <-]. cbn. lia.
Qed.

Lemma st_stale_entries_valid : entries_valid st_stale 0%nat.
Proof.
  intros vh entry H. unfold st_stale, sample_map in *.
  cbn [trans_map heap] in *. rewrite fn_lookup_insert in H.
  cbn [table] in H. apply lookup_singleton_Some in H as [_ <-]. cbn. lia.
Qed.

Lemma broker_ok_loads_transient : loads_transient broker_ok.
Proof. intros hist ctx _. reflexivity. Qed.

(** ** Scenarios *)

(** CreatePrimary on a fresh connection: the response carries the first
    virtual handle, the new entry is bound to it, and after the command
    the context is saved and the physical handle cleared. *)
Example scenario_create_primary :
  ∃ st',
    final_state (resource_manager_process_tpm2_command (mkResmgr broker_ok)
                   cmd_create_primary st_empty) = Some st' ∧
    sink st' = [Some (tpm2_response_set_handle
                        (sample_response cmd_create_primary) 0x80000000)] ∧
    heap st' = [mkEntry 0x80000000 0 [1; 2; 3] 1] ∧
    table (trans_map st' 0%nat) !! 0x80000000 = Some 0%nat ∧
    calls st' =
      [CallContextSaveFlush 0x80FFFFFE TSS2_RC_SUCCESS [1; 2; 3];
       CallSendCommand cmd_create_primary
         (Some (sample_response cmd_create_primary)) TSS2_RC_SUCCESS].
Proof.
  eexists. split_and!; [vm_compute; reflexivity | reflexivity | reflexivity
                        | vm_compute; reflexivity | reflexivity].
Qed.

(** A command on the object created: the context is loaded, the broker
    receives the physical handle, and the entry is evicted again. *)
Example scenario_use_object :
  ∃ st',
    final_state (resource_manager_process_tpm2_command (mkResmgr broker_ok)
                   cmd_read_public st_one) = Some st' ∧
    sink st' = [Some (sample_response cmd_read_public)] ∧
    heap st' = [mkEntry 0x80000000 0 [1; 2; 3] 1] ∧
    calls st' =
      [CallContextSaveFlush 0x80FFFFFF TSS2_RC_SUCCESS [1; 2; 3];
       CallSendCommand (tpm2_command_set_handle cmd_read_public 0x80FFFFFF 0)
         (Some (sample_response cmd_read_public)) TSS2_RC_SUCCESS;
       CallContextLoad [7; 7] TSS2_RC_SUCCESS 0x80FFFFFF].
Proof.
  eexists. split_and!; [vm_compute; reflexivity | reflexivity..].
Qed.

(** * Main results *)

(** ** Load failure during command rewriting *)

(** C1, on the code: [context_load] fails for the entry of the only handle
    of a ReadPublic command.  The command is not aborted: it is sent to
    the broker with the virtual handle still in its handle area, and the
    response enqueued on the sink is the broker's answer to that command,
    not a synthesized response carrying the load error. *)
Lemma load_failure_does_not_abort_command :
  ∃ st',
    final_state (resource_manager_process_tpm2_command
                   (mkResmgr broker_load_fails) cmd_read_public st_one)
      = Some st' ∧
    calls st' =
      [CallSendCommand cmd_read_public
         (Some (sample_response cmd_read_public)) TSS2_RC_SUCCESS;
       CallContextLoad [7; 7] TPM_RC_OBJECT_MEMORY 0] ∧
    sink st' = [Some (sample_response cmd_read_public)] ∧
    sink st' ≠ [Some (tpm2_response_new_rc 0%nat TPM_RC_OBJECT_MEMORY)].
Proof.
  eexists. split_and!; [vm_compute; reflexivity | reflexivity | reflexivity |].
  cbn. discriminate.
Qed.

(** ** Loads and the physical handle of an entry *)

(** C2 (as amended): during command rewriting [context_load] is called
    once for every transient handle slot whose map entry is present,
    whatever the physical handle of the entry, and a successful load
    overwrites that physical handle.  For one slot: the body of the loop
    calls [context_load] on the saved context of the entry, with no
    condition on [phandle e].  For the command: the number of loads is the
    number of transient slots whose entry is present. *)
Theorem load_contexts_loads_every_present_slot resmgr :
  (∀ c handles i rc cmd entries n st h entry e,
     handles !! i = Some h →
     handle_type h = TPM_HT_TRANSIENT →
     table (trans_map st c) !! h = Some entry →
     heap st !! entry = Some e →
     (n < length entries)%nat →
     let r := ab_context_load (access_broker resmgr) (calls st) (context e) in
     ∃ acc' st',
       load_contexts_body resmgr c handles i (rc, cmd, entries, n) st
         = Done acc' st' ∧
       calls st' = CallContextLoad (context e) r.1 r.2 :: calls st ∧
       (r.1 = TSS2_RC_SUCCESS →
        ∃ e', heap st' !! entry = Some e' ∧ phandle e' = r.2))
  ∧ (∀ command entries entry_count st,
       (cmd_handle_count command ≤ 3)%nat →
       (cmd_handle_count command ≤ entry_count)%nat →
       (cmd_handle_count command ≤ length entries)%nat →
       entries_valid st (cmd_connection command) →
       ∃ rc' cmd' entries' n' st' loads,
         resource_manager_load_contexts resmgr command entries entry_count st
           = Done (rc', cmd', entries', n') st' ∧
         calls st' = loads ++ calls st ∧
         Forall (fun call => is_load call = true) loads ∧
         length loads =
           count_present st (cmd_connection command)
             (tpm2_command_get_handles command [0; 0; 0]
                (cmd_handle_count command))
             (seq 0 (cmd_handle_count command))).
Proof.
  split.
  - intros c handles i rc cmd entries n st h entry e Hh Hty Ht He Hn r.
    rewrite (load_contexts_body_present _ _ _ _ _ _ _ _ _ _ _ _ Hh Hty Ht He).
    cbn zeta. fold r.
    destruct (after_load_frame resmgr entry e st) as (_ & _ & _ & _ & Hcalls).
    destruct (Z.eqb_spec r.1 TSS2_RC_SUCCESS) as [Hrc|Hrc].
    + rewrite bool_decide_eq_true_2 by done.
      eexists _, _. split; [reflexivity|]. split; [exact Hcalls|].
      intros _. unfold after_load. fold r. cbn [heap set_heap].
      eexists. split; [by eapply heap_insert_lookup|].
      apply Z.eqb_eq in Hrc. by rewrite Hrc.
    + eexists _, _. split; [reflexivity|]. split; [exact Hcalls|]. done.
  - intros command entries entry_count st H3 Hec Hlen Hv.
    destruct (load_contexts_post resmgr command entries entry_count st)
      as (rc' & cmd' & entries' & n' & st' & Heq & Hpost); [done..|].
    destruct Hpost as (_ & _ & _ & _ & _ & (loads & Hc & Hf & Hl & _) & _).
    by exists rc', cmd', entries', n', st', loads.
Qed.

Lemma load_contexts_loads_every_present_slot_witness :
  (∃ acc' st',
     load_contexts_body (mkResmgr broker_ok) 0%nat [0x80000000; 0; 0] 0
       (TSS2_RC_SUCCESS, cmd_read_public, replicate ENTRY_COUNT Unwritten,
        0%nat) st_stale = Done acc' st' ∧
     calls st' =
       CallContextLoad [7; 7] TSS2_RC_SUCCESS 0x80FFFFFF :: calls st_stale ∧
     (TSS2_RC_SUCCESS = TSS2_RC_SUCCESS →
      ∃ e', heap st' !! 0%nat = Some e' ∧ phandle e' = 0x80FFFFFF))
  ∧ ∃ rc' cmd' entries' n' st' loads,
      resource_manager_load_contexts (mkResmgr broker_ok) cmd_read_public
        (replicate ENTRY_COUNT Unwritten) 3 st_stale =
        Done (rc', cmd', entries', n') st' ∧
      calls st' = loads ++ calls st_stale ∧
      Forall (fun call => is_load call = true) loads ∧
      length loads = 1%nat.
Proof.
  split.
  - apply (proj1 (load_contexts_loads_every_present_slot (mkResmgr broker_ok))
             0%nat [0x80000000; 0; 0] 0%nat TSS2_RC_SUCCESS cmd_read_public
             (replicate ENTRY_COUNT Unwritten) 0%nat st_stale 0x80000000
             0%nat (mkEntry 0x80000000 0x80FFFFFD [7; 7] 1)).
    + reflexivity.
    + reflexivity.
    + vm_compute. reflexivity.
    + reflexivity.
    + cbn. lia.
  - apply (proj2 (load_contexts_loads_every_present_slot (mkResmgr broker_ok))
             cmd_read_public (replicate ENTRY_COUNT Unwritten) 3%nat st_stale).
    + cbn. lia.
    + cbn. lia.
    + cbn. lia.
    + apply st_stale_entries_valid.
Defined.

(** C2 fails as stated: the entry of virtual handle [0x80000000] still
    carries the physical handle [0x80FFFFFD], and command rewriting loads
    its context all the same. *)
Lemma load_contexts_reloads_entry_with_phandle :
  ∃ e st',
    table (trans_map st_stale 0%nat) !! 0x80000000 = Some 0%nat ∧
    heap st_stale !! 0%nat = Some e ∧
    phandle e ≠ 0 ∧
    final_state (resource_manager_load_contexts (mkResmgr broker_ok)
                   cmd_read_public (replicate ENTRY_COUNT Unwritten) 3 st_stale)
      = Some st' ∧
    calls st' = [CallContextLoad [7; 7] TSS2_RC_SUCCESS 0x80FFFFFF] ∧
    heap st' !! 0%nat = Some (mkEntry 0x80000000 0x80FFFFFF [7; 7] 2).
Proof.
  eexists _, _. split_and!; [vm_compute; reflexivity | reflexivity | |
    vm_compute; reflexivity | reflexivity | reflexivity].
  cbn. discriminate.
Qed.

(** ** The quota gate *)

(** C3: a CreatePrimary, Load or LoadExternal command that arrives while
    the transient map of its connection is full is answered by a
    synthesized response carrying [TSS2_RESMGR_RC_OBJECT_MEMORY]: the
    response is enqueued on the sink and nothing else changes (the broker
    is not called, no map and no entry is modified).  A command of any
    other code is never rejected by the gate. *)
Theorem quota_gate_rejects_object_creating_when_full resmgr command st :
  (object_creating (cmd_code command) →
   map_is_full (trans_map st (cmd_connection command)) = true →
   resource_manager_process_tpm2_command resmgr command st =
   Done tt (set_sink (sink st ++
                      [Some (tpm2_response_new_rc (cmd_connection command)
                                           TSS2_RESMGR_RC_OBJECT_MEMORY)]) st))
  ∧ (¬ object_creating (cmd_code command) →
     resource_manager_is_over_object_quota command st = Done false st).
Proof.
  split.
  - intros Hc Hf. apply process_over_quota.
    by rewrite is_over_object_quota_eq, Hf, bool_decide_eq_true_2.
  - intros Hc. rewrite is_over_object_quota_eq.
    by rewrite bool_decide_eq_false_2 by done.
Qed.

Lemma quota_gate_rejects_object_creating_when_full_witness :
  resource_manager_process_tpm2_command (mkResmgr broker_ok)
    cmd_create_primary st_full =
  Done tt (set_sink [Some (tpm2_response_new_rc 0%nat
                             TSS2_RESMGR_RC_OBJECT_MEMORY)] st_full)
  ∧ resource_manager_is_over_object_quota cmd_read_public st_full =
    Done false st_full.
Proof.
  split.
  - apply (proj1 (quota_gate_rejects_object_creating_when_full
                    (mkResmgr broker_ok) cmd_create_primary st_full)).
    + left. reflexivity.
    + vm_compute. reflexivity.
  - apply (proj2 (quota_gate_rejects_object_creating_when_full
                    (mkResmgr broker_ok) cmd_read_public st_full)).
    intros [H|[H|H]]; discriminate H.
Defined.

(** ** FlushContext *)

(** C4: FlushContext of a transient handle bound in the transient map of
    the connection removes the binding, releases the entry (the reference
    of the map and the one borrowed for the lookup are dropped), enqueues a
    synthesized success response and does not call the access broker. *)
Theorem flush_context_managed_handle resmgr command st entry e :
  cmd_code command = TPM_CC_FlushContext →
  handle_type (cmd_flush_handle command) = TPM_HT_TRANSIENT →
  table (trans_map st (cmd_connection command)) !! cmd_flush_handle command
    = Some entry →
  heap st !! entry = Some e →
  ∃ st',
    resource_manager_process_tpm2_command resmgr command st = Done tt st' ∧
    trans_map st' (cmd_connection command) =
      map_remove (cmd_flush_handle command)
                 (trans_map st (cmd_connection command)) ∧
    table (trans_map st' (cmd_connection command))
      !! cmd_flush_handle command = None ∧
    (∀ c, c ≠ cmd_connection command → trans_map st' c = trans_map st c) ∧
    heap st' = <[entry := with_refcount (Nat.pred (refcount e)) e]> (heap st) ∧
    sink st' = sink st ++ [Some (tpm2_response_new_rc (cmd_connection command)
                                                      TSS2_RC_SUCCESS)] ∧
    calls st' = calls st.
Proof.
  intros Hcode Hty Ht He.
  rewrite process_flush_eq, (flush_context_managed _ _ _ _ _ Hcode Hty Ht He)
    by done.
  eexists. split; [reflexivity|]. cbn.
  split_and!; try done.
  - by rewrite fn_lookup_insert.
  - rewrite fn_lookup_insert. cbn. apply lookup_delete_eq.
  - intros c Hc. by rewrite fn_lookup_insert_ne.
Qed.

Lemma flush_context_managed_handle_witness :
  ∃ st',
    resource_manager_process_tpm2_command (mkResmgr broker_ok)
      (cmd_flush 0x80000000) st_one = Done tt st' ∧
    trans_map st' 0%nat = map_remove 0x80000000 (trans_map st_one 0%nat) ∧
    table (trans_map st' 0%nat) !! 0x80000000 = None ∧
    (∀ c, c ≠ 0%nat → trans_map st' c = trans_map st_one c) ∧
    heap st' = [mkEntry 0x80000000 0 [7; 7] 0%nat] ∧
    sink st' = [Some (tpm2_response_new_rc 0%nat TSS2_RC_SUCCESS)] ∧
    calls st' = [].
Proof.
  apply (flush_context_managed_handle (mkResmgr broker_ok)
           (cmd_flush 0x80000000) st_one 0%nat
           (mkEntry 0x80000000 0 [7; 7] 1%nat));
    vm_compute; reflexivity.
Defined.

(** C5: FlushContext of a transient handle that is not bound in the
    transient map of the connection enqueues a synthesized response whose
    code is the resource manager error level combined with
    [TPM_RC_HANDLE + TPM_RC_P + TPM_RC_1]; nothing else changes: the maps
    and the entries are as before and the access broker is not called. *)
Theorem flush_context_unknown_transient resmgr command st :
  cmd_code command = TPM_CC_FlushContext →
  handle_type (cmd_flush_handle command) = TPM_HT_TRANSIENT →
  table (trans_map st (cmd_connection command)) !! cmd_flush_handle command
    = None →
  resource_manager_process_tpm2_command resmgr command st =
  Done tt
    (set_sink
       (sink st ++
        [Some (tpm2_response_new_rc (cmd_connection command)
                 (RM_RC (TPM_RC_HANDLE + TPM_RC_P + TPM_RC_1)))]) st)
  ∧ RM_RC (TPM_RC_HANDLE + TPM_RC_P + TPM_RC_1) =
    TSS2_RESMGR_ERROR_LEVEL + (TPM_RC_HANDLE + TPM_RC_P + TPM_RC_1)
  ∧ RM_RC (TPM_RC_HANDLE + TPM_RC_P + TPM_RC_1) =
    Z.lor TSS2_RESMGR_ERROR_LEVEL
          (Z.lor TPM_RC_HANDLE (Z.lor TPM_RC_P TPM_RC_1)).
Proof.
  intros Hcode Hty Ht. split; [|split; reflexivity].
  by rewrite process_flush_eq, flush_context_unknown.
Qed.

Lemma flush_context_unknown_transient_witness :
  resource_manager_process_tpm2_command (mkResmgr broker_ok)
    (cmd_flush 0x80ABCDEF) st_one =
  Done tt (set_sink [Some (tpm2_response_new_rc 0%nat 0xB01CB)] st_one).
Proof.
  apply (flush_context_unknown_transient (mkResmgr broker_ok)
           (cmd_flush 0x80ABCDEF) st_one); vm_compute; reflexivity.
Defined.

(** C6: FlushContext of a handle whose type byte is not transient is sent
    to the access broker as it is, and what the broker returns is enqueued
    on the sink as it is; no map and no entry is modified. *)
Theorem flush_context_unmanaged_passthrough resmgr command st :
  cmd_code command = TPM_CC_FlushContext →
  handle_type (cmd_flush_handle command) ≠ TPM_HT_TRANSIENT →
  ∃ st',
    resource_manager_process_tpm2_command resmgr command st = Done tt st' ∧
    calls st' =
      CallSendCommand command
        (ab_send_command (access_broker resmgr) (calls st) command).1
        (ab_send_command (access_broker resmgr) (calls st) command).2
      :: calls st ∧
    sink st' =
      sink st ++ [(ab_send_command (access_broker resmgr) (calls st) command).1] ∧
    trans_map st' = trans_map st ∧
    heap st' = heap st.
Proof.
  intros Hcode Hty.
  rewrite process_flush_eq, flush_context_unmanaged by done.
  eexists. split; [reflexivity|]. done.
Qed.

Lemma flush_context_unmanaged_passthrough_witness :
  ∃ st',
    resource_manager_process_tpm2_command (mkResmgr broker_ok)
      (cmd_flush 0x03000000) st_one = Done tt st' ∧
    calls st' =
      [CallSendCommand (cmd_flush 0x03000000)
         (Some (sample_response (cmd_flush 0x03000000))) TSS2_RC_SUCCESS] ∧
    sink st' = [Some (sample_response (cmd_flush 0x03000000))] ∧
    trans_map st' = trans_map st_one ∧
    heap st' = heap st_one.
Proof.
  apply (flush_context_unmanaged_passthrough (mkResmgr broker_ok)
           (cmd_flush 0x03000000) st_one).
  - reflexivity.
  - vm_compute. discriminate.
Defined.

(** ** Virtualization of the response *)

(** C7: the response is virtualized iff it reports a handle and the type
    byte of that handle is transient.  Then the virtual handle is the next
    one of the transient map of the connection (a transient handle, not yet
    bound), a new entry holding the physical and the virtual handle is
    created and bound to the virtual handle, the handle of the response is
    overwritten with the virtual handle, and the entry is appended to the
    touched entries.  Otherwise the response is not rewritten, the state is
    unchanged and no entry is appended. *)
Theorem response_virtualized_iff_transient_handle response entries n st :
  let c := rsp_connection response in
  let m := trans_map st c in
  let vh := next_vhandle m in
  (n < length entries)%nat →
  handle_type vh = TPM_HT_TRANSIENT →
  next_vhandle_fresh m →
  if rsp_has_handle response
     && (handle_type (rsp_handle response) =? TPM_HT_TRANSIENT)
  then
    ∃ st',
      process_response_handle response entries n st =
        Done (tpm2_response_set_handle response vh,
              <[n := Ptr (Some (length (heap st)))]> entries, S n) st' ∧
      table m !! vh = None ∧
      heap st' = heap st ++ [mkEntry vh (rsp_handle response) [] 2] ∧
      table (trans_map st' c) = <[vh := length (heap st)]> (table m) ∧
      next_vhandle (trans_map st' c) = vh + 1 ∧
      capacity (trans_map st' c) = capacity m ∧
      (∀ c', c' ≠ c → trans_map st' c' = trans_map st c') ∧
      sink st' = sink st ∧ calls st' = calls st
  else
    ∃ entries',
      process_response_handle response entries n st =
        Done (response, entries', n) st ∧
      ∀ j, (j < n)%nat → entries' !! j = entries !! j.
Proof.
  intros c m vh Hn Hvh Hfresh. unfold process_response_handle,
    tpm2_response_has_handle.
  destruct (rsp_has_handle response); cbn [andb].
  - destruct (Z.eqb_spec (handle_type (rsp_handle response)) TPM_HT_TRANSIENT)
      as [Hty|Hty].
    + destruct (virtualize_handle_transient response st Hty Hvh)
        as (st' & Heq & Hpost).
      munfold. rewrite Heq. rewrite bool_decide_eq_true_2 by done.
      destruct Hpost as ((rcnt & Hheap & Hr) & Hnext & Hcap & Htab & Hoth
                         & Hsink & _ & Hcalls).
      exists st'. split; [reflexivity|].
      rewrite (Hr Hfresh) in Hheap. split_and!; auto.
    + munfold. rewrite virtualize_handle_other by done.
      rewrite bool_decide_eq_true_2 by done.
      eexists. split; [reflexivity|].
      intros j Hj. by rewrite list_lookup_insert_ne by lia.
  - eexists. split; [reflexivity|]. done.
Qed.

Lemma response_virtualized_iff_transient_handle_witness :
  ∃ st',
    process_response_handle (sample_response cmd_create_primary)
      (replicate ENTRY_COUNT Unwritten) 0 st_one =
      Done (tpm2_response_set_handle (sample_response cmd_create_primary)
              0x80000001,
            [Ptr (Some 1%nat); Unwritten; Unwritten; Unwritten], 1%nat) st' ∧
    table (trans_map st_one 0%nat) !! 0x80000001 = None ∧
    heap st' = heap st_one ++ [mkEntry 0x80000001 0x80FFFFFE [] 2] ∧
    table (trans_map st' 0%nat) =
      <[0x80000001 := 1%nat]> (table (trans_map st_one 0%nat)) ∧
    next_vhandle (trans_map st' 0%nat) = 0x80000002 ∧
    capacity (trans_map st' 0%nat) = 27%nat ∧
    (∀ c', c' ≠ 0%nat → trans_map st' c' = trans_map st_one c') ∧
    sink st' = sink st_one ∧ calls st' = calls st_one.
Proof.
  apply (response_virtualized_iff_transient_handle
           (sample_response cmd_create_primary)
           (replicate ENTRY_COUNT Unwritten) 0 st_one).
  - cbn. lia.
  - reflexivity.
  - vm_compute. reflexivity.
Defined.

(** ** Eviction after the command *)

(** C8: for every entry, [resource_manager_flushsave_context] calls
    [context_saveflush] when the physical handle is transient and only
    then; when the call succeeds the context of the entry is the saved one
    and its physical handle is 0.  A command of another code than
    FlushContext is rejected by the quota gate, and then touches no entry;
    or it finds the allocator of virtual handles rolled over, and the
    process is terminated; or, whatever the broker answered to the
    command, the final loop runs over the touched entries, and when the
    command has completed every touched entry has a physical handle of 0,
    unless a saveflush of that handle has failed during the loop. *)
Theorem eviction_runs_over_touched_entries resmgr :
  (∀ entry e st,
     heap st !! entry = Some e →
     resource_manager_flushsave_context resmgr (Some entry) st =
     if handle_type (phandle e) =? TPM_HT_TRANSIENT
     then
       let r := ab_context_saveflush (access_broker resmgr) (calls st)
                                     (phandle e) (context e) in
       Done r.1
         (set_heap
            (<[entry := if r.1 =? TSS2_RC_SUCCESS
                        then with_phandle 0 (with_context r.2 e)
                        else with_context r.2 e]> (heap st))
            (set_calls (CallContextSaveFlush (phandle e) r.1 r.2 :: calls st)
                       st))
     else Done TSS2_RC_SUCCESS st)
  ∧ (∀ command st,
       cmd_code command ≠ TPM_CC_FlushContext →
       (cmd_handle_count command ≤ 3)%nat →
       entries_valid st (cmd_connection command) →
       loads_transient (access_broker resmgr) →
       (resource_manager_is_over_object_quota command st = Done true st ∧
        ∃ st',
          resource_manager_process_tpm2_command resmgr command st
            = Done tt st' ∧
          heap st' = heap st ∧ calls st' = calls st)
       ∨ (∃ st' c,
            resource_manager_process_tpm2_command resmgr command st
              = Abort st' ∧
            rolled_over st c)
       ∨ (∃ response entries n st1 st' evs,
            process_command_switch resmgr command
              (replicate ENTRY_COUNT Unwritten) (ENTRY_COUNT - 1) st
              = Done (Some response, entries, n) st1 ∧
            resource_manager_process_tpm2_command resmgr command st
              = Done tt st' ∧
            flushsave_contexts resmgr entries (seq 0 n)
              (set_sink (sink st1 ++ [Some response]) st1) = Done tt st' ∧
            calls st' = evs ++ calls st1 ∧
            Forall (fun call => is_saveflush call = true) evs ∧
            ∀ j, (j < n)%nat →
              ∃ entry e',
                entries !! j = Some (Ptr (Some entry)) ∧
                heap st' !! entry = Some e' ∧
                (phandle e' = 0 ∨
                 ∃ rc ctx, rc ≠ TSS2_RC_SUCCESS ∧
                           CallContextSaveFlush (phandle e') rc ctx ∈ evs))).
Proof.
  split.
  - intros entry e st He. rewrite (flushsave_context_eq _ _ _ _ He).
    unfold evicted. destruct (_ =? TPM_HT_TRANSIENT); reflexivity.
  - intros command st Hcode H3 Hv Hb.
    pose proof (is_over_object_quota_eq command st) as Hq.
    destruct (bool_decide (object_creating (cmd_code command))
              && map_is_full (trans_map st (cmd_connection command))).
    { left. split; [done|]. eexists. split; [by apply process_over_quota|].
      done. }
    right.
    destruct (process_default resmgr command st)
      as (loads & cmd' & _
          & [(st' & c & Hproc & _ & Hr)
            |(response & entries & n & st1 & st' & Hsw & Hpost & Hproc & Hloop
              & Hev)]); [done..| |].
    { left. by exists st', c. }
    right. destruct Hpost as (_ & _ & _ & Hloaded & _).
    destruct Hev as (_ & _ & _ & _ & evs & E1 & E2 & _ & _ & E5).
    exists response, entries, n, st1, st', evs. split_and!; try done.
    intros j Hj. destruct (Hloaded Hb j Hj) as (entry & e & Hcell & He & Hty).
    destruct (E5 j entry) as (e' & He' & Hs).
    + apply elem_of_seq. lia.
    + done.
    + exists e. cbn. split; [done|]. by right.
    + by exists entry, e'.
Qed.

Lemma eviction_runs_over_touched_entries_witness :
  resource_manager_flushsave_context (mkResmgr broker_ok) (Some 0%nat)
    st_stale =
    Done TSS2_RC_SUCCESS
      (set_heap [mkEntry 0x80000000 0 [1; 2; 3] 1]
         (set_calls [CallContextSaveFlush 0x80FFFFFD TSS2_RC_SUCCESS [1; 2; 3]]
                    st_stale))
  ∧ ((resource_manager_is_over_object_quota cmd_read_public st_one
        = Done true st_one ∧
      ∃ st',
        resource_manager_process_tpm2_command (mkResmgr broker_ok)
          cmd_read_public st_one = Done tt st' ∧
        heap st' = heap st_one ∧ calls st' = calls st_one)
     ∨ (∃ st' c,
          resource_manager_process_tpm2_command (mkResmgr broker_ok)
            cmd_read_public st_one = Abort st' ∧
          rolled_over st_one c)
     ∨ (∃ response entries n st1 st' evs,
          process_command_switch (mkResmgr broker_ok) cmd_read_public
            (replicate ENTRY_COUNT Unwritten) (ENTRY_COUNT - 1) st_one
            = Done (Some response, entries, n) st1 ∧
          resource_manager_process_tpm2_command (mkResmgr broker_ok)
            cmd_read_public st_one = Done tt st' ∧
          flushsave_contexts (mkResmgr broker_ok) entries (seq 0 n)
            (set_sink (sink st1 ++ [Some response]) st1) = Done tt st' ∧
          calls st' = evs ++ calls st1 ∧
          Forall (fun call => is_saveflush call = true) evs ∧
          ∀ j, (j < n)%nat →
            ∃ entry e',
              entries !! j = Some (Ptr (Some entry)) ∧
              heap st' !! entry = Some e' ∧
              (phandle e' = 0 ∨
               ∃ rc ctx, rc ≠ TSS2_RC_SUCCESS ∧
                         CallContextSaveFlush (phandle e') rc ctx ∈ evs))).
Proof.
  split.
  - apply (proj1 (eviction_runs_over_touched_entries (mkResmgr broker_ok))
             0%nat (mkEntry 0x80000000 0x80FFFFFD [7; 7] 1) st_stale).
    reflexivity.
  - apply (proj2 (eviction_runs_over_touched_entries (mkResmgr broker_ok))
             cmd_read_public st_one).
    + vm_compute. discriminate.
    + vm_compute. lia.
    + apply st_one_entries_valid.
    + apply broker_ok_loads_transient.
Defined.

(** ** One object on the sink per command *)




(** ** The array of touched entries *)

(** C10: a command of another code than FlushContext, with at most three
    handles, that passes the quota gate.  In the embedding every access to
    the array [entries] is checked: a write at an index of 4 or more, or a
    visit of a cell that was never written, has no defined outcome.
    [resource_manager_load_contexts] ends normally and sets the count to
    the number of successful loads, which is at most the handle count.
    Then either the allocator of virtual handles has rolled over and the
    process is terminated before the array is used again, or the command
    is processed to its end: the response adds at most one entry, the
    count is at most 4, and every cell below the count, which are the
    cells the final loop visits, holds a pointer to an entry. *)
Theorem touched_entries_stay_within_the_array resmgr command st :
  cmd_code command ≠ TPM_CC_FlushContext →
  (cmd_handle_count command ≤ 3)%nat →
  entries_valid st (cmd_connection command) →
  resource_manager_is_over_object_quota command st = Done false st →
  ∃ loads cmd',
    (∃ rc_l entries_l st_l,
        resource_manager_load_contexts resmgr command
          (replicate ENTRY_COUNT Unwritten) (ENTRY_COUNT - 1) st
        = Done (rc_l, cmd', entries_l, count_ok loads) st_l ∧
        calls st_l = loads ++ calls st ∧
        Forall (fun call => is_load call = true) loads ∧
        (count_ok loads ≤ cmd_handle_count command)%nat) ∧
    ((∃ st' c,
        resource_manager_process_tpm2_command resmgr command st = Abort st' ∧
        rolled_over st c)
     ∨ (∃ response entries n st1 st',
          process_command_switch resmgr command (replicate ENTRY_COUNT Unwritten)
            (ENTRY_COUNT - 1) st = Done (Some response, entries, n) st1 ∧
          length entries = ENTRY_COUNT ∧
          (count_ok loads ≤ n ≤ S (count_ok loads))%nat ∧
          (n ≤ ENTRY_COUNT)%nat ∧
          (∀ j, (j < n)%nat → cell_init st1 entries j) ∧
          flushsave_contexts resmgr entries (seq 0 n)
            (set_sink (sink st1 ++ [Some response]) st1) = Done tt st' ∧
          resource_manager_process_tpm2_command resmgr command st
            = Done tt st')).
Proof.
  intros Hcode H3 Hv Hq.
  destruct (process_default resmgr command st)
    as (loads & cmd' & Hfacts
        & [(st' & c & Hproc & _ & Hr)
          |(response & entries & n & st1 & st' & Hsw & Hpost & Hproc & Hloop
            & _)]); [done..| |];
    exists loads, cmd'; (split; [exact Hfacts|]).
  - left. by exists st', c.
  - right. pose proof Hfacts as (? & ? & ? & _ & _ & _ & Hcount).
    destruct Hpost as (P1 & P2 & P3 & _).
    exists response, entries, n, st1, st'.
    split_and!; try done; try lia.
    unfold ENTRY_COUNT. lia.
Qed.

Lemma touched_entries_stay_within_the_array_witness :
  ∃ loads cmd',
    (∃ rc_l entries_l st_l,
        resource_manager_load_contexts (mkResmgr broker_ok) cmd_read_public
          (replicate ENTRY_COUNT Unwritten) (ENTRY_COUNT - 1) st_one
        = Done (rc_l, cmd', entries_l, count_ok loads) st_l ∧
        calls st_l = loads ++ calls st_one ∧
        Forall (fun call => is_load call = true) loads ∧
        (count_ok loads ≤ cmd_handle_count cmd_read_public)%nat) ∧
    ((∃ st' c,
        resource_manager_process_tpm2_command (mkResmgr broker_ok)
          cmd_read_public st_one = Abort st' ∧
        rolled_over st_one c)
     ∨ (∃ response entries n st1 st',
          process_command_switch (mkResmgr broker_ok) cmd_read_public
            (replicate ENTRY_COUNT Unwritten) (ENTRY_COUNT - 1) st_one
            = Done (Some response, entries, n) st1 ∧
          length entries = ENTRY_COUNT ∧
          (count_ok loads ≤ n ≤ S (count_ok loads))%nat ∧
          (n ≤ ENTRY_COUNT)%nat ∧
          (∀ j, (j < n)%nat → cell_init st1 entries j) ∧
          flushsave_contexts (mkResmgr broker_ok) entries (seq 0 n)
            (set_sink (sink st1 ++ [Some response]) st1) = Done tt st' ∧
          resource_manager_process_tpm2_command (mkResmgr broker_ok)
            cmd_read_public st_one = Done tt st')).
Proof.
  apply (touched_entries_stay_within_the_array (mkResmgr broker_ok)
           cmd_read_public st_one).
  - vm_compute. discriminate.
  - vm_compute. lia.
  - apply st_one_entries_valid.
  - reflexivity.
Defined.

(** * Further properties *)

(** ** Relations kept by every step of a command *)

Section Respects.

Context {R : State → State → Prop} (HR : stable R).

Lemma respects_ret {A} (a : A) : respects R (mret a : M A).
Proof. intros st. apply (stable_refl R HR). Qed.

Lemma respects_bind {A B} (m : M A) (k : A → M B) :
  respects R m → (∀ a, respects R (k a)) → respects R (m ≫= k).
Proof.
  intros Hm Hk st. specialize (Hm st). munfold.
  destruct (m st) as [a st1| |]; [|done..].
  specialize (Hk a st1).
  destruct (k a st1); [|  |done]; by eapply (stable_trans R HR).
Qed.

Lemma respects_g_error {A} : respects R (g_error : M A).
Proof. intros st. apply (stable_refl R HR). Qed.

Lemma respects_undefined {A} : respects R (undefined : M A).
Proof. intros st. exact I. Qed.

Lemma respects_deref entry : respects R (deref entry).
Proof.
  intros st. unfold deref. destruct (heap st !! entry); [|done].
  apply (stable_refl R HR).
Qed.

Lemma respects_update_entry entry f :
  (∀ e, vhandle (f e) = vhandle e ∧ context (f e) = context e) →
  respects R (update_entry entry f).
Proof.
  intros Hf st. unfold update_entry. destruct (heap st !! entry) eqn:He; [|done].
  eapply (stable_entry R HR); [done|apply Hf..].
Qed.

Lemma respects_get_phandle entry : respects R (handle_map_entry_get_phandle entry).
Proof.
  apply respects_bind; [apply respects_deref|]. intros e. apply respects_ret.
Qed.

Lemma respects_set_phandle entry ph :
  respects R (handle_map_entry_set_phandle entry ph).
Proof. by apply respects_update_entry. Qed.

Lemma respects_ref entry : respects R (g_object_ref entry).
Proof. by apply respects_update_entry. Qed.

Lemma respects_unref entry : respects R (g_object_unref entry).
Proof. by apply respects_update_entry. Qed.

Lemma respects_unref_ptr entry : respects R (g_object_unref_ptr entry).
Proof. destruct entry; [apply respects_unref|apply respects_ret]. Qed.

Lemma respects_vlookup map vh : respects R (handle_map_vlookup map vh).
Proof.
  intros st. unfold handle_map_vlookup. munfold.
  destruct (table (trans_map st map) !! vh) as [entry|];
    [|apply (stable_refl R HR)].
  pose proof (respects_ref entry st) as H.
  by destruct (g_object_ref entry st).
Qed.

Lemma respects_remove map vh : respects R (handle_map_remove map vh).
Proof.
  intros st. unfold handle_map_remove. munfold.
  destruct (table (trans_map st map) !! vh) as [entry|];
    [|apply (stable_refl R HR)].
  pose proof (respects_unref entry
                (set_trans_map map (map_remove vh (trans_map st map)) st)) as H.
  destruct (g_object_unref entry _); [| |done];
    (eapply (stable_trans R HR); [apply (stable_remove R HR)|exact H]).
Qed.

Lemma respects_insert map vh entry st :
  (entry < length (heap st))%nat →
  vh < next_vhandle (trans_map st map) →
  match handle_map_insert map vh entry st with
  | Done _ st' | Abort st' => R st st'
  | Undefined => True
  end.
Proof.
  intros Hlt Hvh. unfold handle_map_insert. munfold.
  pose proof (stable_insert R HR st map vh entry Hlt Hvh) as Hins.
  destruct (map_insert vh entry (trans_map st map)) as [[] m'];
    [|apply (stable_refl R HR)].
  cbn [snd] in Hins.
  pose proof (respects_ref entry (set_trans_map map m' st)) as H.
  destruct (g_object_ref entry _); [| |done]; by eapply (stable_trans R HR).
Qed.

Lemma respects_is_full map : respects R (handle_map_is_full map).
Proof. intros st. apply (stable_refl R HR). Qed.

Lemma respects_send_command broker command :
  respects R (access_broker_send_command broker command).
Proof. intros st. apply (stable_send R HR). Qed.

Lemma respects_context_saveflush broker ph entry :
  respects R (access_broker_context_saveflush broker ph entry).
Proof.
  intros st. unfold access_broker_context_saveflush, deref, update_entry.
  munfold. destruct (heap st !! entry) as [e|] eqn:He; [|done].
  cbn [heap set_calls]. rewrite He.
  by apply (stable_saved R HR).
Qed.

Variable resmgr : ResourceManager.

Lemma respects_virt_to_phys command entry i :
  respects R (resource_manager_virt_to_phys resmgr command entry i).
Proof.
  intros st. unfold resource_manager_virt_to_phys,
    handle_map_entry_get_context, access_broker_context_load, deref.
  munfold. destruct (heap st !! entry) as [e|] eqn:He; [|done].
  pose proof (stable_load R HR st entry e
    (ab_context_load (access_broker resmgr) (calls st) (context e)).1
    (ab_context_load (access_broker resmgr) (calls st) (context e)).2 He) as H1.
  destruct (ab_context_load (access_broker resmgr) (calls st) (context e))
    as [rc ph]. cbn [fst snd] in *.
  destruct (rc =? TSS2_RC_SUCCESS); [|exact H1].
  set (st1 := set_calls _ st) in *.
  pose proof (respects_set_phandle entry ph st1) as H2.
  destruct (handle_map_entry_set_phandle entry ph st1); [| |done];
    by eapply (stable_trans R HR).
Qed.

Lemma respects_load_contexts_body c handles i acc :
  respects R (load_contexts_body resmgr c handles i acc).
Proof.
  destruct acc as [[[rc cmd] entries] n]. unfold load_contexts_body.
  destruct (handles !! i) as [h|]; [|apply respects_undefined].
  destruct (handle_type h =? TPM_HT_TRANSIENT); [|apply respects_ret].
  apply respects_bind; [apply respects_vlookup|]. intros [entry|];
    [|apply respects_ret].
  apply respects_bind; [apply respects_virt_to_phys|]. intros [rc' cmd'].
  destruct (negb (rc' =? TSS2_RC_SUCCESS)); [apply respects_ret|].
  case_bool_decide; [apply respects_ret|apply respects_undefined].
Qed.

Lemma respects_load_contexts_loop c handles slots :
  ∀ acc, respects R (load_contexts_loop resmgr c handles slots acc).
Proof.
  induction slots as [|i slots IH]; intros acc; [apply respects_ret|].
  apply respects_bind; [apply respects_load_contexts_body|]. exact IH.
Qed.

Lemma respects_load_contexts command entries n :
  respects R (resource_manager_load_contexts resmgr command entries n).
Proof.
  unfold resource_manager_load_contexts.
  case_bool_decide; [apply respects_ret|].
  case_bool_decide; [apply respects_undefined|].
  apply respects_load_contexts_loop.
Qed.

Lemma respects_flushsave_context entry :
  respects R (resource_manager_flushsave_context resmgr entry).
Proof.
  destruct entry as [entry|]; [|apply respects_g_error].
  apply respects_bind; [apply respects_get_phandle|]. intros ph.
  destruct (handle_type ph =? TPM_HT_TRANSIENT); [|apply respects_ret].
  apply respects_bind; [apply respects_context_saveflush|]. intros rc.
  apply respects_bind; [|intros _; apply respects_ret].
  destruct (rc =? TSS2_RC_SUCCESS);
    [apply respects_set_phandle|apply respects_ret].
Qed.

Lemma respects_virtualize_handle response :
  respects R (resource_manager_virtualize_handle response).
Proof.
  intros st. unfold resource_manager_virtualize_handle.
  destruct (handle_type (tpm2_response_get_handle response) =? TPM_HT_TRANSIENT);
    [|apply (stable_refl R HR)].
  set (map := connection_get_trans_map (tpm2_response_get_connection response)).
  unfold handle_map_next_vhandle, map_next_vhandle. munfold.
  pose proof (stable_next R HR st map) as H1. unfold map_next_vhandle in H1.
  destruct (is_transient (next_vhandle (trans_map st map))); cbn [fst snd] in *;
    [|exact H1].
  set (vh := next_vhandle (trans_map st map)) in *.
  set (st1 := set_trans_map map _ st) in *.
  destruct (vh =? 0); [exact H1|].
  unfold handle_map_entry_new.
  pose proof (stable_new R HR st1
    (mkEntry vh (tpm2_response_get_handle response) [] 1) eq_refl) as H2.
  set (st2 := set_heap _ st1) in *.
  pose proof (respects_insert map vh (length (heap st1)) st2) as H3.
  assert (R st st2) as H12 by (by eapply (stable_trans R HR)).
  destruct (handle_map_insert map vh (length (heap st1)) st2) as [ok st3|st3|];
    [| |done];
    (eapply (stable_trans R HR); [exact H12|]; apply H3;
     [unfold st2; cbn; rewrite length_app; cbn; lia
     |unfold st2, st1; cbn; rewrite fn_lookup_insert; cbn; lia]).
Qed.

Lemma respects_flush_context command :
  respects R (resource_manager_flush_context resmgr command).
Proof.
  unfold resource_manager_flush_context.
  destruct (negb _); [apply respects_ret|].
  destruct (handle_type _ =? TPM_HT_TRANSIENT).
  - apply respects_bind; [apply respects_vlookup|]. intros found.
    apply respects_bind; [|intros rc; apply respects_ret].
    destruct found as [entry|]; [|apply respects_ret].
    apply respects_bind; [apply respects_remove|]. intros _.
    apply respects_bind; [apply respects_unref|]. intros _.
    apply respects_ret.
  - apply respects_bind; [apply respects_send_command|]. intros [response rc].
    apply respects_ret.
Qed.

Lemma respects_is_over_object_quota command :
  respects R (resource_manager_is_over_object_quota command).
Proof.
  unfold resource_manager_is_over_object_quota.
  destruct (_ || _); [apply respects_is_full|apply respects_ret].
Qed.

Lemma respects_process_response_handle response entries n :
  respects R (process_response_handle response entries n).
Proof.
  unfold process_response_handle.
  destruct (tpm2_response_has_handle response); [|apply respects_ret].
  apply respects_bind; [apply respects_virtualize_handle|]. intros [entry r].
  case_bool_decide; [apply respects_ret|apply respects_undefined].
Qed.

Lemma respects_process_command_switch command entries n :
  respects R (process_command_switch resmgr command entries n).
Proof.
  unfold process_command_switch.
  destruct (_ =? TPM_CC_FlushContext).
  - apply respects_bind; [apply respects_flush_context|]. intros r.
    apply respects_ret.
  - apply respects_bind.
    + case_bool_decide; [|apply respects_ret].
      apply respects_bind; [apply respects_load_contexts|].
      intros [[[rc cmd] ents] k]. apply respects_ret.
    + intros [[cmd ents] k].
      apply respects_bind; [apply respects_send_command|]. intros [response rc].
      apply respects_bind; [apply respects_process_response_handle|].
      intros [[r ents'] k']. apply respects_ret.
Qed.

Lemma respects_flushsave_contexts entries slots :
  respects R (flushsave_contexts resmgr entries slots).
Proof.
  induction slots as [|i slots IH]; [apply respects_ret|].
  cbn [flushsave_contexts].
  destruct (entries !! i) as [[|entry]|]; try apply respects_undefined.
  apply respects_bind; [apply respects_flushsave_context|]. intros _.
  apply respects_bind; [apply respects_unref_ptr|]. intros _. exact IH.
Qed.

(** A relation that the sink keeps as well holds across a whole command. *)
Lemma respects_process command :
  (∀ st obj, R st (set_sink (sink st ++ [obj]) st)) →
  respects R (resource_manager_process_tpm2_command resmgr command).
Proof.
  intros Hsink. unfold resource_manager_process_tpm2_command.
  assert (∀ obj, respects R (sink_enqueue obj)) as Henq.
  { intros obj st. apply Hsink. }
  apply respects_bind; [apply respects_is_over_object_quota|]. intros [|];
    [apply Henq|].
  apply respects_bind; [apply respects_process_command_switch|].
  intros [[response ents] k].
  apply respects_bind; [apply Henq|]. intros _.
  apply respects_flushsave_contexts.
Qed.

End Respects.


Lemma stable_keeps_queues : stable keeps_queues.
Proof.
  split; unfold keeps_queues.
  - intros st. split_and!; [done|by exists []; rewrite app_nil_r|by exists []].
  - intros st1 st2 st3 (A1 & (o1 & A2) & (n1 & A3)) (B1 & (o2 & B2) & (n2 & B3)).
    split_and!; [congruence| |].
    + exists (o1 ++ o2). by rewrite B2, A2, app_assoc.
    + exists (n2 ++ n1). by rewrite B3, A3, app_assoc.
  - intros st a e e' _ _ _.
    split_and!; [done|by exists []; rewrite app_nil_r|by exists []].
  - intros st e _. split_and!; [done|by exists []; rewrite app_nil_r|by exists []].
  - intros st a e ph rc ctx _.
    split_and!; [done|by exists []; rewrite app_nil_r|by eexists [_]].
  - intros st a e rc ph _.
    split_and!; [done|by exists []; rewrite app_nil_r|by eexists [_]].
  - intros st command response rc.
    split_and!; [done|by exists []; rewrite app_nil_r|by eexists [_]].
  - intros st c. split_and!; [done|by exists []; rewrite app_nil_r|by exists []].
  - intros st c vh a _ _.
    split_and!; [done|by exists []; rewrite app_nil_r|by exists []].
  - intros st c vh. split_and!; [done|by exists []; rewrite app_nil_r|by exists []].
Qed.

Lemma entries_valid_set_trans_map st c m :
  (∀ vh a, table m !! vh = Some a →
           ∃ vh', table (trans_map st c) !! vh' = Some a
                  ∨ (a < length (heap st))%nat) →
  (∀ c', entries_valid st c') →
  ∀ c', entries_valid (set_trans_map c m st) c'.
Proof.
  intros Hm Hv c' vh a. unfold set_trans_map. cbn [trans_map heap].
  destruct (decide (c' = c)) as [->|Hne].
  - rewrite fn_lookup_insert. intros H.
    destruct (Hm vh a H) as (vh' & [H'|H']); [by eapply Hv|done].
  - rewrite fn_lookup_insert_ne by done. apply Hv.
Qed.

Lemma keeps_entries_update st a e e' :
  heap st !! a = Some e → vhandle e' = vhandle e →
  ∀ st', heap st' = <[a := e']> (heap st) → trans_map st' = trans_map st →
         keeps_entries st st'.
Proof.
  intros He Hvh st' Hh Hm. split.
  - intros b eb Hb. rewrite Hh. destruct (decide (b = a)) as [->|Hne].
    + exists e'. split; [by eapply heap_insert_lookup|]. congruence.
    + exists eb. by rewrite list_lookup_insert_ne.
  - intros Hv c vh b. rewrite Hm, Hh, length_insert. apply Hv.
Qed.

Lemma stable_keeps_entries : stable keeps_entries.
Proof.
  split.
  - intros st. split; [|done]. intros a e He. by exists e.
  - intros st1 st2 st3 [A1 A2] [B1 B2]. split; [|auto].
    intros a e He. destruct (A1 a e He) as (e1 & He1 & Hv1).
    destruct (B1 a e1 He1) as (e2 & He2 & Hv2). exists e2. split; [done|congruence].
  - intros st a e e' He Hvh _. by eapply keeps_entries_update.
  - intros st e _. split.
    + intros b eb Hb. exists eb. split; [|done]. cbn. by apply lookup_app_l_Some.
    + intros Hv c vh b Hb. cbn in *. rewrite length_app. pose proof (Hv c vh b Hb). lia.
  - intros st a e ph rc ctx He.
    apply (keeps_entries_update st a e (with_context ctx e) He eq_refl);
      reflexivity.
  - intros st a e rc ph _. split; [|done]. intros b eb Hb. by exists eb.
  - intros st command response rc. split; [|done]. intros a e He. by exists e.
  - intros st c. split; [intros a e He; by exists e|].
    apply entries_valid_set_trans_map. intros vh a H. exists vh. left.
    unfold map_next_vhandle in H. by destruct (is_transient _).
  - intros st c vh a Hlt _. split; [intros b e He; by exists e|].
    apply entries_valid_set_trans_map. intros vh' b H.
    unfold map_insert in H. destruct (table (trans_map st c) !! vh) eqn:E.
    + exists vh'. by left.
    + cbn in H. destruct (decide (vh' = vh)) as [->|Hne].
      * rewrite lookup_insert_eq in H. injection H as <-. exists vh. by right.
      * rewrite lookup_insert_ne in H by done. exists vh'. by left.
  - intros st c vh. split; [intros b e He; by exists e|].
    apply entries_valid_set_trans_map. intros vh' b H. cbn in H.
    exists vh'. left. apply lookup_delete_Some in H. tauto.
Qed.

Lemma keeps_allocator_same st st' :
  trans_map st' = trans_map st → keeps_allocator st st'.
Proof.
  intros H. unfold keeps_allocator, allocator_ahead. rewrite H.
  split_and!; [done| |done]. intros c. lia.
Qed.

Lemma keeps_allocator_map st c m :
  capacity m = capacity (trans_map st c) →
  next_vhandle (trans_map st c) ≤ next_vhandle m →
  (allocator_ahead st → ∀ vh a, table m !! vh = Some a → vh < next_vhandle m) →
  keeps_allocator st (set_trans_map c m st).
Proof.
  intros Hcap Hnext Hahead. unfold keeps_allocator, allocator_ahead.
  cbn [trans_map set_trans_map]. split_and!.
  - intros c'. destruct (decide (c' = c)) as [->|Hne];
      [by rewrite fn_lookup_insert|by rewrite fn_lookup_insert_ne].
  - intros c'. destruct (decide (c' = c)) as [->|Hne];
      [by rewrite fn_lookup_insert|rewrite fn_lookup_insert_ne by done; lia].
  - intros H c' vh a. destruct (decide (c' = c)) as [->|Hne].
    + rewrite fn_lookup_insert. by apply Hahead.
    + rewrite fn_lookup_insert_ne by done. apply H.
Qed.

Lemma stable_keeps_allocator : stable keeps_allocator.
Proof.
  split; try (intros; by apply keeps_allocator_same).
  - intros st1 st2 st3 (A1 & A2 & A3) (B1 & B2 & B3). split_and!.
    + intros c. by rewrite B1.
    + intros c. specialize (A2 c). specialize (B2 c). lia.
    + auto.
  - intros st c. unfold map_next_vhandle.
    destruct (is_transient (next_vhandle (trans_map st c))); cbn [snd];
      apply keeps_allocator_map; cbn; try done; try lia;
      intros H vh a Hvh; specialize (H c vh a Hvh); lia.
  - intros st c vh a _ Hvh. unfold map_insert.
    destruct (table (trans_map st c) !! vh) eqn:E; cbn [snd];
      apply keeps_allocator_map; cbn; try done; try lia.
    + intros H vh' b. apply H.
    + intros H vh' b. destruct (decide (vh' = vh)) as [->|Hne].
      * by rewrite lookup_insert_eq.
      * rewrite lookup_insert_ne by done. apply H.
  - intros st c vh. apply keeps_allocator_map; cbn; try done; try lia.
    intros H vh' b [_ Hb]%lookup_delete_Some. by apply (H c vh' b).
Qed.

Lemma keeps_queues_sink st obj : keeps_queues st (set_sink (sink st ++ [obj]) st).
Proof. split_and!; [done|by exists [obj]|by exists []]. Qed.




(** And it ends normally unless the allocator of virtual handles has
    rolled over. *)
Lemma process_outcome resmgr command st :
  (cmd_handle_count command ≤ 3)%nat →
  entries_valid st (cmd_connection command) →
  (∃ st' c, resource_manager_process_tpm2_command resmgr command st = Abort st' ∧
            rolled_over st c)
  ∨ (∃ st', resource_manager_process_tpm2_command resmgr command st = Done tt st').
Proof.
  intros H3 Hv.
  pose proof (is_over_object_quota_eq command st) as Hq.
  destruct (bool_decide (object_creating (cmd_code command))
            && map_is_full (trans_map st (cmd_connection command))).
  { right. eexists. by apply process_over_quota. }
  destruct (decide (cmd_code command = TPM_CC_FlushContext)) as [Hcode|Hcode].
  - right. rewrite process_flush_eq by done.
    destruct (decide (handle_type (cmd_flush_handle command) = TPM_HT_TRANSIENT))
      as [Hty|Hty].
    + destruct (table (trans_map st (cmd_connection command))
                  !! cmd_flush_handle command) as [entry|] eqn:Ht.
      * destruct (lookup_lt_is_Some_2 (heap st) entry (Hv _ _ Ht)) as [e He].
        rewrite (flush_context_managed _ _ _ _ _ Hcode Hty Ht He). by eexists.
      * rewrite (flush_context_unknown _ _ _ Hcode Hty Ht). by eexists.
    + rewrite (flush_context_unmanaged _ _ _ Hcode Hty). by eexists.
  - destruct (process_default resmgr command st Hcode H3 Hv Hq)
      as (loads & cmd' & _ & [(st' & c & Hproc & _ & Hroll)
                             |(r & ents & n & st1 & st' & _ & _ & Hproc & _)]).
    + left. by exists st', c.
    + right. by exists st'.
Qed.


(** ** More about the sample states *)

Lemma st_empty_entries_valid c : entries_valid st_empty c.
Proof. intros vh entry H. cbn in H. by rewrite lookup_empty in H. Qed.


Lemma st_one_tpm_empty : tpm_empty st_one.
Proof.
  intros a e H. destruct a as [|a]; [|done]. cbn in H. by injection H as <-.
Qed.

(** ** What a command never does *)

(** X1: a command never touches the input queue and only appends to the
    sink and to the calls made on the broker: whatever the command and the
    state, when the command ends, normally or by [g_error], the input queue
    is as it was, and the objects that were on the sink and the calls that
    were recorded are still there, in the same order, before the new
    ones. *)
Theorem command_keeps_the_queues resmgr command st :
  match resource_manager_process_tpm2_command resmgr command st with
  | Done _ st' | Abort st' => keeps_queues st st'
  | Undefined => True
  end.
Proof.
  apply (respects_process stable_keeps_queues resmgr command keeps_queues_sink).
Qed.

Lemma keeps_allocator_sink st obj :
  keeps_allocator st (set_sink (sink st ++ [obj]) st).
Proof. by apply keeps_allocator_same. Qed.

(** X4: a command never reuses a virtual handle.  Whatever the command and
    the state, when the command ends, normally or by [g_error], no map has
    changed its capacity, no allocator has gone back, and if the allocator
    of every map was ahead of the handles the map binds, it still is: the
    handle that the next allocation on a map returns is not bound in that
    map. *)
Theorem command_never_reuses_a_virtual_handle resmgr command st :
  match resource_manager_process_tpm2_command resmgr command st with
  | Done _ st' | Abort st' =>
      keeps_allocator st st' ∧
      (allocator_ahead st → ∀ c, next_vhandle_fresh (trans_map st' c))
  | Undefined => True
  end.
Proof.
  pose proof (respects_process stable_keeps_allocator resmgr command
                keeps_allocator_sink st) as Hk.
  assert (∀ st', keeps_allocator st st' →
            keeps_allocator st st' ∧
            (allocator_ahead st → ∀ c, next_vhandle_fresh (trans_map st' c)))
    as Hfresh.
  { intros st' Hka. split; [done|]. intros Ha c.
    destruct Hka as (_ & _ & Hka). specialize (Hka Ha c).
    unfold next_vhandle_fresh.
    destruct (table (trans_map st' c) !! next_vhandle (trans_map st' c))
      as [a|] eqn:E; [|done].
    specialize (Hka _ _ E). lia. }
  destruct (resource_manager_process_tpm2_command resmgr command st);
    [by apply Hfresh..|done].
Qed.

(** ** What a computation that ends normally has done *)

Lemma load_contexts_body_inv resmgr c handles i rc cmd entries n st acc' st' :
  load_contexts_body resmgr c handles i (rc, cmd, entries, n) st = Done acc' st' →
  (slot_present st c handles i = false ∧ acc' = (rc, cmd, entries, n) ∧ st' = st)
  ∨ (∃ h entry e,
       handles !! i = Some h ∧ handle_type h = TPM_HT_TRANSIENT ∧
       table (trans_map st c) !! h = Some entry ∧ heap st !! entry = Some e ∧
       st' = after_load resmgr entry e st ∧
       let r := ab_context_load (access_broker resmgr) (calls st) (context e) in
       (r.1 = TSS2_RC_SUCCESS ∧ (n < length entries)%nat ∧
        acc' = (r.1, tpm2_command_set_handle cmd r.2 i,
                <[n := Ptr (Some entry)]> entries, S n)
        ∨ r.1 ≠ TSS2_RC_SUCCESS ∧ acc' = (r.1, cmd, entries, n))).
Proof.
  intros H.
  destruct (handles !! i) as [h|] eqn:Hh;
    [|unfold load_contexts_body in H; by rewrite Hh in H].
  destruct (slot_present st c handles i) eqn:Hp.
  - right. destruct (slot_present_true _ _ _ _ Hp) as (h' & entry & Hh' & Hty & Ht).
    assert (h' = h) as -> by congruence.
    destruct (heap st !! entry) as [e|] eqn:He.
    + exists h, entry, e.
      rewrite (load_contexts_body_present _ _ _ _ _ _ _ _ _ _ _ _ Hh Hty Ht He) in H.
      cbn zeta in *.
      destruct (Z.eqb_spec (ab_context_load (access_broker resmgr) (calls st)
                              (context e)).1 TSS2_RC_SUCCESS) as [Hrc|Hrc].
      * case_bool_decide; [|done]. injection H as <- <-.
        split_and!; try done. by left.
      * injection H as <- <-. split_and!; try done. by right.
    + exfalso. unfold load_contexts_body, connection_get_trans_map in H.
      rewrite Hh, Hty in H. cbn [Z.eqb TPM_HT_TRANSIENT Pos.eqb] in H.
      unfold handle_map_vlookup, g_object_ref, update_entry in H. munfold.
      by rewrite Ht, He in H.
  - left. rewrite load_contexts_body_skip in H; [|by eapply lookup_lt_Some|done].
    by injection H.
Qed.

(** An invariant of the body of the loop is an invariant of the loop. *)
Lemma load_contexts_loop_inv resmgr c handles
    (P : Z * Tpm2Command * list Cell * nat → State → Prop) slots :
  (∀ i acc st acc' st',
     i ∈ slots → P acc st →
     load_contexts_body resmgr c handles i acc st = Done acc' st' → P acc' st') →
  ∀ acc st acc' st',
    P acc st →
    load_contexts_loop resmgr c handles slots acc st = Done acc' st' →
    P acc' st'.
Proof.
  induction slots as [|i slots IH]; intros Hstep acc st acc' st' HP H.
  - cbn in H. by injection H as <- <-.
  - cbn [load_contexts_loop] in H. munfold.
    destruct (load_contexts_body resmgr c handles i acc st) as [acc1 st1| |] eqn:Hb;
      try discriminate H.
    eapply IH; [|eapply Hstep; [by left|exact HP|exact Hb]|exact H].
    intros j a s a' s' Hj. apply Hstep. by right.
Qed.

Lemma load_contexts_inv resmgr command entries n st acc' st' :
  resource_manager_load_contexts resmgr command entries n st = Done acc' st' →
  ((n < cmd_handle_count command)%nat ∧
   acc' = (RM_RC TSS2_BASE_RC_GENERAL_FAILURE, command, entries, n) ∧ st' = st)
  ∨ ((cmd_handle_count command ≤ n)%nat ∧ (cmd_handle_count command ≤ 3)%nat ∧
     load_contexts_loop resmgr (cmd_connection command)
       (tpm2_command_get_handles command [0; 0; 0] (cmd_handle_count command))
       (seq 0 (cmd_handle_count command)) (TSS2_RC_SUCCESS, command, entries, 0%nat)
       st = Done acc' st').
Proof.
  unfold resource_manager_load_contexts, tpm2_command_get_handle_count,
    tpm2_command_get_connection. intros H.
  case_bool_decide as H1.
  - left. by injection H.
  - case_bool_decide as H2; [done|]. right. cbn [length] in H2.
    split_and!; [lia | lia | done].
Qed.

Lemma process_response_handle_inv response entries n st r' entries' n' st' :
  process_response_handle response entries n st = Done (r', entries', n') st' →
  (¬ virtualized response ∧ st' = st ∧ n' = n ∧ r' = response ∧
   (entries' = entries ∨ entries' = <[n := Ptr None]> entries))
  ∨ (virtualized response ∧ (n < length entries)%nat ∧ n' = S n ∧
     entries' = <[n := Ptr (Some (length (heap st)))]> entries ∧
     r' = tpm2_response_set_handle response
            (next_vhandle (trans_map st (rsp_connection response))) ∧
     handle_type (next_vhandle (trans_map st (rsp_connection response)))
       = TPM_HT_TRANSIENT ∧
     virtualize_post response st st').
Proof.
  unfold process_response_handle, tpm2_response_has_handle, virtualized.
  intros H. destruct (rsp_has_handle response) eqn:Hh.
  - destruct (decide (handle_type (rsp_handle response) = TPM_HT_TRANSIENT))
      as [Hty|Hty].
    + destruct (decide (handle_type (next_vhandle
                  (trans_map st (rsp_connection response))) = TPM_HT_TRANSIENT))
        as [Hnext|Hnext].
      * right.
        destruct (virtualize_handle_transient response st Hty Hnext)
          as (st1 & Heq & Hpost).
        munfold. rewrite Heq in H. case_bool_decide; [|done].
        injection H as <- <- <- <-. by split_and!.
      * destruct (virtualize_handle_rollover response st Hty Hnext)
          as (st1 & Heq & _).
        munfold. by rewrite Heq in H.
    + left. munfold. rewrite virtualize_handle_other in H by done.
      case_bool_decide; [|done]. injection H as <- <- <- <-.
      split_and!; try done; [tauto | by right].
  - left. injection H as <- <- <- <-. split_and!; try done; [|by left].
    by intros [? _].
Qed.

Lemma process_command_switch_inv resmgr command entries0 n0 st response
    entries n st1 :
  cmd_code command ≠ TPM_CC_FlushContext →
  process_command_switch resmgr command entries0 n0 st
    = Done (response, entries, n) st1 →
  ∃ cmd1 entries1 n1 st_l r,
    ((cmd_handle_count command = 0%nat ∧ cmd1 = command ∧ entries1 = entries0 ∧
      n1 = 0%nat ∧ st_l = st)
     ∨ ((0 < cmd_handle_count command)%nat ∧
        ∃ rc, resource_manager_load_contexts resmgr command entries0 n0 st
              = Done (rc, cmd1, entries1, n1) st_l)) ∧
    process_response_handle
      (response_of resmgr (calls st_l) (cmd_connection command) cmd1)
      entries1 n1 (after_send resmgr cmd1 st_l) = Done (r, entries, n) st1 ∧
    response = Some r.
Proof.
  intros Hcode H. unfold process_command_switch, tpm2_command_get_code,
    tpm2_command_get_handle_count, tpm2_command_get_connection in H.
  destruct (Z.eqb_spec (cmd_code command) TPM_CC_FlushContext) as [|_]; [done|].
  munfold.
  match type of H with
  | match ?stage st with _ => _ end = _ =>
      destruct (stage st) as [[[cmd1 entries1] n1] st_l| |] eqn:Hstage;
        try discriminate H
  end.
  unfold access_broker_send_command in H.
  destruct (ab_send_command (access_broker resmgr) (calls st_l) cmd1)
    as [sent_response sent_rc] eqn:Hsent. cbn [fst snd] in H.
  destruct (process_response_handle _ entries1 n1 _) as [[[r e2] k] s| |] eqn:Hr;
    try discriminate H.
  injection H as <- <- <- <-.
  exists cmd1, entries1, n1, st_l, r. split_and!; [| |done].
  - case_bool_decide as Hhc.
    + right. split; [done|].
      destruct (resource_manager_load_contexts resmgr command entries0 n0 st)
        as [[[[rc c1] e1] k1] s1| |]; try discriminate Hstage.
      exists rc. by injection Hstage as -> -> -> ->.
    + left. injection Hstage as <- <- <- <-. split_and!; try done. lia.
  - unfold response_of, after_send. rewrite Hsent. exact Hr.
Qed.

Lemma process_inv resmgr command st st' :
  resource_manager_process_tpm2_command resmgr command st = Done tt st' →
  (resource_manager_is_over_object_quota command st = Done true st ∧
   st' = set_sink (sink st ++
                   [Some (tpm2_response_new_rc (cmd_connection command)
                                               TSS2_RESMGR_RC_OBJECT_MEMORY)]) st)
  ∨ (resource_manager_is_over_object_quota command st = Done false st ∧
     ∃ response entries n st1,
       process_command_switch resmgr command (replicate ENTRY_COUNT Unwritten)
         (ENTRY_COUNT - 1) st = Done (response, entries, n) st1 ∧
       flushsave_contexts resmgr entries (seq 0 n)
         (set_sink (sink st1 ++ [response]) st1) = Done tt st').
Proof.
  intros H. pose proof (is_over_object_quota_eq command st) as Hq.
  destruct (bool_decide (object_creating (cmd_code command))
            && map_is_full (trans_map st (cmd_connection command))).
  - left. split; [done|]. rewrite (process_over_quota _ _ _ Hq) in H.
    by injection H.
  - right. split; [done|].
    unfold resource_manager_process_tpm2_command in H. munfold.
    rewrite Hq in H.
    destruct (process_command_switch resmgr command _ _ st)
      as [[[response entries] n] st1| |]; try discriminate H.
    exists response, entries, n, st1. split; [done|]. exact H.
Qed.

Lemma flushsave_contexts_inv resmgr entries i slots st st' :
  flushsave_contexts resmgr entries (i :: slots) st = Done tt st' →
  ∃ a e, entries !! i = Some (Ptr (Some a)) ∧ heap st !! a = Some e ∧
         flushsave_contexts resmgr entries slots (after_evict resmgr a e st)
           = Done tt st'.
Proof.
  cbn [flushsave_contexts]. intros H.
  destruct (entries !! i) as [[|[a|]]|] eqn:Hcell; try done.
  destruct (heap st !! a) as [e|] eqn:He.
  - exists a, e. split_and!; try done.
    pose proof (evict_step_eq resmgr a e st He) as Hstep. munfold.
    destruct (resource_manager_flushsave_context resmgr (Some a) st)
      as [rc st0| |]; try discriminate Hstep.
    destruct (g_object_unref_ptr (Some a) st0) as [[] st2| |];
      try discriminate Hstep.
    by injection Hstep as <-.
  - exfalso. unfold resource_manager_flushsave_context,
      handle_map_entry_get_phandle, deref in H. munfold. by rewrite He in H.
Qed.

(** What [resource_manager_flushsave_context] does to the saved context of
    an entry: it is written by the saveflush when the physical handle of
    the entry is transient, and left alone otherwise. *)
Lemma evicted_context resmgr hist e :
  let r := ab_context_saveflush (access_broker resmgr) hist
                                (phandle e) (context e) in
  (handle_type (phandle e) = TPM_HT_TRANSIENT ∧
   context (evicted resmgr hist e) = r.2 ∧
   evict_calls resmgr hist e = [CallContextSaveFlush (phandle e) r.1 r.2])
  ∨ (handle_type (phandle e) ≠ TPM_HT_TRANSIENT ∧
     evicted resmgr hist e = e ∧ evict_calls resmgr hist e = []).
Proof.
  unfold evicted, evict_calls.
  destruct (Z.eqb_spec (handle_type (phandle e)) TPM_HT_TRANSIENT) as [Hty|Hty].
  - left. cbn zeta. split; [done|]. split; [|done]. by destruct (_ =? _).
  - by right.
Qed.

(** ** The command as rewritten *)

Lemma slot_rewritten_mono command cmd' loads call i :
  slot_rewritten command cmd' loads i →
  slot_rewritten command cmd' (call :: loads) i.
Proof.
  intros [H|(ctx & ph & Hin & H)]; [by left|].
  right. exists ctx, ph. split; [by right|done].
Qed.

(** X5: [resource_manager_load_contexts] rewrites loaded slots only.  On a
    command of at most three handles it ends normally, and the command it
    hands back differs from the one it was given in its handle area only:
    a slot that does not hold a transient handle bound in the map of the
    connection is left as it is, and any other slot holds what it held or
    the physical handle returned by a successful context load of this
    call. *)
Theorem load_contexts_rewrites_loaded_slots_only resmgr command entries
    entry_count st :
  (cmd_handle_count command ≤ 3)%nat →
  (cmd_handle_count command ≤ entry_count)%nat →
  (cmd_handle_count command ≤ length entries)%nat →
  entries_valid st (cmd_connection command) →
  ∃ rc cmd' entries' n' st' loads,
    resource_manager_load_contexts resmgr command entries entry_count st
      = Done (rc, cmd', entries', n') st' ∧
    calls st' = loads ++ calls st ∧
    same_but_handles command cmd' ∧
    ∀ i,
      (slot_present st (cmd_connection command)
         (tpm2_command_get_handles command [0; 0; 0] (cmd_handle_count command))
         i = false →
       cmd_handles cmd' !! i = cmd_handles command !! i) ∧
      slot_rewritten command cmd' loads i.
Proof.
  intros H3 Hec Hlen Hv.
  destruct (load_contexts_post resmgr command entries entry_count st)
    as (rc & cmd' & entries' & n' & st' & Heq & _); [done..|].
  destruct (load_contexts_inv _ _ _ _ _ _ _ Heq) as [(Hlt & _)|(_ & _ & Hloop)];
    [lia|].
  set (handles := tpm2_command_get_handles command [0; 0; 0]
                    (cmd_handle_count command)) in *.
  set (c := cmd_connection command) in *.
  pose (P := fun (acc : Z * Tpm2Command * list Cell * nat) (s : State) =>
          trans_map s = trans_map st ∧
          same_but_handles command acc.1.1.2 ∧
          ∃ loads, calls s = loads ++ calls st ∧
            ∀ i, (slot_present st c handles i = false →
                  cmd_handles acc.1.1.2 !! i = cmd_handles command !! i) ∧
                 slot_rewritten command acc.1.1.2 loads i).
  assert (P (rc, cmd', entries', n') st') as (_ & Hsame & loads & Hcalls & Hslots).
  { eapply (load_contexts_loop_inv resmgr c handles P); [| |exact Hloop].
    - intros i [[[rc0 cmd0] ents0] n0] s acc1 s1 _
        (Ht & Hs & loads & Hc & Hsl) Hbody. unfold P. cbn [fst snd] in *.
      destruct (load_contexts_body_inv _ _ _ _ _ _ _ _ _ _ _ Hbody)
        as [(_ & -> & ->)|(h & entry & e & Hh & Hty & Hte & He & -> & Hr)].
      { split_and!; try done. by exists loads. }
      destruct (after_load_frame resmgr entry e s) as (F1 & _ & _ & _ & F5).
      cbn zeta in Hr.
      set (r := ab_context_load (access_broker resmgr) (calls s) (context e)) in *.
      assert (slot_present st c handles i = true) as Hpres.
      { unfold slot_present. rewrite Hh, Hty, <- Ht, Hte.
        apply andb_true_iff. split; [done|]. apply bool_decide_eq_true. eauto. }
      destruct Hr as [(Hrc & _ & ->)|(Hrc & ->)]; cbn [fst snd].
      + split_and!; [congruence| |].
        * destruct Hs as (S1 & S2 & S3 & S4 & S5 & S6).
          unfold same_but_handles. cbn. by rewrite length_insert.
        * exists (CallContextLoad (context e) r.1 r.2 :: loads).
          split; [by rewrite F5, Hc|]. intros j.
          destruct (decide (j = i)) as [->|Hne].
          -- split; [congruence|].
             destruct (decide (i < length (cmd_handles cmd0))%nat) as [Hi|Hi].
             ++ right. exists (context e), r.2. split; [rewrite <- Hrc; by left|].
                cbn. by rewrite list_lookup_insert_eq.
             ++ apply slot_rewritten_mono.
                destruct (Hsl i) as [_ Hrw]. unfold slot_rewritten in *. cbn.
                by rewrite list_insert_ge by lia.
          -- destruct (Hsl j) as [Hsl1 Hsl2]. split.
             ++ intros Hj. cbn. rewrite list_lookup_insert_ne by done. auto.
             ++ apply slot_rewritten_mono. unfold slot_rewritten in *. cbn.
                by rewrite list_lookup_insert_ne by done.
      + split_and!; [congruence|done|].
        exists (CallContextLoad (context e) r.1 r.2 :: loads).
        split; [by rewrite F5, Hc|]. intros j. destruct (Hsl j) as [Hsl1 Hsl2].
        split; [done|]. by apply slot_rewritten_mono.
    - unfold P. cbn. split_and!; try done.
      exists []. split; [done|]. intros i. split; [done|]. by left. }
  exists rc, cmd', entries', n', st', loads. by split_and!.
Qed.

Lemma load_contexts_rewrites_loaded_slots_only_witness :
  ∃ rc cmd' entries' n' st' loads,
    resource_manager_load_contexts (mkResmgr broker_ok) cmd_read_public
      (replicate ENTRY_COUNT Unwritten) (ENTRY_COUNT - 1) st_one
      = Done (rc, cmd', entries', n') st' ∧
    calls st' = loads ++ calls st_one ∧
    same_but_handles cmd_read_public cmd' ∧
    ∀ i,
      (slot_present st_one (cmd_connection cmd_read_public)
         (tpm2_command_get_handles cmd_read_public [0; 0; 0]
            (cmd_handle_count cmd_read_public)) i = false →
       cmd_handles cmd' !! i = cmd_handles cmd_read_public !! i) ∧
      slot_rewritten cmd_read_public cmd' loads i.
Proof.
  apply (load_contexts_rewrites_loaded_slots_only (mkResmgr broker_ok)
           cmd_read_public (replicate ENTRY_COUNT Unwritten) (ENTRY_COUNT - 1)
           st_one).
  - vm_compute. lia.
  - vm_compute. lia.
  - vm_compute. lia.
  - apply st_one_entries_valid.
Defined.

(** ** Commands that name no object of the connection *)

Lemma count_present_zero st c handles slots i :
  count_present st c handles slots = 0%nat → i ∈ slots →
  slot_present st c handles i = false.
Proof.
  unfold count_present. intros H Hi.
  destruct (slot_present st c handles i) eqn:Hp; [|done].
  assert (i ∈ List.filter (slot_present st c handles) slots) as Hin.
  { apply list_elem_of_In, List.filter_In. split; [|done].
    by apply list_elem_of_In. }
  destruct (List.filter (slot_present st c handles) slots); [|done].
  by apply elem_of_nil in Hin.
Qed.

Lemma load_contexts_loop_skip resmgr c handles slots acc st :
  (∀ i, i ∈ slots → (i < length handles)%nat) →
  count_present st c handles slots = 0%nat →
  load_contexts_loop resmgr c handles slots acc st = Done acc st.
Proof.
  intros Hidx Hz. induction slots as [|i slots IH]; [reflexivity|].
  cbn [load_contexts_loop]. munfold.
  rewrite load_contexts_body_skip;
    [|apply Hidx; by left|by eapply count_present_zero; [|left]].
  apply IH.
  - intros j Hj. apply Hidx. by right.
  - rewrite count_present_cons in Hz. lia.
Qed.

(** X6: a command that names no object of its connection passes through.
    When the command is not a FlushContext, passes the quota gate, has at
    most three handles of which none is a transient handle bound in the map
    of its connection, and the response of the broker carries no transient
    handle, the broker receives the command as it is, the sink receives the
    response of the broker as it is (or the one synthesized from its code),
    and nothing else changes: no context is loaded or saved, no map and no
    entry is touched. *)
Theorem command_without_managed_handles_passes_through resmgr command st :
  cmd_code command ≠ TPM_CC_FlushContext →
  (cmd_handle_count command ≤ 3)%nat →
  resource_manager_is_over_object_quota command st = Done false st →
  count_present st (cmd_connection command)
    (tpm2_command_get_handles command [0; 0; 0] (cmd_handle_count command))
    (seq 0 (cmd_handle_count command)) = 0%nat →
  ¬ virtualized (response_of resmgr (calls st) (cmd_connection command) command) →
  resource_manager_process_tpm2_command resmgr command st =
  Done tt (set_sink
             (sink st ++ [Some (response_of resmgr (calls st)
                                  (cmd_connection command) command)])
             (after_send resmgr command st)).
Proof.
  intros Hcode H3 Hq Hz Hnv.
  assert (resource_manager_load_contexts resmgr command
            (replicate ENTRY_COUNT Unwritten) (ENTRY_COUNT - 1) st
          = Done (TSS2_RC_SUCCESS, command, replicate ENTRY_COUNT Unwritten, 0%nat)
                 st) as Hload.
  { unfold resource_manager_load_contexts, tpm2_command_get_handle_count,
      tpm2_command_get_connection.
    rewrite bool_decide_eq_false_2 by (cbn; lia).
    rewrite bool_decide_eq_false_2 by (cbn; lia).
    apply load_contexts_loop_skip; [|done].
    intros i Hi%elem_of_seq.
    rewrite tpm2_command_get_handles_length by (cbn; lia). cbn. lia. }
  unfold resource_manager_process_tpm2_command. munfold. rewrite Hq.
  unfold process_command_switch, tpm2_command_get_code,
    tpm2_command_get_handle_count, tpm2_command_get_connection.
  destruct (Z.eqb_spec (cmd_code command) TPM_CC_FlushContext) as [|_]; [done|].
  munfold.
  case_bool_decide; [rewrite Hload|];
    unfold access_broker_send_command, response_of, after_send in *;
    (destruct (ab_send_command (access_broker resmgr) (calls st) command)
       as [sent_response sent_rc]); cbn [fst snd] in *;
    unfold process_response_handle, tpm2_response_has_handle, sink_enqueue,
      virtualized in *;
    (destruct (rsp_has_handle _); [|reflexivity]);
    munfold; rewrite virtualize_handle_other by tauto; reflexivity.
Qed.

Lemma command_without_managed_handles_passes_through_witness :
  resource_manager_process_tpm2_command (mkResmgr broker_ok) cmd_read_public
    st_empty =
  Done tt (set_sink
             (sink st_empty ++
              [Some (response_of (mkResmgr broker_ok) (calls st_empty)
                       (cmd_connection cmd_read_public) cmd_read_public)])
             (after_send (mkResmgr broker_ok) cmd_read_public st_empty)).
Proof.
  apply (command_without_managed_handles_passes_through (mkResmgr broker_ok)
           cmd_read_public st_empty).
  - vm_compute. discriminate.
  - vm_compute. lia.
  - reflexivity.
  - vm_compute. reflexivity.
  - intros [H _]. vm_compute in H. discriminate H.
Defined.

(** ** Commands of more than three handles *)

(** X7: a command of more than three handles is not served.  When such a
    command is not a FlushContext and passes the quota gate,
    [resource_manager_load_contexts] refuses it with
    [RM_RC (TSS2_BASE_RC_GENERAL_FAILURE)] before it has reset the count of
    touched entries or loaded anything; the caller ignores that code and
    goes on with the count at 3 and an array that was never written, so the
    command never ends normally: the final loop reads a cell that was never
    written, unless the process is terminated before. *)
Theorem command_of_more_than_three_handles_is_not_served resmgr command st :
  (3 < cmd_handle_count command)%nat →
  cmd_code command ≠ TPM_CC_FlushContext →
  resource_manager_is_over_object_quota command st = Done false st →
  resource_manager_load_contexts resmgr command
    (replicate ENTRY_COUNT Unwritten) (ENTRY_COUNT - 1) st
  = Done (RM_RC TSS2_BASE_RC_GENERAL_FAILURE, command,
          replicate ENTRY_COUNT Unwritten, (ENTRY_COUNT - 1)%nat) st
  ∧ (resource_manager_process_tpm2_command resmgr command st = Undefined
     ∨ ∃ st', resource_manager_process_tpm2_command resmgr command st
              = Abort st').
Proof.
  intros H3 Hcode Hq.
  assert (resource_manager_load_contexts resmgr command
            (replicate ENTRY_COUNT Unwritten) (ENTRY_COUNT - 1) st
          = Done (RM_RC TSS2_BASE_RC_GENERAL_FAILURE, command,
                  replicate ENTRY_COUNT Unwritten, (ENTRY_COUNT - 1)%nat) st)
    as Hload.
  { unfold resource_manager_load_contexts, tpm2_command_get_handle_count.
    by rewrite bool_decide_eq_true_2 by (cbn; lia). }
  split; [exact Hload|].
  destruct (resource_manager_process_tpm2_command resmgr command st)
    as [[] st'|st'|] eqn:Hproc; [exfalso|by right; eauto|by left].
  destruct (process_inv _ _ _ _ Hproc)
    as [(Hq' & _)|(_ & response & entries & n & st1 & Hsw & Hloop)];
    [congruence|].
  destruct (process_command_switch_inv _ _ _ _ _ _ _ _ _ Hcode Hsw)
    as (cmd1 & entries1 & n1 & st_l & r & Hstage & Hprh & ->).
  destruct Hstage as [(Hz & _)|(_ & rc & Hload')]; [lia|].
  rewrite Hload in Hload'. injection Hload' as <- <- <- <- <-.
  assert (entries !! 0%nat = Some Unwritten ∧ ∃ k, n = S k) as (Hcell & k & ->).
  { destruct (process_response_handle_inv _ _ _ _ _ _ _ _ Hprh)
      as [(_ & _ & -> & _ & [->| ->])|(_ & _ & -> & -> & _)];
      (split; [reflexivity|by eexists]). }
  cbn [seq flushsave_contexts] in Hloop. by rewrite Hcell in Hloop.
Qed.

Lemma command_of_more_than_three_handles_is_not_served_witness :
  resource_manager_load_contexts (mkResmgr broker_ok) cmd_four_handles
    (replicate ENTRY_COUNT Unwritten) (ENTRY_COUNT - 1) st_empty
  = Done (RM_RC TSS2_BASE_RC_GENERAL_FAILURE, cmd_four_handles,
          replicate ENTRY_COUNT Unwritten, (ENTRY_COUNT - 1)%nat) st_empty
  ∧ (resource_manager_process_tpm2_command (mkResmgr broker_ok)
       cmd_four_handles st_empty = Undefined
     ∨ ∃ st', resource_manager_process_tpm2_command (mkResmgr broker_ok)
                cmd_four_handles st_empty = Abort st').
Proof.
  apply (command_of_more_than_three_handles_is_not_served (mkResmgr broker_ok)
           cmd_four_handles st_empty).
  - vm_compute. lia.
  - vm_compute. discriminate.
  - reflexivity.
Defined.

(** ** The physical handles between two commands *)

Lemma held_by_heap st st' entries slots :
  heap st' = heap st → held_by st entries slots → held_by st' entries slots.
Proof. intros H Hh a e. rewrite H. apply Hh. Qed.

Lemma tpm_empty_held_by st entries slots :
  tpm_empty st → held_by st entries slots.
Proof. intros H a e He Hne. by specialize (H a e He). Qed.

Lemma held_by_nil st entries : held_by st entries [] → tpm_empty st.
Proof.
  intros H a e He. destruct (decide (phandle e = 0)) as [|Hne]; [done|].
  destruct (H a e He Hne) as (_ & j & Hj & _). by apply elem_of_nil in Hj.
Qed.

(** The loop of [resource_manager_load_contexts] keeps every loaded entry
    in the array. *)
Lemma load_contexts_body_held_by resmgr c handles i rc cmd entries n st acc' st' :
  loads_transient (access_broker resmgr) →
  held_by st entries (seq 0 n) →
  load_contexts_body resmgr c handles i (rc, cmd, entries, n) st = Done acc' st' →
  held_by st' acc'.1.2 (seq 0 acc'.2).
Proof.
  intros Hb Hheld Hbody.
  destruct (load_contexts_body_inv _ _ _ _ _ _ _ _ _ _ _ Hbody)
    as [(_ & -> & ->)|(h & entry & e & Hh & Hty & Hte & He & -> & Hr)]; [done|].
  cbn zeta in Hr.
  set (r := ab_context_load (access_broker resmgr) (calls st) (context e)) in *.
  assert (∀ a ea, a ≠ entry →
            heap (after_load resmgr entry e st) !! a = Some ea →
            heap st !! a = Some ea) as Hother.
  { intros a ea Hne. unfold after_load. cbn.
    by rewrite list_lookup_insert_ne by done. }
  destruct Hr as [(Hrc & Hn & ->)|(Hrc & ->)]; cbn [fst snd]; intros a ea Ha Hph.
  - destruct (decide (a = entry)) as [->|Hne].
    + unfold after_load in Ha. cbn in Ha. fold r in Ha.
      rewrite (heap_insert_lookup _ _ _ _ He) in Ha.
      rewrite Hrc in Ha. cbn in Ha. injection Ha as <-. split.
      * cbn. apply Hb. exact Hrc.
      * exists n. split; [apply elem_of_seq; lia|].
        by rewrite list_lookup_insert_eq.
    + destruct (Hheld a ea (Hother a ea Hne Ha) Hph) as (Ht & j & Hj & Hcell).
      split; [done|]. apply elem_of_seq in Hj. exists j.
      split; [apply elem_of_seq; lia|].
      by rewrite list_lookup_insert_ne by lia.
  - destruct (decide (a = entry)) as [->|Hne].
    + unfold after_load in Ha. cbn in Ha. fold r in Ha.
      rewrite (heap_insert_lookup _ _ _ _ He) in Ha.
      destruct (Z.eqb_spec r.1 TSS2_RC_SUCCESS) as [|_]; [done|].
      injection Ha as <-. cbn in *. by apply (Hheld entry e).
    + by apply (Hheld a ea (Hother a ea Hne Ha)).
Qed.

Lemma process_response_handle_held_by response entries n st r' entries' n' st' :
  held_by st entries (seq 0 n) →
  process_response_handle response entries n st = Done (r', entries', n') st' →
  held_by st' entries' (seq 0 n').
Proof.
  intros Hheld H.
  destruct (process_response_handle_inv _ _ _ _ _ _ _ _ H)
    as [(_ & -> & -> & _ & Hents)
       |((_ & Hty) & Hn & -> & -> & _ & _ & (rcnt & Hheap & _) & _)].
  - intros a e He Hph. destruct (Hheld a e He Hph) as (Ht & j & Hj & Hcell).
    split; [done|]. exists j. split; [done|]. apply elem_of_seq in Hj.
    destruct Hents as [->| ->]; [done|].
    by rewrite list_lookup_insert_ne by lia.
  - intros a e He Hph. rewrite Hheap in He.
    destruct (decide (a < length (heap st))%nat) as [Hlt|Hge].
    + rewrite lookup_app_l in He by done.
      destruct (Hheld a e He Hph) as (Ht & j & Hj & Hcell).
      split; [done|]. apply elem_of_seq in Hj. exists j.
      split; [apply elem_of_seq; lia|].
      by rewrite list_lookup_insert_ne by lia.
    + rewrite lookup_app_r in He by lia.
      destruct (a - length (heap st))%nat as [|k] eqn:Hk; [|done].
      injection He as <-. split; [exact Hty|].
      assert (a = length (heap st)) as -> by lia.
      exists n. split; [apply elem_of_seq; lia|].
      by rewrite list_lookup_insert_eq.
Qed.

(** When every saveflush succeeds, the final loop clears the physical
    handle of every entry it visits. *)
Lemma flushsave_contexts_empties resmgr entries slots :
  saves_succeed (access_broker resmgr) →
  ∀ st st',
    held_by st entries slots →
    flushsave_contexts resmgr entries slots st = Done tt st' →
    tpm_empty st'.
Proof.
  intros Hs. induction slots as [|i slots IH]; intros st st' Hheld H.
  - cbn in H. injection H as <-. by eapply held_by_nil.
  - destruct (flushsave_contexts_inv _ _ _ _ _ _ H) as (a & e & Hcell & He & Hrest).
    eapply IH; [|exact Hrest].
    intros b eb Hb Hph. destruct (decide (b = a)) as [->|Hne].
    + rewrite (after_evict_same _ _ _ _ He) in Hb.
      apply (inj Some) in Hb. subst eb.
      cbn [phandle with_refcount] in Hph. exfalso.
      destruct (evicted_phandle resmgr (calls st) e) as [Hz|[Heq Hfail]];
        [done|].
      rewrite Heq in Hph. destruct (Hheld a e He Hph) as (Hty & _).
      destruct (Hfail Hty) as (rc & ctx & Hrc & Hcalls).
      unfold evict_calls in Hcalls. rewrite Hty in Hcalls.
      cbn [Z.eqb TPM_HT_TRANSIENT Pos.eqb] in Hcalls.
      injection Hcalls as Hrc' _. by rewrite Hs in Hrc'.
    + rewrite after_evict_other in Hb by done.
      destruct (Hheld b eb Hb Hph) as (Hty & j & Hj & Hcellj).
      split; [done|]. exists j. split; [|done].
      apply elem_of_cons in Hj as [->|Hj]; [congruence|done].
Qed.

Lemma process_default_keeps_the_tpm_empty resmgr command st st' :
  cmd_code command ≠ TPM_CC_FlushContext →
  (cmd_handle_count command ≤ 3)%nat →
  loads_transient (access_broker resmgr) →
  saves_succeed (access_broker resmgr) →
  tpm_empty st →
  resource_manager_is_over_object_quota command st = Done false st →
  resource_manager_process_tpm2_command resmgr command st = Done tt st' →
  tpm_empty st'.
Proof.
  intros Hcode H3 Hb Hs Hempty Hq Hproc.
  destruct (process_inv _ _ _ _ Hproc)
    as [(Hq' & _)|(_ & response & entries & n & st1 & Hsw & Hloop)];
    [congruence|].
  destruct (process_command_switch_inv _ _ _ _ _ _ _ _ _ Hcode Hsw)
    as (cmd1 & entries1 & n1 & st_l & r & Hstage & Hprh & ->).
  assert (held_by st_l entries1 (seq 0 n1)) as Hl.
  { destruct Hstage as [(_ & _ & _ & -> & ->)|(_ & rc & Hload)];
      [by apply tpm_empty_held_by|].
    destruct (load_contexts_inv _ _ _ _ _ _ _ Hload)
      as [(Hlt & _)|(_ & _ & Hl)]; [cbn in Hlt; lia|].
    refine (load_contexts_loop_inv resmgr _ _
              (fun acc s => held_by s acc.1.2 (seq 0 acc.2)) _ _ _ _
              (rc, cmd1, entries1, n1) st_l _ Hl).
    - intros i [[[rc0 cmd0] ents0] n0] s acc1 s1 _ Hh Hbody.
      eapply load_contexts_body_held_by; [done| |exact Hbody]. exact Hh.
    - by apply tpm_empty_held_by. }
  eapply flushsave_contexts_empties; [done| |exact Hloop].
  eapply held_by_heap; [|eapply process_response_handle_held_by; [|exact Hprh]];
    [reflexivity|].
  by eapply held_by_heap; [|exact Hl].
Qed.

(** A command that ends normally and found no entry carrying a physical
    handle leaves none. *)
Lemma process_keeps_the_tpm_empty resmgr command st st' :
  (cmd_handle_count command ≤ 3)%nat →
  entries_valid st (cmd_connection command) →
  loads_transient (access_broker resmgr) →
  saves_succeed (access_broker resmgr) →
  tpm_empty st →
  resource_manager_process_tpm2_command resmgr command st = Done tt st' →
  tpm_empty st'.
Proof.
  intros H3 Hv Hb Hs Hempty Hproc.
  pose proof (is_over_object_quota_eq command st) as Hq.
  destruct (bool_decide (object_creating (cmd_code command))
            && map_is_full (trans_map st (cmd_connection command))).
  { rewrite (process_over_quota _ _ _ Hq) in Hproc. by injection Hproc as <-. }
  destruct (decide (cmd_code command = TPM_CC_FlushContext)) as [Hcode|Hcode];
    [|by eapply process_default_keeps_the_tpm_empty].
  rewrite process_flush_eq in Hproc by done.
  destruct (decide (handle_type (cmd_flush_handle command) = TPM_HT_TRANSIENT))
    as [Hty|Hty].
  - destruct (table (trans_map st (cmd_connection command))
                !! cmd_flush_handle command) as [entry|] eqn:Ht.
    + destruct (lookup_lt_is_Some_2 (heap st) entry (Hv _ _ Ht)) as [e He].
      rewrite (flush_context_managed _ _ _ _ _ Hcode Hty Ht He) in Hproc.
      injection Hproc as <-. intros a ea. cbn.
      destruct (decide (a = entry)) as [->|Hne].
      * rewrite (heap_insert_lookup _ _ _ _ He). intros [= <-]. cbn.
        by apply (Hempty entry).
      * rewrite list_lookup_insert_ne by done. apply Hempty.
    + rewrite (flush_context_unknown _ _ _ Hcode Hty Ht) in Hproc.
      by injection Hproc as <-.
  - rewrite (flush_context_unmanaged _ _ _ Hcode Hty) in Hproc.
    by injection Hproc as <-.
Qed.

(** One turn of the loop of [resource_manager_load_contexts] on a slot
    whose entry no cell of the array points to yet. *)
Lemma load_contexts_body_holds resmgr c handles i rc cmd entries n st0 st
    loads acc' st' :
  loads_transient (access_broker resmgr) →
  (∀ h a j, handles !! i = Some h → handle_type h = TPM_HT_TRANSIENT →
            table (trans_map st c) !! h = Some a → (j < n)%nat →
            entries !! j ≠ Some (Ptr (Some a))) →
  calls st = loads ++ calls st0 →
  loads_held st loads entries n →
  load_contexts_body resmgr c handles i (rc, cmd, entries, n) st = Done acc' st' →
  trans_map st' = trans_map st ∧
  (∃ loads', calls st' = loads' ++ calls st0 ∧
             loads_held st' loads' acc'.1.2 acc'.2) ∧
  (∀ j b, (j < acc'.2)%nat → acc'.1.2 !! j = Some (Ptr (Some b)) →
          ((j < n)%nat ∧ entries !! j = Some (Ptr (Some b)))
          ∨ (∃ h, handles !! i = Some h ∧ handle_type h = TPM_HT_TRANSIENT ∧
                  table (trans_map st c) !! h = Some b)).
Proof.
  intros Hb Hdis Hcalls (Hloads & Hvalid & Hdistinct) Hbody.
  destruct (load_contexts_body_inv _ _ _ _ _ _ _ _ _ _ _ Hbody)
    as [(_ & -> & ->)|(h & entry & e & Hh & Hty & Hte & He & -> & Hr)].
  { split; [done|]. split; [by exists loads|]. intros j b Hj Hcell. by left. }
  cbn zeta in Hr.
  set (r := ab_context_load (access_broker resmgr) (calls st) (context e)) in *.
  assert (∀ b, b ≠ entry →
            heap (after_load resmgr entry e st) !! b = heap st !! b) as Hother.
  { intros b Hne. unfold after_load. cbn. by rewrite list_lookup_insert_ne. }
  assert (length (heap (after_load resmgr entry e st)) = length (heap st))
    as Hlen.
  { unfold after_load. cbn. by rewrite length_insert. }
  assert (calls (after_load resmgr entry e st)
          = (CallContextLoad (context e) r.1 r.2 :: loads) ++ calls st0)
    as Hcalls'.
  { unfold after_load. cbn. fold r. by rewrite Hcalls. }
  split; [done|].
  destruct Hr as [(Hrc & Hn & ->)|(Hrc & ->)]; cbn [fst snd].
  - split.
    + exists (CallContextLoad (context e) r.1 r.2 :: loads).
      split; [done|]. split_and!.
      * intros ctx ph [Heq|Hin]%elem_of_cons.
        -- injection Heq as -> _ ->. exists n, entry. eexists.
           split_and!; [lia | by rewrite list_lookup_insert_eq | | | ].
           ++ unfold after_load. cbn. fold r. rewrite Hrc.
              by eapply heap_insert_lookup.
           ++ reflexivity.
           ++ by apply Hb.
        -- destruct (Hloads ctx ph Hin)
             as (j & b & eb & Hj & Hcell & Heb & Hph & Hty').
           exists j, b, eb. split_and!; [lia | | | done | done].
           ++ by rewrite list_lookup_insert_ne by lia.
           ++ rewrite Hother; [done|]. intros ->.
              by apply (Hdis h entry j Hh Hty Hte Hj).
      * intros j b Hj Hcell. rewrite Hlen.
        destruct (decide (j = n)) as [->|Hne].
        -- rewrite list_lookup_insert_eq in Hcell by done.
           injection Hcell as <-. by eapply lookup_lt_Some.
        -- rewrite list_lookup_insert_ne in Hcell by done.
           apply (Hvalid j b); [lia|done].
      * intros j j' b Hj Hj' Hcell Hcell'.
        destruct (decide (j = n)) as [->|Hne];
          destruct (decide (j' = n)) as [->|Hne']; [done| | |].
        -- rewrite list_lookup_insert_eq in Hcell by done.
           injection Hcell as <-.
           rewrite list_lookup_insert_ne in Hcell' by done.
           exfalso. apply (Hdis h entry j' Hh Hty Hte); [lia|done].
        -- rewrite list_lookup_insert_eq in Hcell' by done.
           injection Hcell' as <-.
           rewrite list_lookup_insert_ne in Hcell by done.
           exfalso. apply (Hdis h entry j Hh Hty Hte); [lia|done].
        -- rewrite list_lookup_insert_ne in Hcell, Hcell' by done.
           apply (Hdistinct j j' b); [lia | lia | done | done].
    + intros j b Hj Hcell. destruct (decide (j = n)) as [->|Hne].
      * rewrite list_lookup_insert_eq in Hcell by done.
        injection Hcell as <-. right. by exists h.
      * rewrite list_lookup_insert_ne in Hcell by done.
        left. split; [lia|done].
  - split; [|intros j b Hj Hcell; by left].
    exists (CallContextLoad (context e) r.1 r.2 :: loads).
    split; [done|]. split_and!.
    + intros ctx ph [Heq|Hin]%elem_of_cons.
      { injection Heq as _ Heq _. by rewrite <- Heq in Hrc. }
      destruct (Hloads ctx ph Hin)
        as (j & b & eb & Hj & Hcell & Heb & Hph & Hty').
      exists j, b, eb. split_and!; [done | done | | done | done].
      rewrite Hother; [done|]. intros ->.
      by apply (Hdis h entry j Hh Hty Hte Hj).
    + intros j b Hj Hcell. rewrite Hlen. by apply (Hvalid j b).
    + done.
Qed.

(** The loop of [resource_manager_load_contexts] over slots that name
    different entries: every physical handle loaded is held by a cell of
    the array. *)
Lemma load_contexts_loop_holds resmgr c handles st0 slots :
  loads_transient (access_broker resmgr) →
  ∀ rc cmd entries n st loads acc' st',
    NoDup slots →
    (∀ i j h h' a,
       i ∈ slots → j ∈ slots → i ≠ j →
       handles !! i = Some h → handles !! j = Some h' →
       handle_type h = TPM_HT_TRANSIENT → handle_type h' = TPM_HT_TRANSIENT →
       table (trans_map st c) !! h = Some a →
       table (trans_map st c) !! h' = Some a → False) →
    (∀ i h a j,
       i ∈ slots → handles !! i = Some h → handle_type h = TPM_HT_TRANSIENT →
       table (trans_map st c) !! h = Some a → (j < n)%nat →
       entries !! j ≠ Some (Ptr (Some a))) →
    calls st = loads ++ calls st0 →
    loads_held st loads entries n →
    load_contexts_loop resmgr c handles slots (rc, cmd, entries, n) st
      = Done acc' st' →
    ∃ loads', calls st' = loads' ++ calls st0 ∧
              loads_held st' loads' acc'.1.2 acc'.2.
Proof.
  intros Hb. induction slots as [|i slots IH];
    intros rc cmd entries n st loads acc' st' Hnd Hpair Hdis Hcalls Hheld H.
  - cbn in H. injection H as <- <-. by exists loads.
  - cbn [load_contexts_loop] in H. munfold.
    destruct (load_contexts_body resmgr c handles i (rc, cmd, entries, n) st)
      as [[[[rc1 cmd1] entries1] n1] st1| |] eqn:Hbody; try discriminate H.
    apply NoDup_cons in Hnd as [Hi Hnd].
    destruct (load_contexts_body_holds _ _ _ _ _ _ _ _ st0 _ loads _ _ Hb
                (fun h a j => Hdis i h a j ltac:(by left)) Hcalls Hheld Hbody)
      as (Hmap & (loads1 & Hcalls1 & Hheld1) & Hcells).
    cbn [fst snd] in *.
    eapply (IH rc1 cmd1 entries1 n1 st1 loads1); [done| | |done|done|exact H].
    + rewrite Hmap. intros j j' h h' a Hj Hj'. apply Hpair; by right.
    + rewrite Hmap. intros i' h' a' j Hi' Hh' Hty' Ht' Hj Hcell.
      destruct (Hcells j a' Hj Hcell) as [(Hlt & Hold)|(h & Hh & Hty & Ht)].
      * eapply (Hdis i' h' a' j); [by right|done..].
      * eapply (Hpair i i' h h' a'); [by left | by right | | done..].
        intros ->. done.
Qed.

(** The transformation of the response keeps the loaded entries in the
    array, and adds the entry created for the response. *)
Lemma process_response_handle_holds response entries n st loads
    r' entries' n' st' :
  loads_held st loads entries n →
  process_response_handle response entries n st = Done (r', entries', n') st' →
  loads_held st' loads entries' n' ∧
  (virtualized response →
   ∃ j a e, (j < n')%nat ∧ entries' !! j = Some (Ptr (Some a)) ∧
            heap st' !! a = Some e ∧ phandle e = rsp_handle response).
Proof.
  intros (Hloads & Hvalid & Hdistinct) H.
  destruct (process_response_handle_inv _ _ _ _ _ _ _ _ H)
    as [(Hnv & -> & -> & _ & Hents)
       |(Hvirt & Hn & -> & -> & _ & _ & (rcnt & Hheap & _) & _)].
  - split; [|done].
    assert (∀ j, (j < n)%nat → entries' !! j = entries !! j) as Hsame.
    { intros j Hj. destruct Hents as [->| ->]; [done|].
      by rewrite list_lookup_insert_ne by lia. }
    split_and!.
    + intros ctx ph Hin.
      destruct (Hloads ctx ph Hin) as (j & b & eb & Hj & Hcell & Hrest).
      exists j, b, eb. by rewrite Hsame.
    + intros j b Hj. rewrite Hsame by done. by apply Hvalid.
    + intros j j' b Hj Hj'. rewrite !Hsame by done. by apply Hdistinct.
  - assert (length (heap st') = S (length (heap st))) as Hlen.
    { rewrite Hheap, length_app. cbn. lia. }
    split.
    + split_and!.
      * intros ctx ph Hin.
        destruct (Hloads ctx ph Hin)
          as (j & b & eb & Hj & Hcell & Heb & Hph & Hty').
        exists j, b, eb. split_and!; [lia | | | done | done].
        -- by rewrite list_lookup_insert_ne by lia.
        -- rewrite Hheap. by apply lookup_app_l_Some.
      * intros j b Hj Hcell. rewrite Hlen.
        destruct (decide (j = n)) as [->|Hne].
        -- rewrite list_lookup_insert_eq in Hcell by done.
           injection Hcell as <-. lia.
        -- rewrite list_lookup_insert_ne in Hcell by done.
           assert (b < length (heap st))%nat by (apply (Hvalid j b); [lia|done]).
           lia.
      * intros j j' b Hj Hj' Hcell Hcell'.
        destruct (decide (j = n)) as [->|Hne];
          destruct (decide (j' = n)) as [->|Hne']; [done| | |].
        -- rewrite list_lookup_insert_eq in Hcell by done.
           injection Hcell as <-.
           rewrite list_lookup_insert_ne in Hcell' by done.
           assert (length (heap st) < length (heap st))%nat
             by (apply (Hvalid j' _); [lia|done]).
           lia.
        -- rewrite list_lookup_insert_eq in Hcell' by done.
           injection Hcell' as <-.
           rewrite list_lookup_insert_ne in Hcell by done.
           assert (length (heap st) < length (heap st))%nat
             by (apply (Hvalid j _); [lia|done]).
           lia.
        -- rewrite list_lookup_insert_ne in Hcell, Hcell' by done.
           apply (Hdistinct j j' b); [lia | lia | done | done].
    + intros _. exists n, (length (heap st)). eexists.
      split_and!; [lia | by rewrite list_lookup_insert_eq | |].
      * rewrite Hheap, lookup_app_r, Nat.sub_diag by lia. reflexivity.
      * reflexivity.
Qed.

(** When every saveflush succeeds, the final loop over cells that point to
    different entries saves and flushes the physical handle that each of
    those entries carries. *)
Lemma flushsave_contexts_flushes resmgr entries slots :
  saves_succeed (access_broker resmgr) →
  ∀ st st',
    NoDup slots →
    (∀ j j' a, j ∈ slots → j' ∈ slots →
               entries !! j = Some (Ptr (Some a)) →
               entries !! j' = Some (Ptr (Some a)) → j = j') →
    flushsave_contexts resmgr entries slots st = Done tt st' →
    ∃ evs, calls st' = evs ++ calls st ∧
           ∀ j a e, j ∈ slots → entries !! j = Some (Ptr (Some a)) →
                    heap st !! a = Some e →
                    handle_type (phandle e) = TPM_HT_TRANSIENT →
                    ∃ ctx, CallContextSaveFlush (phandle e) TSS2_RC_SUCCESS ctx
                           ∈ evs.
Proof.
  intros Hs. induction slots as [|i slots IH]; intros st st' Hnd Hdistinct H.
  - cbn in H. injection H as <-. exists []. split; [done|].
    intros j a e Hj. by apply elem_of_nil in Hj.
  - destruct (flushsave_contexts_inv _ _ _ _ _ _ H) as (a & e & Hcell & He & Hrest).
    apply NoDup_cons in Hnd as [Hi Hnd].
    destruct (IH _ _ Hnd ltac:(intros j j' b Hj Hj'; apply Hdistinct; by right)
                Hrest) as (evs & Hcalls & Hevs).
    exists (evs ++ evict_calls resmgr (calls st) e). split.
    { rewrite Hcalls. unfold after_evict. cbn. by rewrite app_assoc. }
    intros j b eb [->|Hj]%elem_of_cons Hcellj Heb Hty.
    + assert (b = a) as -> by congruence. assert (eb = e) as -> by congruence.
      pose proof (evicted_context resmgr (calls st) e) as Hev. cbn zeta in Hev.
      destruct Hev as [(_ & _ & ->)|(Hty' & _)]; [|done].
      rewrite Hs. eexists. apply elem_of_app. right. by left.
    + assert (b ≠ a) as Hne.
      { intros ->. apply Hi.
        by rewrite (Hdistinct i j a ltac:(by left) ltac:(by right) Hcell Hcellj). }
      destruct (Hevs j b eb Hj Hcellj) as (ctx & Hin); [|done|].
      { by rewrite after_evict_other. }
      exists ctx. apply elem_of_app. by left.
Qed.

(** X8: a command saves and flushes what it loaded.  For a command that is
    not a FlushContext, has at most three handles, names no entry in two
    slots and passes the quota gate, on a broker whose successful loads
    yield transient handles and whose saveflush always succeeds: unless
    the allocator of virtual handles has rolled over, the command ends, and
    after the command was sent a successful saveflush was made of every
    physical handle that a context load of the command returned, and of
    the handle of the response of the broker when that handle is transient.
    So if no entry carried a physical handle before the command, none does
    after. *)
Theorem command_flushes_what_it_loaded resmgr command st :
  cmd_code command ≠ TPM_CC_FlushContext →
  (cmd_handle_count command ≤ 3)%nat →
  entries_valid st (cmd_connection command) →
  resource_manager_is_over_object_quota command st = Done false st →
  loads_transient (access_broker resmgr) →
  saves_succeed (access_broker resmgr) →
  names_entries_once st command →
  (∃ st' c, resource_manager_process_tpm2_command resmgr command st = Abort st' ∧
            rolled_over st c)
  ∨ (∃ st' loads cmd' evs,
       let sent := ab_send_command (access_broker resmgr) (loads ++ calls st)
                                   cmd' in
       resource_manager_process_tpm2_command resmgr command st = Done tt st' ∧
       calls st' = evs ++ CallSendCommand cmd' sent.1 sent.2 :: loads ++ calls st ∧
       Forall (fun call => is_load call = true) loads ∧
       Forall (fun call => is_saveflush call = true) evs ∧
       (∀ ctx ph, CallContextLoad ctx TSS2_RC_SUCCESS ph ∈ loads →
                  ∃ ctx', CallContextSaveFlush ph TSS2_RC_SUCCESS ctx' ∈ evs) ∧
       (∀ r, sent.1 = Some r → virtualized r →
             ∃ ctx', CallContextSaveFlush (rsp_handle r) TSS2_RC_SUCCESS ctx'
                     ∈ evs) ∧
       (tpm_empty st → tpm_empty st')).
Proof.
  intros Hcode H3 Hv Hq Hb Hs Honce.
  destruct (process_default resmgr command st Hcode H3 Hv Hq)
    as (loads & cmd' & Hfacts
        & [(st' & c & Hproc & _ & Hroll)
          |(response & entries & n & st1 & st' & Hsw & Hpost & Hproc & Hloop
            & Hev)]).
  { left. by exists st', c. }
  right. destruct Hfacts as (rc_l & entries_l & st_l0 & Hload & Hcl & Hloads & _).
  destruct Hpost as (_ & _ & _ & _ & Hcalls1 & _).
  destruct Hev as (_ & _ & _ & _ & evs & Hcalls' & Hevs & _).
  exists st', loads, cmd', evs. cbn zeta.
  split; [done|]. split; [by rewrite Hcalls', <- Hcalls1|].
  split; [done|]. split; [done|].
  destruct (process_command_switch_inv _ _ _ _ _ _ _ _ _ Hcode Hsw)
    as (cmd1 & entries1 & n1 & st_l & r & Hstage & Hprh & [= <-]).
  assert (∃ loads1, calls st_l = loads1 ++ calls st ∧
                    loads_held st_l loads1 entries1 n1)
    as (loads1 & Hcl1 & Hheld).
  { assert (loads_held st [] (replicate ENTRY_COUNT Unwritten) 0) as Hinit.
    { split_and!; [intros ctx ph Hin; by apply elem_of_nil in Hin|..];
        intros; lia. }
    destruct Hstage as [(_ & _ & -> & -> & ->)|(_ & rc & Hload1)];
      [by exists []|].
    destruct (load_contexts_inv _ _ _ _ _ _ _ Hload1)
      as [(Hlt & _)|(_ & _ & Hl)]; [cbn in Hlt; lia|].
    eapply (load_contexts_loop_holds resmgr _ _ st _ Hb
             TSS2_RC_SUCCESS command (replicate ENTRY_COUNT Unwritten) 0%nat
             st [] (rc, cmd1, entries1, n1) st_l);
      [apply NoDup_seq | exact Honce | | done | exact Hinit | exact Hl].
    intros; lia. }
  assert (calls st1 = calls (after_send resmgr cmd1 st_l)) as Hc1.
  { destruct (process_response_handle_inv _ _ _ _ _ _ _ _ Hprh)
      as [(_ & -> & _)|(_ & _ & _ & _ & _ & _ & Hvp)]; [done|].
    by destruct Hvp as (_ & _ & _ & _ & _ & _ & _ & ->). }
  rewrite Hcalls1 in Hc1. unfold after_send in Hc1. cbn in Hc1.
  rewrite Hcl1 in Hc1. injection Hc1 as -> _ _ Heq.
  apply app_inv_tail in Heq. subst loads1.
  assert (loads_held (after_send resmgr cmd1 st_l) loads entries1 n1) as Hheld'
    by exact Hheld.
  destruct (process_response_handle_holds _ _ _ _ _ _ _ _ _ Hheld' Hprh)
    as ((Hloaded & _ & Hdistinct) & Hcreated).
  destruct (flushsave_contexts_flushes resmgr entries (seq 0 n) Hs _ _
              (NoDup_seq 0 n)
              ltac:(intros j j' a Hj%elem_of_seq Hj'%elem_of_seq;
                    apply Hdistinct; lia) Hloop)
    as (evs' & Hcalls2 & Hflushed).
  rewrite Hcalls' in Hcalls2. apply app_inv_tail in Hcalls2. subst evs'.
  split_and!.
  - intros ctx ph Hin.
    destruct (Hloaded ctx ph Hin) as (j & a & e & Hj & Hcell & He & <- & Hty).
    apply (Hflushed j a e); [apply elem_of_seq; lia | done | done | done].
  - intros r0 Hsent Hvirt.
    assert (response_of resmgr (calls st_l) (cmd_connection command) cmd1 = r0)
      as Hr0.
    { unfold response_of. by rewrite Hcl1, Hsent. }
    rewrite Hr0 in Hcreated.
    destruct (Hcreated Hvirt) as (j & a & e & Hj & Hcell & He & Hph).
    rewrite <- Hph.
    apply (Hflushed j a e); [apply elem_of_seq; lia | done | done |].
    rewrite Hph. apply Hvirt.
  - intros Hempty. by eapply process_keeps_the_tpm_empty.
Qed.

Lemma broker_fresh_handles_loads_transient :
  loads_transient broker_fresh_handles.
Proof.
  intros hist ctx _. unfold broker_fresh_handles.
  cbn [ab_context_load fst snd].
  pose proof (Z.mod_pos_bound (Z.of_nat (length hist)) 256 ltac:(lia)) as Hk.
  set (k := Z.of_nat (length hist) mod 256) in *.
  unfold handle_type, HR_SHIFT, TPM_HT_TRANSIENT.
  rewrite Z.shiftr_div_pow2 by lia. symmetry.
  apply (Z.div_unique _ _ _ (0xFFFF00 + k)); lia.
Qed.

Lemma st_two_entries_valid : entries_valid st_two 0%nat.
Proof.
  intros vh entry H. unfold st_two, sample_map in *.
  cbn [trans_map heap] in *. rewrite fn_lookup_insert in H.
  cbn [table] in H.
  apply lookup_insert_Some in H as [[_ <-]|[_ H]]; [cbn; lia|].
  apply lookup_singleton_Some in H as [_ <-]. cbn. lia.
Qed.

Lemma cmd_two_handles_names_entries_once :
  names_entries_once st_two cmd_two_handles.
Proof.
  unfold names_entries_once. cbn zeta.
  intros i j h h' a Hi%elem_of_seq Hj%elem_of_seq Hne Hh Hh' _ _ Ha Ha'.
  cbn in Hi, Hj.
  assert (∀ k x, (k < 2)%nat →
            tpm2_command_get_handles cmd_two_handles [0; 0; 0] 2 !! k = Some x →
            table (trans_map st_two 0%nat) !! x = Some a → a = k) as Hslot.
  { intros k x Hk Hx Hax. destruct k as [|[|k]]; [| |lia];
      cbn in Hx; injection Hx as <-; vm_compute in Hax; congruence. }
  pose proof (Hslot i h ltac:(lia) Hh Ha).
  pose proof (Hslot j h' ltac:(lia) Hh' Ha'). congruence.
Qed.

Lemma command_flushes_what_it_loaded_witness :
  (∃ st' c, resource_manager_process_tpm2_command (mkResmgr broker_fresh_handles)
              cmd_two_handles st_two = Abort st' ∧
            rolled_over st_two c)
  ∨ (∃ st' loads cmd' evs,
       let sent := ab_send_command broker_fresh_handles (loads ++ calls st_two)
                                   cmd' in
       resource_manager_process_tpm2_command (mkResmgr broker_fresh_handles)
         cmd_two_handles st_two = Done tt st' ∧
       calls st' =
         evs ++ CallSendCommand cmd' sent.1 sent.2 :: loads ++ calls st_two ∧
       Forall (fun call => is_load call = true) loads ∧
       Forall (fun call => is_saveflush call = true) evs ∧
       (∀ ctx ph, CallContextLoad ctx TSS2_RC_SUCCESS ph ∈ loads →
                  ∃ ctx', CallContextSaveFlush ph TSS2_RC_SUCCESS ctx' ∈ evs) ∧
       (∀ r, sent.1 = Some r → virtualized r →
             ∃ ctx', CallContextSaveFlush (rsp_handle r) TSS2_RC_SUCCESS ctx'
                     ∈ evs) ∧
       (tpm_empty st_two → tpm_empty st')).
Proof.
  apply (command_flushes_what_it_loaded (mkResmgr broker_fresh_handles)
           cmd_two_handles st_two).
  - vm_compute. discriminate.
  - vm_compute. lia.
  - apply st_two_entries_valid.
  - reflexivity.
  - apply broker_fresh_handles_loads_transient.
  - intros hist ph ctx. reflexivity.
  - apply cmd_two_handles_names_entries_once.
Defined.

(** Without that hypothesis the statement fails: when a command names one
    entry in two slots, the context of the entry is loaded twice, the
    second physical handle replaces the first in the entry, and the final
    loop saves and flushes the second only.  The first stays in the TPM
    although no entry carries a physical handle. *)
Example same_handle_twice_leaves_a_slot :
  ∃ st',
    resource_manager_process_tpm2_command (mkResmgr broker_fresh_handles)
      cmd_same_handle_twice st_one = Done tt st' ∧
    calls st' =
      [CallContextSaveFlush 0x80FFFF01 TSS2_RC_SUCCESS [1; 2; 3];
       CallSendCommand
         (mkCommand 0 0x173 2 [0x80FFFF00; 0x80FFFF01] 0 [])
         (Some (sample_response cmd_same_handle_twice)) TSS2_RC_SUCCESS;
       CallContextLoad [7; 7] TSS2_RC_SUCCESS 0x80FFFF01;
       CallContextLoad [7; 7] TSS2_RC_SUCCESS 0x80FFFF00] ∧
    heap st' = [mkEntry 0x80000000 0 [1; 2; 3] 1%nat].
Proof. eexists. split; [vm_compute; reflexivity|]. split; reflexivity. Qed.

(** ** The references held for a command *)

Lemma cells_of_cons entries i slots a :
  cells_of entries (i :: slots) a =
  ((if bool_decide (entries !! i = Some (Ptr (Some a))) then 1 else 0)
   + cells_of entries slots a)%nat.
Proof. unfold cells_of. cbn [List.filter]. by case_bool_decide. Qed.

Lemma cells_of_app entries l1 l2 a :
  cells_of entries (l1 ++ l2) a =
  (cells_of entries l1 a + cells_of entries l2 a)%nat.
Proof. unfold cells_of. by rewrite List.filter_app, length_app. Qed.

Lemma cells_of_insert (entries : list Cell) n x slots a :
  (∀ j, j ∈ slots → j ≠ n) →
  cells_of (<[n := x]> entries) slots a = cells_of entries slots a.
Proof.
  intros H. induction slots as [|j slots IH]; [reflexivity|].
  rewrite !cells_of_cons, IH by (intros k Hk; apply H; by right).
  by rewrite list_lookup_insert_ne by (apply not_eq_sym, H; by left).
Qed.

Lemma cells_of_seq_S entries n a :
  cells_of entries (seq 0 (S n)) a =
  (cells_of entries (seq 0 n) a
   + (if bool_decide (entries !! n = Some (Ptr (Some a))) then 1 else 0))%nat.
Proof.
  rewrite seq_S, cells_of_app. cbn [Nat.add]. rewrite cells_of_cons.
  change (cells_of entries [] a) with 0%nat. lia.
Qed.

Lemma count_failed_cons call l :
  count_failed (call :: l) =
  ((if is_load_failed call then 1 else 0) + count_failed l)%nat.
Proof. unfold count_failed. cbn. by destruct (is_load_failed call). Qed.

Lemma count_failed_app l1 l2 :
  count_failed (l1 ++ l2) = (count_failed l1 + count_failed l2)%nat.
Proof. unfold count_failed. by rewrite List.filter_app, length_app. Qed.

Lemma count_failed_saveflush evs :
  Forall (fun call => is_saveflush call = true) evs → count_failed evs = 0%nat.
Proof.
  induction 1 as [|call evs Hc _ IH]; [reflexivity|].
  rewrite count_failed_cons, IH. by destruct call.
Qed.

Lemma refcount_evicted resmgr hist e :
  refcount (evicted resmgr hist e) = refcount e.
Proof.
  unfold evicted. destruct (_ =? _); [|reflexivity]. cbn zeta.
  by destruct (_ =? _).
Qed.

Lemma borrowed_heap st0 st st' entries slots failed :
  heap st' = heap st →
  borrowed st0 st entries slots failed → borrowed st0 st' entries slots failed.
Proof. intros H Hb a e0. rewrite H. apply Hb. Qed.

(** One turn of the loop of [resource_manager_load_contexts]: the entry
    found is borrowed, and the reference is kept in the array when the load
    succeeds. *)
Lemma load_contexts_body_borrowed resmgr c handles i rc cmd entries n st0 st
    loads acc' st' :
  calls st = loads ++ calls st0 →
  borrowed st0 st entries (seq 0 n) (count_failed loads) →
  load_contexts_body resmgr c handles i (rc, cmd, entries, n) st = Done acc' st' →
  ∃ loads', calls st' = loads' ++ calls st0 ∧
            borrowed st0 st' acc'.1.2 (seq 0 acc'.2) (count_failed loads').
Proof.
  intros Hcalls Hb Hbody.
  destruct (load_contexts_body_inv _ _ _ _ _ _ _ _ _ _ _ Hbody)
    as [(_ & -> & ->)|(h & entry & e & Hh & Hty & Hte & He & -> & Hr)];
    [by exists loads|].
  cbn zeta in Hr.
  set (r := ab_context_load (access_broker resmgr) (calls st) (context e)) in *.
  exists (CallContextLoad (context e) r.1 r.2 :: loads).
  split; [unfold after_load; cbn; fold r; by rewrite Hcalls|].
  rewrite count_failed_cons. cbn [is_load_failed].
  destruct Hr as [(Hrc & Hn & ->)|(Hrc & ->)]; cbn [fst snd]; intros a e0 Ha.
  - rewrite Hrc. cbn [Z.eqb TSS2_RC_SUCCESS negb Nat.add].
    destruct (Hb a e0 Ha) as (ea & Hea & Hbounds).
    rewrite cells_of_seq_S, cells_of_insert
      by (intros j Hj%elem_of_seq; lia).
    destruct (decide (a = entry)) as [->|Hne].
    + assert (ea = e) as -> by congruence.
      eexists. split.
      { unfold after_load. cbn. by eapply heap_insert_lookup. }
      fold r. rewrite Hrc. cbn [Z.eqb TSS2_RC_SUCCESS refcount with_phandle
                                 with_refcount].
      rewrite list_lookup_insert_eq by done.
      rewrite bool_decide_eq_true_2 by done. lia.
    + exists ea. split.
      { unfold after_load. cbn. by rewrite list_lookup_insert_ne. }
      rewrite list_lookup_insert_eq by done.
      rewrite bool_decide_eq_false_2 by congruence. lia.
  - destruct (Z.eqb_spec r.1 TSS2_RC_SUCCESS) as [|_]; [done|]. cbn [negb].
    destruct (Hb a e0 Ha) as (ea & Hea & Hbounds).
    destruct (decide (a = entry)) as [->|Hne].
    + assert (ea = e) as -> by congruence.
      eexists. split.
      { unfold after_load. cbn. by eapply heap_insert_lookup. }
      fold r. destruct (Z.eqb_spec r.1 TSS2_RC_SUCCESS) as [|_]; [done|].
      cbn [refcount with_refcount]. lia.
    + exists ea. split; [|lia].
      unfold after_load. cbn. by rewrite list_lookup_insert_ne.
Qed.

Lemma process_response_handle_borrowed response entries n st0 st failed
    r' entries' n' st' :
  borrowed st0 st entries (seq 0 n) failed →
  process_response_handle response entries n st = Done (r', entries', n') st' →
  borrowed st0 st' entries' (seq 0 n') failed.
Proof.
  intros Hb H.
  destruct (process_response_handle_inv _ _ _ _ _ _ _ _ H)
    as [(_ & -> & -> & _ & Hents)
       |(_ & Hn & -> & -> & _ & _ & (rcnt & Hheap & _) & _)].
  - destruct Hents as [->| ->]; [done|]. intros a e0 Ha.
    rewrite cells_of_insert by (intros j Hj%elem_of_seq; lia). by apply Hb.
  - intros a e0 Ha. destruct (Hb a e0 Ha) as (ea & Hea & Hbounds).
    exists ea. split; [rewrite Hheap; by apply lookup_app_l_Some|].
    rewrite cells_of_seq_S, cells_of_insert by (intros j Hj%elem_of_seq; lia).
    rewrite list_lookup_insert_eq by done.
    apply lookup_lt_Some in Hea.
    rewrite bool_decide_eq_false_2; [lia|]. intros [= Heq]. lia.
Qed.

(** The final loop returns the references kept in the array. *)
Lemma flushsave_contexts_borrowed resmgr entries st0 failed slots :
  ∀ st st',
    borrowed st0 st entries slots failed →
    flushsave_contexts resmgr entries slots st = Done tt st' →
    borrowed st0 st' entries [] failed.
Proof.
  induction slots as [|i slots IH]; intros st st' Hb H.
  - cbn in H. by injection H as <-.
  - destruct (flushsave_contexts_inv _ _ _ _ _ _ H) as (a & e & Hcell & He & Hrest).
    eapply IH; [|exact Hrest].
    intros b e0 Hb0. destruct (Hb b e0 Hb0) as (eb & Heb & Hbounds).
    rewrite cells_of_cons, Hcell in Hbounds.
    destruct (decide (b = a)) as [->|Hne].
    + assert (eb = e) as -> by congruence.
      rewrite bool_decide_eq_true_2 in Hbounds by done.
      eexists. split; [by apply after_evict_same|].
      cbn [refcount with_refcount]. rewrite refcount_evicted. lia.
    + rewrite bool_decide_eq_false_2 in Hbounds by congruence.
      exists eb. split; [by rewrite after_evict_other|lia].
Qed.

(** X9: the references borrowed for a command are returned.  For a command
    that is not a FlushContext, has at most three handles and passes the
    quota gate, unless the allocator has rolled over, the command ends and
    every entry that was in the store holds the references it held before
    the command, and at most one more for each context load that failed
    during the command: the reference taken by the lookup is released by
    the final loop when the load succeeds and is not released when the
    load fails. *)
Theorem references_are_returned resmgr command st :
  cmd_code command ≠ TPM_CC_FlushContext →
  (cmd_handle_count command ≤ 3)%nat →
  entries_valid st (cmd_connection command) →
  resource_manager_is_over_object_quota command st = Done false st →
  (∃ st' c, resource_manager_process_tpm2_command resmgr command st = Abort st' ∧
            rolled_over st c)
  ∨ (∃ st' new,
       resource_manager_process_tpm2_command resmgr command st = Done tt st' ∧
       calls st' = new ++ calls st ∧
       ∀ a e, heap st !! a = Some e →
         ∃ e', heap st' !! a = Some e' ∧
               (refcount e ≤ refcount e' ≤ refcount e + count_failed new)%nat).
Proof.
  intros Hcode H3 Hv Hq.
  destruct (process_default resmgr command st Hcode H3 Hv Hq)
    as (loads0 & cmd' & _
        & [(st' & c & Hproc & _ & Hroll)
          |(response & entries & n & st1 & st' & Hsw & _ & Hproc & Hloop
            & Hev)]).
  { left. by exists st', c. }
  right.
  destruct Hev as (_ & _ & _ & _ & evs & Hcalls' & Hevs & _).
  destruct (process_command_switch_inv _ _ _ _ _ _ _ _ _ Hcode Hsw)
    as (cmd1 & entries1 & n1 & st_l & r & Hstage & Hprh & [= <-]).
  assert (∃ loads, calls st_l = loads ++ calls st ∧
                   borrowed st st_l entries1 (seq 0 n1) (count_failed loads))
    as (loads & Hcl & Hbl).
  { assert (borrowed st st (replicate ENTRY_COUNT Unwritten) (seq 0 0) 0)
      as Hinit.
    { intros a e Ha. exists e. split; [done|]. cbn. lia. }
    destruct Hstage as [(_ & _ & -> & -> & ->)|(_ & rc & Hload)];
      [by exists []|].
    destruct (load_contexts_inv _ _ _ _ _ _ _ Hload)
      as [(Hlt & _)|(_ & _ & Hl)]; [cbn in Hlt; lia|].
    refine (load_contexts_loop_inv resmgr _ _
              (fun acc s => ∃ loads, calls s = loads ++ calls st ∧
                 borrowed st s acc.1.2 (seq 0 acc.2) (count_failed loads))
              _ _ _ _ (rc, cmd1, entries1, n1) st_l _ Hl); [|by exists []].
    intros i [[[rc0 cmd0] ents0] n0] s acc1 s1 _ (l & Hc & Hb) Hbody.
    by eapply load_contexts_body_borrowed. }
  exists st', (evs ++ CallSendCommand cmd1
                 (ab_send_command (access_broker resmgr) (calls st_l) cmd1).1
                 (ab_send_command (access_broker resmgr) (calls st_l) cmd1).2
               :: loads).
  split; [done|]. split.
  { rewrite Hcalls'. cbn.
    pose proof (respects_process_response_handle stable_keeps_queues
                  (response_of resmgr (calls st_l) (cmd_connection command) cmd1)
                  entries1 n1 (after_send resmgr cmd1 st_l)) as Hkq.
    rewrite Hprh in Hkq. destruct Hkq as (_ & _ & (new & Hnew)).
    destruct (process_response_handle_inv _ _ _ _ _ _ _ _ Hprh)
      as [(_ & -> & _)|(_ & _ & _ & _ & _ & _ & Hvp)].
    - unfold after_send. cbn. by rewrite Hcl, <- app_assoc.
    - destruct Hvp as (_ & _ & _ & _ & _ & _ & _ & ->).
      unfold after_send. cbn. by rewrite Hcl, <- app_assoc. }
  rewrite count_failed_app, (count_failed_saveflush _ Hevs), count_failed_cons.
  cbn [is_load_failed Nat.add].
  assert (borrowed st st' entries [] (count_failed loads)) as Hfin.
  { eapply flushsave_contexts_borrowed; [|exact Hloop].
    eapply (borrowed_heap _ st1); [reflexivity|].
    eapply process_response_handle_borrowed; [|exact Hprh].
    by eapply (borrowed_heap _ st_l); [|exact Hbl]. }
  intros a e Ha. destruct (Hfin a e Ha) as (e' & He' & Hbounds).
  exists e'. split; [done|]. cbn in Hbounds. lia.
Qed.

Lemma references_are_returned_witness :
  (∃ st' c, resource_manager_process_tpm2_command (mkResmgr broker_load_fails)
              cmd_read_public st_one = Abort st' ∧
            rolled_over st_one c)
  ∨ (∃ st' new,
       resource_manager_process_tpm2_command (mkResmgr broker_load_fails)
         cmd_read_public st_one = Done tt st' ∧
       calls st' = new ++ calls st_one ∧
       ∀ a e, heap st_one !! a = Some e →
         ∃ e', heap st' !! a = Some e' ∧
               (refcount e ≤ refcount e' ≤ refcount e + count_failed new)%nat).
Proof.
  apply (references_are_returned (mkResmgr broker_load_fails) cmd_read_public
           st_one).
  - vm_compute. discriminate.
  - vm_compute. lia.
  - apply st_one_entries_valid.
  - reflexivity.
Defined.

(** ** The entries that the maps bind *)

Lemma cells_of_none entries slots a :
  (∀ j, j ∈ slots → entries !! j ≠ Some (Ptr (Some a))) →
  cells_of entries slots a = 0%nat.
Proof.
  induction slots as [|j slots IH]; intros H; [reflexivity|].
  rewrite cells_of_cons. rewrite IH by (intros k Hk; apply H; by right).
  rewrite bool_decide_eq_false_2 by (apply H; by left). done.
Qed.

(** The final loop releases one reference to an entry for each cell that
    points to it. *)
Lemma flushsave_contexts_refcount resmgr entries slots :
  ∀ st st' b e,
    heap st !! b = Some e →
    flushsave_contexts resmgr entries slots st = Done tt st' →
    ∃ e', heap st' !! b = Some e' ∧
          refcount e' = (refcount e - cells_of entries slots b)%nat.
Proof.
  induction slots as [|i slots IH]; intros st st' b e Hb H.
  - cbn in H. injection H as <-. exists e. split; [done|].
    change (cells_of entries [] b) with 0%nat. lia.
  - destruct (flushsave_contexts_inv _ _ _ _ _ _ H) as (a & ea & Hcell & Ha & Hrest).
    rewrite cells_of_cons, Hcell.
    destruct (decide (b = a)) as [->|Hne].
    + assert (ea = e) as -> by congruence.
      rewrite bool_decide_eq_true_2 by done.
      destruct (IH _ _ a _ (after_evict_same _ _ _ _ Ha) Hrest)
        as (e' & He' & Hr).
      exists e'. split; [done|]. rewrite Hr.
      cbn [refcount with_refcount]. rewrite refcount_evicted. lia.
    + rewrite bool_decide_eq_false_2 by congruence.
      assert (heap (after_evict resmgr a ea st) !! b = Some e) as Hb'
        by (by rewrite after_evict_other).
      destruct (IH _ _ b e Hb' Hrest) as (e' & He' & Hr).
      exists e'. split; [done|]. rewrite Hr. lia.
Qed.

Lemma maps_own_entries_valid st c : maps_own st → entries_valid st c.
Proof.
  intros [Hlive _] vh a Ha. destruct (Hlive _ _ _ Ha) as (e & He & _).
  by eapply lookup_lt_Some.
Qed.

(** A FlushContext unbinds the entry it releases. *)
Lemma process_flush_keeps_maps_own resmgr command st st' :
  cmd_code command = TPM_CC_FlushContext →
  maps_own st →
  resource_manager_process_tpm2_command resmgr command st = Done tt st' →
  maps_own st'.
Proof.
  intros Hcode Hown Hproc. pose proof Hown as [Hlive Hinj].
  rewrite process_flush_eq in Hproc by done.
  destruct (decide (handle_type (cmd_flush_handle command) = TPM_HT_TRANSIENT))
    as [Hty|Hty].
  - destruct (table (trans_map st (cmd_connection command))
                !! cmd_flush_handle command) as [entry|] eqn:Ht.
    + destruct (Hlive _ _ _ Ht) as (e & He & _).
      rewrite (flush_context_managed _ _ _ _ _ Hcode Hty Ht He) in Hproc.
      injection Hproc as <-.
      set (c0 := cmd_connection command) in *.
      set (h := cmd_flush_handle command) in *.
      assert (∀ c vh b,
                table ((<[c0 := map_remove h (trans_map st c0)]> (trans_map st)) c)
                  !! vh = Some b →
                table (trans_map st c) !! vh = Some b ∧ b ≠ entry) as Hsub.
      { intros c vh b Hb. destruct (decide (c = c0)) as [->|Hc].
        - rewrite fn_lookup_insert in Hb. cbn in Hb.
          apply lookup_delete_Some in Hb as [Hvh Hb]. split; [done|].
          intros ->. destruct (Hinj _ _ _ _ _ Hb Ht) as [_ ?]. congruence.
        - rewrite fn_lookup_insert_ne in Hb by done. split; [done|].
          intros ->. destruct (Hinj _ _ _ _ _ Hb Ht) as [? _]. congruence. }
      split; cbn.
      * intros c vh b Hb. destruct (Hsub _ _ _ Hb) as [Hb' Hne].
        rewrite list_lookup_insert_ne by done. by eapply Hlive.
      * intros c vh c' vh' b Hb Hb'.
        destruct (Hsub _ _ _ Hb) as [? _]. destruct (Hsub _ _ _ Hb') as [? _].
        by eapply Hinj.
    + rewrite (flush_context_unknown _ _ _ Hcode Hty Ht) in Hproc.
      by injection Hproc as <-.
  - rewrite (flush_context_unmanaged _ _ _ Hcode Hty) in Hproc.
    by injection Hproc as <-.
Qed.

(** Any other command returns the references it borrows, and leaves the
    entry it creates with the reference of the map. *)
Lemma process_default_keeps_maps_own resmgr command st st' :
  cmd_code command ≠ TPM_CC_FlushContext →
  (cmd_handle_count command ≤ 3)%nat →
  resource_manager_is_over_object_quota command st = Done false st →
  maps_own st →
  allocator_ahead st →
  resource_manager_process_tpm2_command resmgr command st = Done tt st' →
  maps_own st'.
Proof.
  intros Hcode H3 Hq Hown Hahead Hproc. pose proof Hown as [Hlive Hinj].
  pose proof (maps_own_entries_valid st (cmd_connection command) Hown) as Hv.
  destruct (process_default resmgr command st Hcode H3 Hv Hq)
    as (loads0 & cmd' & _
        & [(st'' & c & Hproc' & _)
          |(response & entries & n & st1 & st'' & Hsw & _ & Hproc' & Hloop
            & Hev)]); [congruence|].
  assert (st'' = st') as -> by congruence.
  destruct Hev as (Hmaps & _). cbn [trans_map set_sink] in Hmaps.
  destruct (process_command_switch_inv _ _ _ _ _ _ _ _ _ Hcode Hsw)
    as (cmd1 & entries1 & n1 & st_l & r & Hstage & Hprh & [= <-]).
  assert (trans_map st_l = trans_map st ∧ length (heap st_l) = length (heap st) ∧
          (∀ j a, (j < n1)%nat → entries1 !! j = Some (Ptr (Some a)) →
                  (a < length (heap st))%nat) ∧
          ∃ loads, calls st_l = loads ++ calls st ∧
                   borrowed st st_l entries1 (seq 0 n1) (count_failed loads))
    as (Hml & Hhl & Hcells & loads & Hcl & Hbl).
  { assert (borrowed st st (replicate ENTRY_COUNT Unwritten) (seq 0 0) 0)
      as Hinit.
    { intros a e Ha. exists e. split; [done|]. cbn. lia. }
    destruct Hstage as [(_ & _ & -> & -> & ->)|(_ & rc & Hload)].
    { split_and!; [done | done | intros; lia | by exists []]. }
    destruct (load_contexts_post resmgr command
                (replicate ENTRY_COUNT Unwritten) (ENTRY_COUNT - 1) st)
      as (rc' & c' & e' & n' & s' & Heq & Hlp); [done | cbn; lia.. | done |].
    rewrite Hload in Heq. injection Heq as <- <- <- <- <-.
    destruct Hlp as (A1 & _ & _ & A4 & _ & _ & A7 & _).
    split_and!; [done | done | |].
    - intros j a Hj Hcell.
      destruct (A7 ltac:(intros; lia) j Hj) as (a0 & Ha0 & Hlt).
      rewrite A4 in Hlt. congruence.
    - destruct (load_contexts_inv _ _ _ _ _ _ _ Hload)
        as [(Hlt & _)|(_ & _ & Hl)]; [cbn in Hlt; lia|].
      refine (load_contexts_loop_inv resmgr _ _
                (fun acc s => ∃ loads, calls s = loads ++ calls st ∧
                   borrowed st s acc.1.2 (seq 0 acc.2) (count_failed loads))
                _ _ _ _ (rc, cmd1, entries1, n1) st_l _ Hl); [|by exists []].
      intros i [[[rc0 cmd0] ents0] n0] s acc1 s1 _ (l & Hc & Hb) Hbody.
      by eapply load_contexts_body_borrowed. }
  assert (borrowed st st1 entries (seq 0 n) (count_failed loads)) as Hb1.
  { eapply process_response_handle_borrowed; [|exact Hprh].
    by eapply (borrowed_heap _ st_l); [|exact Hbl]. }
  assert (∀ a e, heap st !! a = Some e →
            ∃ e', heap st' !! a = Some e' ∧ (refcount e ≤ refcount e')%nat)
    as Hold.
  { intros a e Ha. destruct (Hb1 a e Ha) as (e1 & He1 & Hbounds).
    destruct (flushsave_contexts_refcount resmgr entries (seq 0 n)
                (set_sink (sink st1 ++ [Some response]) st1) st' a e1 He1 Hloop)
      as (e' & He' & Hr).
    exists e'. split; [done|]. lia. }
  assert (∀ c vh a, table (trans_map st c) !! vh = Some a →
            ∃ e', heap st' !! a = Some e' ∧ (0 < refcount e')%nat) as Hkept.
  { intros c vh a Ha. destruct (Hlive _ _ _ Ha) as (e & He & Hpos).
    destruct (Hold a e He) as (e' & He' & Hle). exists e'. split; [done|lia]. }
  destruct (process_response_handle_inv _ _ _ _ _ _ _ _ Hprh)
    as [(_ & Hst1 & _)|(Hvirt & Hn & -> & -> & _ & _ & Hvp)].
  - assert (trans_map st' = trans_map st) as Hm.
    { rewrite Hmaps, Hst1. exact Hml. }
    split; rewrite Hm; [exact Hkept|exact Hinj].
  - set (response0 := response_of resmgr (calls st_l) (cmd_connection command)
                        cmd1) in *.
    destruct Hvp as ((rcnt & Hheap & Hrcnt) & _ & _ & Htable & Hothers & _).
    unfold after_send in Hheap, Hrcnt, Htable, Hothers.
    cbn [heap trans_map set_calls] in Hheap, Hrcnt, Htable, Hothers.
    rewrite Hml in Hheap, Hrcnt, Htable, Hothers. rewrite Hhl in Htable.
    assert (next_vhandle_fresh (trans_map st (rsp_connection response0)))
      as Hfresh.
    { unfold next_vhandle_fresh.
      destruct (table (trans_map st (rsp_connection response0))
                  !! next_vhandle (trans_map st (rsp_connection response0)))
        as [a|] eqn:E; [|done].
      specialize (Hahead _ _ _ E). lia. }
    specialize (Hrcnt Hfresh). specialize (Htable Hfresh). subst rcnt.
    set (cr := rsp_connection response0) in *.
    set (vh := next_vhandle (trans_map st cr)) in *.
    assert (∃ e', heap st' !! length (heap st) = Some e' ∧ (0 < refcount e')%nat)
      as Hnew.
    { assert (heap st1 !! length (heap st)
              = Some (mkEntry vh (rsp_handle response0) [] 2)) as He1.
      { rewrite Hheap, lookup_app_r, Hhl, Nat.sub_diag by lia. reflexivity. }
      destruct (flushsave_contexts_refcount resmgr _ _
                  (set_sink (sink st1 ++ [Some response]) st1) st' _ _ He1 Hloop)
        as (e' & He' & Hr).
      exists e'. split; [done|]. rewrite Hr. cbn [refcount].
      rewrite cells_of_seq_S, cells_of_insert
        by (intros j Hj%elem_of_seq; lia).
      rewrite cells_of_none.
      - case_bool_decide; lia.
      - intros j Hj%elem_of_seq Hcell.
        assert (length (heap st) < length (heap st))%nat
          by (apply (Hcells j _); [lia|done]).
        lia. }
    assert (∀ c v a, table (trans_map st' c) !! v = Some a →
              (c = cr ∧ v = vh ∧ a = length (heap st))
              ∨ table (trans_map st c) !! v = Some a) as Hcases.
    { intros c v a Ha. rewrite Hmaps in Ha.
      destruct (decide (c = cr)) as [->|Hc].
      - rewrite Htable in Ha.
        apply lookup_insert_Some in Ha as [[<- <-]|[_ Ha]]; [by left|by right].
      - rewrite (Hothers c Hc) in Ha. by right. }
    split.
    + intros c v a Ha.
      destruct (Hcases _ _ _ Ha) as [(_ & _ & ->)|Ha0]; [done|by eapply Hkept].
    + intros c v c' v' a Ha Ha'.
      destruct (Hcases _ _ _ Ha) as [(-> & -> & ->)|Ha0];
        destruct (Hcases _ _ _ Ha') as [(-> & -> & Heq)|Ha0']; try done.
      * destruct (Hlive _ _ _ Ha0') as (e & He & _).
        apply lookup_lt_Some in He. lia.
      * subst a. destruct (Hlive _ _ _ Ha0) as (e & He & _).
        apply lookup_lt_Some in He. lia.
      * by eapply Hinj.
Qed.

Lemma st_one_maps_own : maps_own st_one.
Proof.
  assert (∀ c v a, table (trans_map st_one c) !! v = Some a →
            c = 0%nat ∧ v = 0x80000000 ∧ a = 0%nat) as Hone.
  { intros c v a H. unfold st_one, sample_map, no_objects in H.
    cbn [trans_map] in H. destruct (decide (c = 0%nat)) as [->|Hc].
    - rewrite fn_lookup_insert in H. cbn [table] in H.
      by apply lookup_singleton_Some in H as [<- <-].
    - rewrite fn_lookup_insert_ne in H by done. cbn in H.
      by rewrite lookup_empty in H. }
  split.
  - intros c v a H. destruct (Hone _ _ _ H) as (_ & _ & ->).
    eexists. split; [reflexivity|]. cbn. lia.
  - intros c v c' v' a H H'.
    destruct (Hone _ _ _ H) as (-> & -> & _).
    by destruct (Hone _ _ _ H') as (-> & -> & _).
Qed.

Lemma st_one_allocator_ahead : allocator_ahead st_one.
Proof.
  intros c v a H. unfold st_one, sample_map, no_objects in *.
  cbn [trans_map] in *. destruct (decide (c = 0%nat)) as [->|Hc].
  - rewrite fn_lookup_insert in *. cbn [table next_vhandle] in *.
    apply lookup_singleton_Some in H as [<- _]. lia.
  - rewrite fn_lookup_insert_ne in * by done. cbn in H.
    by rewrite lookup_empty in H.
Qed.

(** X2: a command leaves no map pointing to a released entry.  Starting
    from a state where every entry that a map binds is an object of the
    store that holds a reference, no entry is bound twice, and the
    allocator of every map is ahead of the handles the map binds, a command
    of at most three handles ends, unless the allocator of virtual handles
    has rolled over, in a state where the same holds.  The reference
    counts are those of the entries; the connections and the maps are not
    counted. *)
Theorem command_leaves_no_dangling_binding resmgr command st :
  (cmd_handle_count command ≤ 3)%nat →
  maps_own st →
  allocator_ahead st →
  (∃ st' c, resource_manager_process_tpm2_command resmgr command st = Abort st' ∧
            rolled_over st c)
  ∨ (∃ st', resource_manager_process_tpm2_command resmgr command st = Done tt st' ∧
            maps_own st' ∧ allocator_ahead st').
Proof.
  intros H3 Hown Hahead.
  pose proof (maps_own_entries_valid st (cmd_connection command) Hown) as Hv.
  destruct (process_outcome resmgr command st H3 Hv)
    as [Habort|(st' & Hproc)]; [by left|].
  right. exists st'. split; [done|]. split.
  - pose proof (is_over_object_quota_eq command st) as Hq.
    destruct (bool_decide (object_creating (cmd_code command))
              && map_is_full (trans_map st (cmd_connection command))).
    { rewrite (process_over_quota _ _ _ Hq) in Hproc. by injection Hproc as <-. }
    destruct (decide (cmd_code command = TPM_CC_FlushContext)) as [Hcode|Hcode].
    + by eapply process_flush_keeps_maps_own.
    + by eapply process_default_keeps_maps_own.
  - pose proof (respects_process stable_keeps_allocator resmgr command
                  keeps_allocator_sink st) as Hk.
    rewrite Hproc in Hk. destruct Hk as (_ & _ & Hk). by apply Hk.
Qed.

Lemma command_leaves_no_dangling_binding_witness :
  (∃ st' c, resource_manager_process_tpm2_command (mkResmgr broker_load_fails)
              cmd_read_public st_one = Abort st' ∧
            rolled_over st_one c)
  ∨ (∃ st', resource_manager_process_tpm2_command (mkResmgr broker_load_fails)
              cmd_read_public st_one = Done tt st' ∧
            maps_own st' ∧ allocator_ahead st').
Proof.
  apply (command_leaves_no_dangling_binding (mkResmgr broker_load_fails)
           cmd_read_public st_one).
  - vm_compute. lia.
  - apply st_one_maps_own.
  - apply st_one_allocator_ahead.
Defined.

(** ** The calls made for a command *)

Lemma evict_calls_length resmgr hist e :
  (length (evict_calls resmgr hist e) ≤ 1)%nat.
Proof. unfold evict_calls. destruct (_ =? _); cbn; lia. Qed.

Lemma flushsave_contexts_calls resmgr entries slots :
  ∀ st st',
    flushsave_contexts resmgr entries slots st = Done tt st' →
    ∃ evs, calls st' = evs ++ calls st ∧ (length evs ≤ length slots)%nat.
Proof.
  induction slots as [|i slots IH]; intros st st' H.
  - cbn in H. injection H as <-. exists []. split; [done|]. cbn. lia.
  - destruct (flushsave_contexts_inv _ _ _ _ _ _ H) as (a & e & _ & _ & Hrest).
    destruct (IH _ _ Hrest) as (evs & Hcalls & Hlen).
    exists (evs ++ evict_calls resmgr (calls st) e). split.
    + rewrite Hcalls. unfold after_evict. cbn. by rewrite app_assoc.
    + pose proof (evict_calls_length resmgr (calls st) e).
      rewrite length_app. cbn [length]. lia.
Qed.

(** X10: a command makes few calls on the broker.  For a command that is not
    a FlushContext, has at most three handles and passes the quota gate,
    unless the allocator has rolled over, the calls made during the
    command are, in this order: at most one context load per handle of the
    command, the command itself, sent once, and at most one saveflush per
    successful load plus one, so four at most. *)
Theorem command_makes_few_calls resmgr command st :
  cmd_code command ≠ TPM_CC_FlushContext →
  (cmd_handle_count command ≤ 3)%nat →
  entries_valid st (cmd_connection command) →
  resource_manager_is_over_object_quota command st = Done false st →
  (∃ st' c, resource_manager_process_tpm2_command resmgr command st = Abort st' ∧
            rolled_over st c)
  ∨ (∃ st' loads cmd' evs,
       let sent := ab_send_command (access_broker resmgr) (loads ++ calls st)
                                   cmd' in
       resource_manager_process_tpm2_command resmgr command st = Done tt st' ∧
       calls st' = evs ++ CallSendCommand cmd' sent.1 sent.2 :: loads ++ calls st ∧
       Forall (fun call => is_load call = true) loads ∧
       Forall (fun call => is_saveflush call = true) evs ∧
       (length loads ≤ cmd_handle_count command)%nat ∧
       (length evs ≤ S (count_ok loads))%nat ∧
       (length evs ≤ ENTRY_COUNT)%nat).
Proof.
  intros Hcode H3 Hv Hq.
  destruct (process_default resmgr command st Hcode H3 Hv Hq)
    as (loads & cmd' & Hfacts
        & [(st' & c & Hproc & _ & Hroll)
          |(response & entries & n & st1 & st' & Hsw & Hpost & Hproc & Hloop
            & Hev)]).
  { left. by exists st', c. }
  right. destruct Hfacts as (rc_l & entries_l & st_l & Hload & Hcl & Hloads & Hcount).
  destruct Hpost as (_ & Hn & _ & _ & Hcalls1 & _).
  destruct Hev as (_ & _ & _ & _ & evs & Hcalls' & Hevs & _).
  exists st', loads, cmd', evs. cbn zeta.
  split_and!; try done.
  - by rewrite Hcalls', <- Hcalls1.
  - destruct (load_contexts_post resmgr command
                (replicate ENTRY_COUNT Unwritten) (ENTRY_COUNT - 1) st)
      as (rc' & c' & e' & n' & s' & Heq & Hlp); [done | cbn; lia.. | done |].
    rewrite Hload in Heq. injection Heq as <- <- <- <- <-.
    destruct Hlp as (_ & _ & _ & _ & _ & (loads' & Hcl' & _ & Hlen & _) & _).
    rewrite Hcl in Hcl'. apply app_inv_tail in Hcl'. subst loads'.
    rewrite Hlen.
    pose proof (count_present_le st (cmd_connection command)
      (tpm2_command_get_handles command [0; 0; 0] (cmd_handle_count command))
      (seq 0 (cmd_handle_count command))) as Hle.
    by rewrite length_seq in Hle.
  - destruct (flushsave_contexts_calls _ _ _ _ _ Hloop) as (evs' & Hc & Hlen).
    rewrite Hcalls' in Hc. apply app_inv_tail in Hc. subst evs'.
    rewrite length_seq in Hlen. lia.
  - destruct (flushsave_contexts_calls _ _ _ _ _ Hloop) as (evs' & Hc & Hlen).
    rewrite Hcalls' in Hc. apply app_inv_tail in Hc. subst evs'.
    rewrite length_seq in Hlen. unfold ENTRY_COUNT. lia.
Qed.

Lemma command_makes_few_calls_witness :
  (∃ st' c, resource_manager_process_tpm2_command (mkResmgr broker_ok)
              cmd_read_public st_one = Abort st' ∧
            rolled_over st_one c)
  ∨ (∃ st' loads cmd' evs,
       let sent := ab_send_command (access_broker (mkResmgr broker_ok))
                                   (loads ++ calls st_one) cmd' in
       resource_manager_process_tpm2_command (mkResmgr broker_ok)
         cmd_read_public st_one = Done tt st' ∧
       calls st' =
         evs ++ CallSendCommand cmd' sent.1 sent.2 :: loads ++ calls st_one ∧
       Forall (fun call => is_load call = true) loads ∧
       Forall (fun call => is_saveflush call = true) evs ∧
       (length loads ≤ cmd_handle_count cmd_read_public)%nat ∧
       (length evs ≤ S (count_ok loads))%nat ∧
       (length evs ≤ ENTRY_COUNT)%nat).
Proof.
  apply (command_makes_few_calls (mkResmgr broker_ok) cmd_read_public st_one).
  - vm_compute. discriminate.
  - vm_compute. lia.
  - apply st_one_entries_valid.
  - reflexivity.
Defined.

(** ** The virtual handle handed to the client *)

Lemma response_handle_bound resmgr command st :
  cmd_code command ≠ TPM_CC_FlushContext →
  (cmd_handle_count command ≤ 3)%nat →
  entries_valid st (cmd_connection command) →
  resource_manager_is_over_object_quota command st = Done false st →
  (∃ st' c, resource_manager_process_tpm2_command resmgr command st = Abort st' ∧
            rolled_over st c)
  ∨ (∃ response st',
       resource_manager_process_tpm2_command resmgr command st = Done tt st' ∧
       sink st' = sink st ++ [Some response] ∧
       (virtualized response →
        next_vhandle_fresh (trans_map st (rsp_connection response)) →
        rsp_handle response = next_vhandle (trans_map st (rsp_connection response)) ∧
        ∃ a e,
          table (trans_map st' (rsp_connection response))
            = <[rsp_handle response := a]>
                (table (trans_map st (rsp_connection response))) ∧
          heap st' !! a = Some e ∧ vhandle e = rsp_handle response ∧
          heap st !! a = None ∧
          capacity (trans_map st' (rsp_connection response))
            = capacity (trans_map st (rsp_connection response)) ∧
          next_vhandle (trans_map st' (rsp_connection response))
            = next_vhandle (trans_map st (rsp_connection response)) + 1)).
Proof.
  intros Hcode H3 Hv Hq.
  destruct (process_default resmgr command st Hcode H3 Hv Hq)
    as (loads & cmd' & _
        & [(st' & c & Hproc & _ & Hroll)
          |(response & entries & n & st1 & st' & Hsw & Hpost & Hproc & Hloop
            & Hev)]).
  { left. by exists st', c. }
  right. exists response, st'.
  destruct Hpost as (_ & _ & _ & _ & _ & _ & Hsink1 & _).
  destruct Hev as (Hmaps & Hsink & _).
  split; [done|]. split; [by rewrite Hsink; cbn; rewrite Hsink1|].
  intros Hvirt Hfresh.
  destruct (process_command_switch_inv _ _ _ _ _ _ _ _ _ Hcode Hsw)
    as (cmd1 & entries1 & n1 & st_l & r & Hstage & Hprh & [= <-]).
  assert (trans_map st_l = trans_map st ∧ length (heap st_l) = length (heap st))
    as [Hml Hhl].
  { destruct Hstage as [(_ & _ & _ & _ & ->)|(_ & rc & Hload)]; [done|].
    destruct (load_contexts_post resmgr command
                (replicate ENTRY_COUNT Unwritten) (ENTRY_COUNT - 1) st)
      as (rc' & c' & e' & n' & s' & Heq & Hlp); [done | cbn; lia.. | done |].
    rewrite Hload in Heq. injection Heq as <- <- <- <- <-.
    by destruct Hlp as (A1 & _ & _ & A4 & _). }
  set (response0 := response_of resmgr (calls st_l) (cmd_connection command) cmd1)
    in *.
  destruct (process_response_handle_inv _ _ _ _ _ _ _ _ Hprh)
    as [(Hnv & _ & _ & -> & _)|(_ & _ & _ & _ & -> & _ & Hvp)]; [done|].
  unfold after_send in Hvp.
  destruct Hvp as ((rcnt & Hheap & _) & Hnext & Hcap & Htable & _). cbn in *.
  rewrite Hml in *. split; [done|].
  pose proof (respects_flushsave_contexts stable_keeps_entries resmgr entries
                (seq 0 n)
                (set_sink (sink st1 ++
                   [Some (tpm2_response_set_handle response0
                      (next_vhandle (trans_map st (rsp_connection response0))))])
                   st1)) as Hke.
  rewrite Hloop in Hke. destruct Hke as [Hke _].
  destruct (Hke (length (heap st_l)) (mkEntry
              (next_vhandle (trans_map st (rsp_connection response0)))
              (rsp_handle response0) [] rcnt)) as (e' & He' & Hvh').
  { cbn. rewrite Hheap, lookup_app_r, Nat.sub_diag by lia. reflexivity. }
  rewrite Hmaps. cbn. rewrite (Htable Hfresh).
  exists (length (heap st_l)), e'. split_and!; try done.
  apply lookup_ge_None. lia.
Qed.

(** X11: the virtual handle handed to the client is bound.  For a command
    that is not a FlushContext, has at most three handles and passes the
    quota gate, unless the allocator has rolled over, the command ends
    with one response on the sink; when that response carries a transient
    handle and the allocator of its connection was not about to collide
    with a live key, the handle is the one the allocator had next; after
    the command the map of that connection binds it to an entry created by
    this command, whose virtual handle it is, and binds every other handle
    as before. *)
Theorem virtual_handle_of_the_response_is_bound resmgr command st :
  cmd_code command ≠ TPM_CC_FlushContext →
  (cmd_handle_count command ≤ 3)%nat →
  entries_valid st (cmd_connection command) →
  resource_manager_is_over_object_quota command st = Done false st →
  (∃ st' c, resource_manager_process_tpm2_command resmgr command st = Abort st' ∧
            rolled_over st c)
  ∨ (∃ response st',
       resource_manager_process_tpm2_command resmgr command st = Done tt st' ∧
       sink st' = sink st ++ [Some response] ∧
       (virtualized response →
        next_vhandle_fresh (trans_map st (rsp_connection response)) →
        rsp_handle response = next_vhandle (trans_map st (rsp_connection response)) ∧
        (∃ a e,
           table (trans_map st' (rsp_connection response)) !! rsp_handle response
             = Some a ∧
           heap st' !! a = Some e ∧ vhandle e = rsp_handle response ∧
           heap st !! a = None) ∧
        ∀ vh, vh ≠ rsp_handle response →
              table (trans_map st' (rsp_connection response)) !! vh
              = table (trans_map st (rsp_connection response)) !! vh)).
Proof.
  intros Hcode H3 Hv Hq.
  destruct (response_handle_bound resmgr command st Hcode H3 Hv Hq)
    as [Habort|(response & st' & Hproc & Hsink & Hbound)]; [by left|].
  right. exists response, st'. split_and!; try done.
  intros Hvirt Hfresh.
  destruct (Hbound Hvirt Hfresh) as (Hvh & a & e & Htable & He & Hve & Hnew & _).
  split_and!; [done| |].
  - exists a, e. rewrite Htable, lookup_insert_eq. by split_and!.
  - intros vh Hne. by rewrite Htable, lookup_insert_ne.
Qed.

(** X12: an object created and then flushed leaves the bindings as they
    were.  When a command has ended with a response that carries a virtual
    handle, as in X11, a FlushContext of that handle on the connection of
    the response ends with the success response on the sink, and the map
    of the connection has the bindings and the capacity it had before the
    first command.  The map is not what it was: its allocator has advanced
    by one. *)
Theorem flushing_the_new_object_restores_the_bindings resmgr command st :
  cmd_code command ≠ TPM_CC_FlushContext →
  (cmd_handle_count command ≤ 3)%nat →
  entries_valid st (cmd_connection command) →
  resource_manager_is_over_object_quota command st = Done false st →
  (∃ st' c, resource_manager_process_tpm2_command resmgr command st = Abort st' ∧
            rolled_over st c)
  ∨ (∃ response st',
       resource_manager_process_tpm2_command resmgr command st = Done tt st' ∧
       sink st' = sink st ++ [Some response] ∧
       (virtualized response →
        next_vhandle_fresh (trans_map st (rsp_connection response)) →
        ∀ flush,
          cmd_code flush = TPM_CC_FlushContext →
          cmd_connection flush = rsp_connection response →
          cmd_flush_handle flush = rsp_handle response →
          ∃ st2,
            resource_manager_process_tpm2_command resmgr flush st' = Done tt st2 ∧
            sink st2 = sink st' ++
              [Some (tpm2_response_new_rc (rsp_connection response)
                                          TSS2_RC_SUCCESS)] ∧
            trans_map st2 (rsp_connection response)
              = mkMap (table (trans_map st (rsp_connection response)))
                      (capacity (trans_map st (rsp_connection response)))
                      (next_vhandle (trans_map st (rsp_connection response))
                       + 1))).
Proof.
  intros Hcode H3 Hv Hq.
  destruct (response_handle_bound resmgr command st Hcode H3 Hv Hq)
    as [Habort|(response & st' & Hproc & Hsink & Hbound)]; [by left|].
  right. exists response, st'. split_and!; try done.
  intros Hvirt Hfresh flush Hfcode Hfconn Hfh.
  destruct (Hbound Hvirt Hfresh)
    as (Hvh & a & e & Htable & He & _ & _ & Hcap & Hnext).
  assert (table (trans_map st' (cmd_connection flush)) !! cmd_flush_handle flush
          = Some a) as Hlook.
  { by rewrite Hfconn, Hfh, Htable, lookup_insert_eq. }
  rewrite process_flush_eq by done.
  rewrite (flush_context_managed _ _ _ _ _ Hfcode
             ltac:(rewrite Hfh; apply Hvirt) Hlook He).
  eexists. split; [reflexivity|]. cbn. rewrite Hfconn, Hfh.
  split; [done|]. rewrite fn_lookup_insert. unfold map_remove.
  rewrite Hcap, Hnext, Htable. f_equal.
  apply delete_insert_id. by rewrite Hvh.
Qed.

Lemma flushing_the_new_object_restores_the_bindings_witness :
  (∃ st' c, resource_manager_process_tpm2_command (mkResmgr broker_ok)
              cmd_create_primary st_empty = Abort st' ∧
            rolled_over st_empty c)
  ∨ (∃ response st',
       resource_manager_process_tpm2_command (mkResmgr broker_ok)
         cmd_create_primary st_empty = Done tt st' ∧
       sink st' = sink st_empty ++ [Some response] ∧
       (virtualized response →
        next_vhandle_fresh (trans_map st_empty (rsp_connection response)) →
        ∀ flush,
          cmd_code flush = TPM_CC_FlushContext →
          cmd_connection flush = rsp_connection response →
          cmd_flush_handle flush = rsp_handle response →
          ∃ st2,
            resource_manager_process_tpm2_command (mkResmgr broker_ok) flush st'
              = Done tt st2 ∧
            sink st2 = sink st' ++
              [Some (tpm2_response_new_rc (rsp_connection response)
                                          TSS2_RC_SUCCESS)] ∧
            trans_map st2 (rsp_connection response)
              = mkMap (table (trans_map st_empty (rsp_connection response)))
                      (capacity (trans_map st_empty (rsp_connection response)))
                      (next_vhandle
                         (trans_map st_empty (rsp_connection response)) + 1))).
Proof.
  apply (flushing_the_new_object_restores_the_bindings (mkResmgr broker_ok)
           cmd_create_primary st_empty).
  - vm_compute. discriminate.
  - vm_compute. lia.
  - apply st_empty_entries_valid.
  - reflexivity.
Defined.

Lemma virtual_handle_of_the_response_is_bound_witness :
  (∃ st' c, resource_manager_process_tpm2_command (mkResmgr broker_ok)
              cmd_create_primary st_empty = Abort st' ∧
            rolled_over st_empty c)
  ∨ (∃ response st',
       resource_manager_process_tpm2_command (mkResmgr broker_ok)
         cmd_create_primary st_empty = Done tt st' ∧
       sink st' = sink st_empty ++ [Some response] ∧
       (virtualized response →
        next_vhandle_fresh (trans_map st_empty (rsp_connection response)) →
        rsp_handle response
          = next_vhandle (trans_map st_empty (rsp_connection response)) ∧
        (∃ a e,
           table (trans_map st' (rsp_connection response)) !! rsp_handle response
             = Some a ∧
           heap st' !! a = Some e ∧ vhandle e = rsp_handle response ∧
           heap st_empty !! a = None) ∧
        ∀ vh, vh ≠ rsp_handle response →
              table (trans_map st' (rsp_connection response)) !! vh
              = table (trans_map st_empty (rsp_connection response)) !! vh)).
Proof.
  apply (virtual_handle_of_the_response_is_bound (mkResmgr broker_ok)
           cmd_create_primary st_empty).
  - vm_compute. discriminate.
  - vm_compute. lia.
  - apply st_empty_entries_valid.
  - reflexivity.
Defined.

(** ** FlushContext, again *)

(** X13: a virtual handle can be flushed once.  The FlushContext of a
    transient handle bound in the map of the connection succeeds and
    removes the binding; the same command again is answered with
    [RM_RC (TPM_RC_HANDLE + TPM_RC_P + TPM_RC_1)] and changes nothing but
    the sink; neither command reaches the broker. *)
Theorem flush_context_twice resmgr command st entry e :
  cmd_code command = TPM_CC_FlushContext →
  handle_type (cmd_flush_handle command) = TPM_HT_TRANSIENT →
  table (trans_map st (cmd_connection command)) !! cmd_flush_handle command
    = Some entry →
  heap st !! entry = Some e →
  ∃ st1 st2,
    resource_manager_process_tpm2_command resmgr command st = Done tt st1 ∧
    resource_manager_process_tpm2_command resmgr command st1 = Done tt st2 ∧
    sink st2 = sink st ++
      [Some (tpm2_response_new_rc (cmd_connection command) TSS2_RC_SUCCESS);
       Some (tpm2_response_new_rc (cmd_connection command)
               (RM_RC (TPM_RC_HANDLE + TPM_RC_P + TPM_RC_1)))] ∧
    table (trans_map st1 (cmd_connection command))
      = delete (cmd_flush_handle command)
               (table (trans_map st (cmd_connection command))) ∧
    trans_map st2 = trans_map st1 ∧ heap st2 = heap st1 ∧
    calls st2 = calls st.
Proof.
  intros Hcode Hty Ht He.
  rewrite process_flush_eq by done.
  rewrite (flush_context_managed _ _ _ _ _ Hcode Hty Ht He).
  eexists. eexists. split; [reflexivity|].
  rewrite process_flush_eq by done.
  rewrite flush_context_unknown;
    [|done|done|cbn; rewrite fn_lookup_insert; cbn; apply lookup_delete_eq].
  split; [reflexivity|]. cbn. rewrite fn_lookup_insert, <- app_assoc.
  by split_and!.
Qed.

Lemma flush_context_twice_witness :
  ∃ st1 st2,
    resource_manager_process_tpm2_command (mkResmgr broker_ok)
      (cmd_flush 0x80000000) st_one = Done tt st1 ∧
    resource_manager_process_tpm2_command (mkResmgr broker_ok)
      (cmd_flush 0x80000000) st1 = Done tt st2 ∧
    sink st2 = sink st_one ++
      [Some (tpm2_response_new_rc (cmd_connection (cmd_flush 0x80000000))
               TSS2_RC_SUCCESS);
       Some (tpm2_response_new_rc (cmd_connection (cmd_flush 0x80000000))
               (RM_RC (TPM_RC_HANDLE + TPM_RC_P + TPM_RC_1)))] ∧
    table (trans_map st1 (cmd_connection (cmd_flush 0x80000000)))
      = delete (cmd_flush_handle (cmd_flush 0x80000000))
               (table (trans_map st_one (cmd_connection (cmd_flush 0x80000000)))) ∧
    trans_map st2 = trans_map st1 ∧ heap st2 = heap st1 ∧
    calls st2 = calls st_one.
Proof.
  apply (flush_context_twice (mkResmgr broker_ok) (cmd_flush 0x80000000) st_one
           0%nat (mkEntry 0x80000000 0 [7; 7] 1)).
  - reflexivity.
  - reflexivity.
  - vm_compute. reflexivity.
  - reflexivity.
Defined.

(** X14: a FlushContext makes room under the quota.  When the map of a
    connection is full, an object-creating command on that connection is
    rejected; after the FlushContext of a transient handle bound in that
    map, which succeeds, such a command passes the quota gate. *)
Theorem flush_context_makes_room resmgr flush create st entry e :
  cmd_code flush = TPM_CC_FlushContext →
  handle_type (cmd_flush_handle flush) = TPM_HT_TRANSIENT →
  table (trans_map st (cmd_connection flush)) !! cmd_flush_handle flush
    = Some entry →
  heap st !! entry = Some e →
  object_creating (cmd_code create) →
  cmd_connection create = cmd_connection flush →
  map_is_full (trans_map st (cmd_connection flush)) = true →
  resource_manager_is_over_object_quota create st = Done true st ∧
  ∃ st1,
    resource_manager_process_tpm2_command resmgr flush st = Done tt st1 ∧
    sink st1 = sink st ++
      [Some (tpm2_response_new_rc (cmd_connection flush) TSS2_RC_SUCCESS)] ∧
    resource_manager_is_over_object_quota create st1 = Done false st1.
Proof.
  intros Hcode Hty Ht He Hcreate Hconn Hfull.
  rewrite is_over_object_quota_eq, Hconn, Hfull.
  rewrite bool_decide_eq_true_2 by done. split; [reflexivity|].
  rewrite process_flush_eq by done.
  rewrite (flush_context_managed _ _ _ _ _ Hcode Hty Ht He).
  eexists. split; [reflexivity|]. split; [reflexivity|].
  rewrite is_over_object_quota_eq, Hconn.
  rewrite bool_decide_eq_true_2 by done. cbn [andb].
  f_equal. cbn [trans_map set_sink set_heap set_trans_map].
  rewrite fn_lookup_insert. unfold map_is_full in *.
  apply bool_decide_eq_true in Hfull. apply bool_decide_eq_false.
  cbn [table capacity map_remove].
  rewrite map_size_delete_Some by eauto.
  assert (size (table (trans_map st (cmd_connection flush))) ≠ 0%nat) as Hne.
  { intros Hz%map_size_empty_inv. rewrite Hz in Ht. by rewrite lookup_empty in Ht. }
  lia.
Qed.

Lemma flush_context_makes_room_witness :
  resource_manager_is_over_object_quota cmd_create_primary st_full
    = Done true st_full ∧
  ∃ st1,
    resource_manager_process_tpm2_command (mkResmgr broker_ok)
      (cmd_flush 0x80000000) st_full = Done tt st1 ∧
    sink st1 = sink st_full ++
      [Some (tpm2_response_new_rc (cmd_connection (cmd_flush 0x80000000))
               TSS2_RC_SUCCESS)] ∧
    resource_manager_is_over_object_quota cmd_create_primary st1
      = Done false st1.
Proof.
  apply (flush_context_makes_room (mkResmgr broker_ok) (cmd_flush 0x80000000)
           cmd_create_primary st_full 0%nat (mkEntry 0x80000000 0 [7; 7] 1)).
  - reflexivity.
  - reflexivity.
  - vm_compute. reflexivity.
  - reflexivity.
  - by left.
  - reflexivity.
  - vm_compute. reflexivity.
Defined.

(** ** One connection at a time *)

Lemma load_contexts_keeps_maps resmgr command entries n st acc' st' :
  resource_manager_load_contexts resmgr command entries n st = Done acc' st' →
  trans_map st' = trans_map st.
Proof.
  intros H.
  destruct (load_contexts_inv _ _ _ _ _ _ _ H) as [(_ & _ & ->)|(_ & _ & Hl)];
    [done|].
  refine (load_contexts_loop_inv resmgr _ _
            (fun _ s => trans_map s = trans_map st) _ _ _ _ acc' st' _ Hl);
    [|done].
  intros i [[[rc0 cmd0] ents0] n0] s acc1 s1 _ Hs Hbody.
  destruct (load_contexts_body_inv _ _ _ _ _ _ _ _ _ _ _ Hbody)
    as [(_ & _ & ->)|(h & entry & e & _ & _ & _ & _ & -> & _)]; [done|].
  destruct (after_load_frame resmgr entry e s) as (F1 & _). congruence.
Qed.

(** X15: a command changes the maps of two connections at most.  A command
    of at most three handles, unless the allocator has rolled over, ends
    with one object on the sink, and the map of every connection other
    than the connection of the command and the connection that the
    response on the sink names is as it was. *)
Theorem command_leaves_the_other_connections_alone resmgr command st :
  (cmd_handle_count command ≤ 3)%nat →
  entries_valid st (cmd_connection command) →
  (∃ st' c, resource_manager_process_tpm2_command resmgr command st = Abort st' ∧
            rolled_over st c)
  ∨ (∃ obj st',
       resource_manager_process_tpm2_command resmgr command st = Done tt st' ∧
       sink st' = sink st ++ [obj] ∧
       ∀ c, c ≠ cmd_connection command →
            (∀ response, obj = Some response → c ≠ rsp_connection response) →
            trans_map st' c = trans_map st c).
Proof.
  intros H3 Hv.
  pose proof (is_over_object_quota_eq command st) as Hq.
  destruct (bool_decide (object_creating (cmd_code command))
            && map_is_full (trans_map st (cmd_connection command))).
  { right. eexists _, _. split; [by apply process_over_quota|]. by split. }
  destruct (decide (cmd_code command = TPM_CC_FlushContext)) as [Hcode|Hcode].
  - right. rewrite process_flush_eq by done.
    destruct (decide (handle_type (cmd_flush_handle command) = TPM_HT_TRANSIENT))
      as [Hty|Hty].
    + destruct (table (trans_map st (cmd_connection command))
                  !! cmd_flush_handle command) as [entry|] eqn:Ht.
      * destruct (lookup_lt_is_Some_2 (heap st) entry (Hv _ _ Ht)) as [e He].
        rewrite (flush_context_managed _ _ _ _ _ Hcode Hty Ht He).
        eexists _, _. split; [reflexivity|]. split; [reflexivity|].
        intros c Hc _. cbn. by rewrite fn_lookup_insert_ne.
      * rewrite (flush_context_unknown _ _ _ Hcode Hty Ht).
        eexists _, _. split; [reflexivity|]. by split.
    + rewrite (flush_context_unmanaged _ _ _ Hcode Hty).
      eexists _, _. split; [reflexivity|]. by split.
  - destruct (process_default resmgr command st Hcode H3 Hv Hq)
      as (loads & cmd' & _
          & [(st' & c & Hproc & _ & Hroll)
            |(response & entries & n & st1 & st' & Hsw & Hpost & Hproc & Hloop
              & Hev)]).
    { left. by exists st', c. }
    right. exists (Some response), st'.
    destruct Hpost as (_ & _ & _ & _ & _ & _ & Hsink1 & _).
    destruct Hev as (Hmaps & Hsink & _).
    split; [done|]. split; [by rewrite Hsink; cbn; rewrite Hsink1|].
    intros c _ Hc. specialize (Hc response eq_refl).
    destruct (process_command_switch_inv _ _ _ _ _ _ _ _ _ Hcode Hsw)
      as (cmd1 & entries1 & n1 & st_l & r & Hstage & Hprh & [= <-]).
    assert (trans_map st_l = trans_map st) as Hml.
    { destruct Hstage as [(_ & _ & _ & _ & ->)|(_ & rc & Hload)]; [done|].
      by eapply load_contexts_keeps_maps. }
    rewrite Hmaps. cbn. rewrite <- Hml.
    destruct (process_response_handle_inv _ _ _ _ _ _ _ _ Hprh)
      as [(_ & -> & _)|(_ & _ & _ & _ & -> & _ & Hvp)]; [done|].
    destruct Hvp as (_ & _ & _ & _ & Hother & _). by apply Hother.
Qed.

Lemma command_leaves_the_other_connections_alone_witness :
  (∃ st' c, resource_manager_process_tpm2_command (mkResmgr broker_ok)
              cmd_create_primary st_one = Abort st' ∧
            rolled_over st_one c)
  ∨ (∃ obj st',
       resource_manager_process_tpm2_command (mkResmgr broker_ok)
         cmd_create_primary st_one = Done tt st' ∧
       sink st' = sink st_one ++ [obj] ∧
       ∀ c, c ≠ cmd_connection cmd_create_primary →
            (∀ response, obj = Some response → c ≠ rsp_connection response) →
            trans_map st' c = trans_map st_one c).
Proof.
  apply (command_leaves_the_other_connections_alone (mkResmgr broker_ok)
           cmd_create_primary st_one).
  - vm_compute. lia.
  - apply st_one_entries_valid.
Defined.

(** ** Saving and loading a context *)

Lemma was_saved_app ctx new l : was_saved ctx l → was_saved ctx (new ++ l).
Proof. intros (ph & rc & H). exists ph, rc. apply elem_of_app. by right. Qed.

Lemma was_saved_cons ctx call l : was_saved ctx l → was_saved ctx (call :: l).
Proof. apply (was_saved_app ctx [call]). Qed.

Lemma loads_saved_app new l :
  Forall (fun call => is_load call = false) new →
  loads_saved l → loads_saved (new ++ l).
Proof.
  induction 1 as [|call new Hc _ IH]; [done|]. intros H. cbn.
  split; [by destruct call|by apply IH].
Qed.

Lemma contexts_saved_after_load resmgr a e st :
  heap st !! a = Some e →
  contexts_saved st → contexts_saved (after_load resmgr a e st).
Proof.
  intros He [Hctx Hloads]. unfold after_load. split.
  - intros b eb Hb. cbn [heap calls set_heap set_calls] in *.
    apply was_saved_cons. destruct (decide (b = a)) as [->|Hne].
    + rewrite (heap_insert_lookup _ _ _ _ He) in Hb.
      apply (inj Some) in Hb. subst eb.
      assert (∀ (b : bool) x y, context x = context e → context y = context e →
                context (if b then x else y) = context e) as Hif
        by (by intros []).
      rewrite Hif by reflexivity. by apply (Hctx a).
    + rewrite list_lookup_insert_ne in Hb by done. by apply (Hctx b).
  - cbn [calls set_heap set_calls loads_saved]. split; [by apply (Hctx a)|done].
Qed.

Lemma contexts_saved_after_send resmgr command st :
  contexts_saved st → contexts_saved (after_send resmgr command st).
Proof.
  intros [Hctx Hloads]. unfold after_send. split; [|done].
  intros a e Ha. apply was_saved_cons. by apply (Hctx a).
Qed.

(** After the response has been transformed, the only context that was
    not saved is the empty one of the entry created for the response,
    which the last cell of the array points to. *)
Lemma process_response_handle_saved response entries n st r' entries' n' st' :
  contexts_saved st →
  process_response_handle response entries n st = Done (r', entries', n') st' →
  loads_saved (calls st') ∧ saved_or_held st' entries' (seq 0 n').
Proof.
  intros [Hctx Hloads] H.
  destruct (process_response_handle_inv _ _ _ _ _ _ _ _ H)
    as [(_ & -> & -> & _ & _)
       |((_ & Hty) & Hn & -> & -> & _ & _ & (rcnt & Hheap & _) & Hrest)].
  - split; [done|]. intros a e He. left. by apply (Hctx a).
  - destruct Hrest as (_ & _ & _ & _ & _ & _ & Hcalls). rewrite Hcalls.
    split; [done|]. intros a e He. rewrite Hcalls. rewrite Hheap in He.
    destruct (decide (a < length (heap st))%nat) as [Hlt|Hge].
    + rewrite lookup_app_l in He by done. left. by apply (Hctx a).
    + rewrite lookup_app_r in He by lia.
      destruct (a - length (heap st))%nat as [|k] eqn:Hk; [|done].
      apply (inj Some) in He. subst e. right. split; [exact Hty|].
      assert (a = length (heap st)) as -> by lia.
      exists n. split; [apply elem_of_seq; lia|].
      by rewrite list_lookup_insert_eq.
Qed.

(** The final loop saves the context of every entry that it visits with a
    transient physical handle. *)
Lemma flushsave_contexts_saves resmgr entries slots :
  ∀ st st',
    loads_saved (calls st) →
    saved_or_held st entries slots →
    flushsave_contexts resmgr entries slots st = Done tt st' →
    contexts_saved st'.
Proof.
  induction slots as [|i slots IH]; intros st st' Hl Hs H.
  - cbn in H. injection H as <-. split; [|done]. intros a e He.
    destruct (Hs a e He) as [|(_ & j & Hj & _)]; [done|].
    by apply elem_of_nil in Hj.
  - destruct (flushsave_contexts_inv _ _ _ _ _ _ H) as (a & e & Hcell & He & Hrest).
    pose proof (evicted_context resmgr (calls st) e) as Hev. cbn zeta in Hev.
    eapply IH; [| |exact Hrest].
    + unfold after_evict. cbn [calls set_heap set_calls].
      apply loads_saved_app; [|done].
      destruct Hev as [(_ & _ & ->)|(_ & _ & ->)]; by repeat constructor.
    + intros b eb Hb. destruct (decide (b = a)) as [->|Hne].
      * rewrite (after_evict_same _ _ _ _ He) in Hb.
        apply (inj Some) in Hb. subst eb. left.
        cbn [context with_refcount]. unfold after_evict.
        cbn [calls set_heap set_calls].
        destruct Hev as [(_ & -> & ->)|(Hty & -> & ->)].
        -- eexists _, _. by left.
        -- by destruct (Hs a e He) as [Hsv|(Hty' & _)].
      * rewrite after_evict_other in Hb by done.
        destruct (Hs b eb Hb) as [Hsv|(Hty & j & Hj & Hcellj)].
        -- left. unfold after_evict. cbn [calls set_heap set_calls].
           by apply was_saved_app.
        -- right. split; [done|]. exists j. split; [|done].
           apply elem_of_cons in Hj as [->|Hj]; [congruence|done].
Qed.

(** A command that ends normally leaves no context that was not saved. *)
Lemma process_keeps_contexts_saved resmgr command st st' :
  (cmd_handle_count command ≤ 3)%nat →
  entries_valid st (cmd_connection command) →
  contexts_saved st →
  resource_manager_process_tpm2_command resmgr command st = Done tt st' →
  contexts_saved st'.
Proof.
  intros H3 Hv Hsaved Hproc.
  pose proof (is_over_object_quota_eq command st) as Hq.
  destruct (bool_decide (object_creating (cmd_code command))
            && map_is_full (trans_map st (cmd_connection command))).
  { rewrite (process_over_quota _ _ _ Hq) in Hproc. by injection Hproc as <-. }
  destruct (decide (cmd_code command = TPM_CC_FlushContext)) as [Hcode|Hcode].
  - rewrite process_flush_eq in Hproc by done.
    destruct (decide (handle_type (cmd_flush_handle command) = TPM_HT_TRANSIENT))
      as [Hty|Hty].
    + destruct (table (trans_map st (cmd_connection command))
                  !! cmd_flush_handle command) as [entry|] eqn:Ht.
      * destruct (lookup_lt_is_Some_2 (heap st) entry (Hv _ _ Ht)) as [e He].
        rewrite (flush_context_managed _ _ _ _ _ Hcode Hty Ht He) in Hproc.
        injection Hproc as <-. destruct Hsaved as [H1 H2]. split; [|done].
        intros a ea. cbn. destruct (decide (a = entry)) as [->|Hne].
        -- rewrite (heap_insert_lookup _ _ _ _ He). intros [= <-]. cbn.
           by apply (H1 entry).
        -- rewrite list_lookup_insert_ne by done. apply H1.
      * rewrite (flush_context_unknown _ _ _ Hcode Hty Ht) in Hproc.
        by injection Hproc as <-.
    + rewrite (flush_context_unmanaged _ _ _ Hcode Hty) in Hproc.
      injection Hproc as <-. destruct Hsaved as [H1 H2]. split; [|done].
      intros a ea Ha. cbn. apply was_saved_cons. by apply (H1 a).
  - destruct (process_inv _ _ _ _ Hproc)
      as [(Hq' & _)|(_ & response & entries & n & st1 & Hsw & Hloop)];
      [congruence|].
    destruct (process_command_switch_inv _ _ _ _ _ _ _ _ _ Hcode Hsw)
      as (cmd1 & entries1 & n1 & st_l & r & Hstage & Hprh & ->).
    assert (contexts_saved st_l) as Hl.
    { destruct Hstage as [(_ & _ & _ & _ & ->)|(_ & rc & Hload)]; [done|].
      destruct (load_contexts_inv _ _ _ _ _ _ _ Hload)
        as [(Hlt & _)|(_ & _ & Hl)]; [cbn in Hlt; lia|].
      refine (load_contexts_loop_inv resmgr _ _
                (fun _ s => contexts_saved s) _ _ _ _
                (rc, cmd1, entries1, n1) st_l _ Hl); [|done].
      intros i [[[rc0 cmd0] ents0] n0] s acc1 s1 _ Hs Hbody.
      destruct (load_contexts_body_inv _ _ _ _ _ _ _ _ _ _ _ Hbody)
        as [(_ & _ & ->)|(h & entry & e & _ & _ & _ & He & -> & _)]; [done|].
      by apply contexts_saved_after_load. }
    destruct (process_response_handle_saved _ _ _ _ _ _ _ _
                (contexts_saved_after_send resmgr cmd1 st_l Hl) Hprh)
      as [Hloads Hheld].
    by eapply flushsave_contexts_saves; [| |exact Hloop].
Qed.

Lemma st_saved_entries_valid : entries_valid st_saved 0%nat.
Proof.
  intros vh entry H. unfold st_saved, sample_map in *.
  cbn [trans_map heap] in *. rewrite fn_lookup_insert in H.
  cbn [table] in H. apply lookup_singleton_Some in H as [_ <-]. cbn. lia.
Qed.

Lemma st_saved_contexts_saved : contexts_saved st_saved.
Proof.
  split; [|done]. intros a e H. destruct a as [|a]; [|done].
  cbn in H. injection H as <-. eexists _, _. by left.
Qed.

(** X3: a command loads saved contexts only.  Starting from a state where
    the saved context of every entry was written by a recorded
    [context_saveflush] (whatever code that call returned), and where so
    was, before it was loaded, every context handed to [context_load], a
    command of at most three handles, on a connection whose map holds
    pointers to entries of the store, ends, unless the allocator of
    virtual handles has rolled over, in a state where the same holds, the
    calls of the command having been added to the record.  So every
    context the command handed to [context_load] had been written by an
    earlier [context_saveflush], and the saved context of every entry, the
    one the command may have created included, has been written by
    one. *)
Theorem command_loads_saved_contexts_only resmgr command st :
  (cmd_handle_count command ≤ 3)%nat →
  entries_valid st (cmd_connection command) →
  contexts_saved st →
  (∃ st' c, resource_manager_process_tpm2_command resmgr command st = Abort st' ∧
            rolled_over st c)
  ∨ (∃ st' new,
       resource_manager_process_tpm2_command resmgr command st = Done tt st' ∧
       calls st' = new ++ calls st ∧
       contexts_saved st').
Proof.
  intros H3 Hv Hsaved.
  destruct (process_outcome resmgr command st H3 Hv)
    as [Habort|(st' & Hproc)]; [by left|].
  right.
  pose proof (respects_process stable_keeps_queues resmgr command
                keeps_queues_sink st) as Hk.
  rewrite Hproc in Hk. destruct Hk as (_ & _ & new & Hnew).
  exists st', new. split; [done|]. split; [done|].
  by eapply process_keeps_contexts_saved.
Qed.

Lemma command_loads_saved_contexts_only_witness :
  (∃ st' c, resource_manager_process_tpm2_command (mkResmgr broker_ok)
              cmd_read_public st_saved = Abort st' ∧
            rolled_over st_saved c)
  ∨ (∃ st' new,
       resource_manager_process_tpm2_command (mkResmgr broker_ok)
         cmd_read_public st_saved = Done tt st' ∧
       calls st' = new ++ calls st_saved ∧
       contexts_saved st').
Proof.
  apply (command_loads_saved_contexts_only (mkResmgr broker_ok) cmd_read_public
           st_saved).
  - vm_compute. lia.
  - apply st_saved_entries_valid.
  - apply st_saved_contexts_saved.
Defined.

(** X16: an entry that is saved is not saved again.
    [resource_manager_flushsave_context] on an entry of the store ends
    normally; when it returns [TSS2_RC_SUCCESS], the physical handle of the
    entry is no longer transient, and the function called again on that
    entry returns [TSS2_RC_SUCCESS] without calling the broker or changing
    anything.  On a NULL entry the process is terminated. *)
Theorem flushsave_context_is_idempotent resmgr entry e st :
  heap st !! entry = Some e →
  (∃ rc st1,
     resource_manager_flushsave_context resmgr (Some entry) st = Done rc st1 ∧
     (rc = TSS2_RC_SUCCESS →
      (∃ e1, heap st1 !! entry = Some e1 ∧
             handle_type (phandle e1) ≠ TPM_HT_TRANSIENT) ∧
      resource_manager_flushsave_context resmgr (Some entry) st1
        = Done TSS2_RC_SUCCESS st1))
  ∧ resource_manager_flushsave_context resmgr None st = Abort st.
Proof.
  intros He. split; [|reflexivity].
  rewrite (flushsave_context_eq _ _ _ _ He).
  destruct (Z.eqb_spec (handle_type (phandle e)) TPM_HT_TRANSIENT) as [Hty|Hty].
  - cbn zeta. eexists _, _. split; [reflexivity|]. intros Hrc.
    assert (heap (set_heap (<[entry := evicted resmgr (calls st) e]> (heap st))
              (set_calls (CallContextSaveFlush (phandle e)
                 (ab_context_saveflush (access_broker resmgr) (calls st)
                    (phandle e) (context e)).1
                 (ab_context_saveflush (access_broker resmgr) (calls st)
                    (phandle e) (context e)).2 :: calls st) st))
            !! entry = Some (evicted resmgr (calls st) e)) as He1.
    { cbn [heap set_heap set_calls]. by eapply heap_insert_lookup. }
    assert (phandle (evicted resmgr (calls st) e) = 0) as Hz.
    { unfold evicted. rewrite Hty. cbn [Z.eqb TPM_HT_TRANSIENT Pos.eqb].
      cbn zeta. by rewrite Hrc. }
    split.
    + eexists. split; [exact He1|]. by rewrite Hz.
    + rewrite (flushsave_context_eq _ _ _ _ He1). by rewrite Hz.
  - exists TSS2_RC_SUCCESS, st. split; [reflexivity|]. intros _. split.
    + by exists e.
    + rewrite (flushsave_context_eq _ _ _ _ He).
      by destruct (Z.eqb_spec (handle_type (phandle e)) TPM_HT_TRANSIENT).
Qed.

Lemma flushsave_context_is_idempotent_witness :
  (∃ rc st1,
     resource_manager_flushsave_context (mkResmgr broker_ok) (Some 0%nat)
       st_stale = Done rc st1 ∧
     (rc = TSS2_RC_SUCCESS →
      (∃ e1, heap st1 !! 0%nat = Some e1 ∧
             handle_type (phandle e1) ≠ TPM_HT_TRANSIENT) ∧
      resource_manager_flushsave_context (mkResmgr broker_ok) (Some 0%nat) st1
        = Done TSS2_RC_SUCCESS st1))
  ∧ resource_manager_flushsave_context (mkResmgr broker_ok) None st_stale
    = Abort st_stale.
Proof.
  apply (flushsave_context_is_idempotent (mkResmgr broker_ok) 0%nat
           (mkEntry 0x80000000 0x80FFFFFD [7; 7] 1) st_stale).
  reflexivity.
Defined.

(** X17: what is saved is what is loaded.  When the context of an entry
    that occupies a slot of the TPM is saved and flushed by
    [resource_manager_flushsave_context], and the entry is then handed to
    [resource_manager_virt_to_phys], the context given to [context_load]
    is the very context that [context_saveflush] returned; when the load
    succeeds, the entry and slot [i] of the command carry the physical
    handle the load returned. *)
Theorem saved_context_is_loaded_back resmgr command entry i e st :
  heap st !! entry = Some e →
  handle_type (phandle e) = TPM_HT_TRANSIENT →
  ∃ rc_s ctx rc_l ph cmd' st2,
    (resource_manager_flushsave_context resmgr (Some entry);;
     resource_manager_virt_to_phys resmgr command entry i) st
      = Done (rc_l, cmd') st2 ∧
    calls st2 = CallContextLoad ctx rc_l ph
                :: CallContextSaveFlush (phandle e) rc_s ctx :: calls st ∧
    (rc_l = TSS2_RC_SUCCESS →
     cmd' = tpm2_command_set_handle command ph i ∧
     ∃ e2, heap st2 !! entry = Some e2 ∧ phandle e2 = ph ∧ context e2 = ctx) ∧
    (rc_l ≠ TSS2_RC_SUCCESS → cmd' = command).
Proof.
  intros He Hty. munfold. rewrite (flushsave_context_eq _ _ _ _ He), Hty.
  cbn [Z.eqb TPM_HT_TRANSIENT Pos.eqb]. cbn zeta.
  set (s := ab_context_saveflush (access_broker resmgr) (calls st) (phandle e)
              (context e)).
  set (st1 := set_heap _ _).
  assert (heap st1 !! entry = Some (evicted resmgr (calls st) e)) as He1.
  { unfold st1. cbn [heap set_heap]. by eapply heap_insert_lookup. }
  assert (context (evicted resmgr (calls st) e) = s.2) as Hctx.
  { unfold evicted. rewrite Hty. cbn [Z.eqb TPM_HT_TRANSIENT Pos.eqb].
    cbn zeta. fold s. by destruct (s.1 =? TSS2_RC_SUCCESS). }
  rewrite (virt_to_phys_eq _ _ _ _ _ _ He1). cbn zeta. rewrite Hctx.
  set (l := ab_context_load (access_broker resmgr) (calls st1) s.2).
  destruct (Z.eqb_spec l.1 TSS2_RC_SUCCESS) as [Hrc|Hrc].
  - eexists s.1, s.2, l.1, l.2, _, _. split; [reflexivity|].
    split_and!; [done| |done].
    intros _. split; [done|]. eexists. split.
    + cbn [heap set_heap set_calls]. by eapply heap_insert_lookup.
    + by rewrite <- Hctx.
  - eexists s.1, s.2, l.1, l.2, _, _. split; [reflexivity|].
    by split_and!.
Qed.

Lemma saved_context_is_loaded_back_witness :
  ∃ rc_s ctx rc_l ph cmd' st2,
    (resource_manager_flushsave_context (mkResmgr broker_ok) (Some 0%nat);;
     resource_manager_virt_to_phys (mkResmgr broker_ok) cmd_read_public
       0%nat 0%nat) st_stale
      = Done (rc_l, cmd') st2 ∧
    calls st2 = CallContextLoad ctx rc_l ph
                :: CallContextSaveFlush
                     (phandle (mkEntry 0x80000000 0x80FFFFFD [7; 7] 1)) rc_s ctx
                :: calls st_stale ∧
    (rc_l = TSS2_RC_SUCCESS →
     cmd' = tpm2_command_set_handle cmd_read_public ph 0%nat ∧
     ∃ e2, heap st2 !! 0%nat = Some e2 ∧ phandle e2 = ph ∧ context e2 = ctx) ∧
    (rc_l ≠ TSS2_RC_SUCCESS → cmd' = cmd_read_public).
Proof.
  apply (saved_context_is_loaded_back (mkResmgr broker_ok) cmd_read_public
           0%nat 0%nat (mkEntry 0x80000000 0x80FFFFFD [7; 7] 1) st_stale).
  - reflexivity.
  - reflexivity.
Defined.

(** ** The worker *)





(** X20: [resource_manager_unblock] wakes the worker.  On a resource
    manager whose input queue is empty, where the worker is blocked, the
    control message that [resource_manager_unblock] enqueues is consumed by
    the worker, which hands [CHECK_CANCEL] to [process_control_code] and
    then has exited or is blocked again on the empty queue; nothing else
    has changed.  On a NULL resource manager the process is terminated. *)
Theorem unblock_wakes_the_worker resmgr process_control_code turns st :
  in_queue st = [] →
  (resource_manager_unblock (Some resmgr);;
   resource_manager_thread resmgr process_control_code (S (S turns))) st
  = Done (if process_control_code CHECK_CANCEL then Returned else Blocked) st
  ∧ resource_manager_unblock None st = Abort st.
Proof.
  intros Hq. split; [|reflexivity].
  destruct st as [h m s q c]. cbn in Hq. subst q.
  unfold resource_manager_unblock, message_queue_enqueue. munfold.
  cbn [resource_manager_thread]. unfold message_queue_dequeue. munfold. cbn.
  by destruct (process_control_code CHECK_CANCEL).
Qed.

Lemma unblock_wakes_the_worker_witness :
  (resource_manager_unblock (Some (mkResmgr broker_ok));;
   resource_manager_thread (mkResmgr broker_ok) keep_running 2) st_empty
  = Done (if keep_running CHECK_CANCEL then Returned else Blocked) st_empty
  ∧ resource_manager_unblock None st_empty = Abort st_empty.
Proof.
  apply (unblock_wakes_the_worker (mkResmgr broker_ok) keep_running 0 st_empty).
  reflexivity.
Defined.

(** X21: a command enqueued on an idle worker is served.  On an empty
    input queue, where the worker is blocked, a command handed to
    [resource_manager_enqueue] is the next object the worker dequeues: the
    worker runs [resource_manager_process_tpm2_command] on it from the very
    state the caller left, and is blocked again when the command has ended
    normally. *)
Theorem enqueued_command_is_served resmgr process_control_code command turns st :
  in_queue st = [] →
  (resource_manager_enqueue (MsgCommand command);;
   resource_manager_thread resmgr process_control_code (S (S turns))) st
  = match resource_manager_process_tpm2_command resmgr command st with
    | Done _ st' => Done Blocked st'
    | Abort st' => Abort st'
    | Undefined => Undefined
    end.
Proof.
  intros Hq.
  pose proof (respects_process stable_keeps_queues resmgr command
                keeps_queues_sink st) as Hkq.
  destruct st as [h m s q c]. cbn in Hq. subst q.
  unfold resource_manager_enqueue, message_queue_enqueue. munfold.
  cbn [resource_manager_thread]. unfold message_queue_dequeue. munfold.
  unfold set_in_queue. cbn [in_queue app heap trans_map sink calls].
  destruct (resource_manager_process_tpm2_command resmgr command
              (mkState h m s [] c)) as [[] st'|st'|]; [|done..].
  destruct Hkq as (Hq' & _). cbn in Hq'. by rewrite Hq'.
Qed.

Lemma enqueued_command_is_served_witness :
  (resource_manager_enqueue (MsgCommand cmd_read_public);;
   resource_manager_thread (mkResmgr broker_ok) keep_running 2) st_one
  = match resource_manager_process_tpm2_command (mkResmgr broker_ok)
            cmd_read_public st_one with
    | Done _ st' => Done Blocked st'
    | Abort st' => Abort st'
    | Undefined => Undefined
    end.
Proof.
  apply (enqueued_command_is_served (mkResmgr broker_ok) keep_running
           cmd_read_public 0 st_one).
  reflexivity.
Defined.

(** ** The object and its life cycle *)

Ltac fn_lookup :=
  repeat first
    [ rewrite fn_lookup_insert
    | rewrite fn_lookup_insert_ne by (first [done | congruence | lia]) ].

(** X22: the sink of a resource manager is set once.
    [resource_manager_add_sink] on an object that has no sink stores the
    sink and leaves exactly one more reference on it; on an object that has
    a sink it changes neither the object nor any reference count.  Either
    way [resource_manager_get_property] then reads the first sink the
    object was given. *)
Theorem sink_is_set_once sink o resmgr :
  let s' := resource_manager_add_sink sink (o, resmgr) in
  next_object s'.1 = next_object o ∧
  match sink_ptr resmgr with
  | Some old =>
      s'.2 = resmgr ∧ (∀ a, refs s'.1 a = refs o a) ∧
      (resource_manager_get_property PROP_SINK None s').1 = Some old
  | None =>
      s'.2 = mkInstance (thread_id resmgr) (in_queue_ptr resmgr) sink
                        (access_broker_ptr resmgr) ∧
      (∀ a, refs s'.1 a =
            (refs o a + (if bool_decide (sink = Some a) then 1 else 0))%nat) ∧
      (resource_manager_get_property PROP_SINK None s').1 = sink
  end.
Proof.
  unfold resource_manager_add_sink, g_value_set_object, g_value_unset,
    resource_manager_set_property, g_value_get_object, PROP_SINK.
  destruct (sink_ptr resmgr) as [old|] eqn:Hold, sink as [s|]; cbn;
    (split; [reflexivity|]); (split; [reflexivity|]);
    (split; [|by rewrite ?Hold]); intros a;
    try case_bool_decide; simplify_eq; fn_lookup; try lia.
  destruct (decide (a = s)) as [->|Hne]; fn_lookup; cbn; lia.
Qed.

(** X23: the life cycle of the object is balanced.  [resource_manager_new]
    on a broker creates the input queue and takes one reference to the
    broker; after [resource_manager_add_sink] and
    [resource_manager_finalize] the pointers to the sink and to the broker
    are NULL, the queue is released, and every other object holds the
    references it held before the resource manager was created.
    [resource_manager_new] on a NULL broker, and
    [resource_manager_finalize] on an object whose thread is running,
    terminate the process. *)
Theorem life_cycle_releases_every_reference broker sink o :
  (broker < next_object o)%nat →
  (∀ s, sink = Some s → (s < next_object o)%nat) →
  (∃ o1 resmgr1 o2 resmgr2,
     resource_manager_new (Some broker) o = Some (o1, resmgr1) ∧
     resmgr1 = mkInstance 0 (Some (next_object o)) None (Some broker) ∧
     refs o1 (next_object o) = 1%nat ∧ refs o1 broker = S (refs o broker) ∧
     resource_manager_finalize (resource_manager_add_sink sink (o1, resmgr1))
       = Some (o2, resmgr2) ∧
     sink_ptr resmgr2 = None ∧ access_broker_ptr resmgr2 = None ∧
     refs o2 (next_object o) = 0%nat ∧
     ∀ a, a ≠ next_object o → refs o2 a = refs o a)
  ∧ resource_manager_new None o = None
  ∧ (∀ s, thread_id s.2 ≠ 0 → resource_manager_finalize s = None).
Proof.
  intros Hb Hs. split_and!; [|reflexivity|].
  - unfold resource_manager_new, message_queue_new, g_object_new,
      resource_manager_add_sink, g_value_set_object, g_value_unset,
      g_value_get_object, PROP_QUEUE_IN, PROP_ACCESS_BROKER, PROP_SINK.
    cbn. eexists _, _. destruct sink as [s|]; cbn.
    + specialize (Hs s eq_refl). eexists _, _.
      split_and!; try reflexivity; cbn; fn_lookup; try done.
      intros a Ha.
      destruct (decide (a = broker)) as [->|Hab];
        destruct (decide (broker = s)) as [->|Hbs];
        try destruct (decide (a = s)) as [->|Has];
        fn_lookup; cbn; fn_lookup; try lia.
    + eexists _, _. split_and!; try reflexivity; cbn; fn_lookup; try done.
      intros a Ha. destruct (decide (a = broker)) as [->|Hab]; fn_lookup; lia.
  - intros [o' resmgr'] Ht. cbn in *.
    by destruct (Z.eqb_spec (thread_id resmgr') 0).
Qed.

Lemma life_cycle_releases_every_reference_witness :
  (∃ o1 resmgr1 o2 resmgr2,
     resource_manager_new (Some 0%nat) sample_objects = Some (o1, resmgr1) ∧
     resmgr1 = mkInstance 0 (Some (next_object sample_objects)) None
                          (Some 0%nat) ∧
     refs o1 (next_object sample_objects) = 1%nat ∧
     refs o1 0%nat = S (refs sample_objects 0%nat) ∧
     resource_manager_finalize
       (resource_manager_add_sink (Some 1%nat) (o1, resmgr1))
       = Some (o2, resmgr2) ∧
     sink_ptr resmgr2 = None ∧ access_broker_ptr resmgr2 = None ∧
     refs o2 (next_object sample_objects) = 0%nat ∧
     ∀ a, a ≠ next_object sample_objects → refs o2 a = refs sample_objects a)
  ∧ resource_manager_new None sample_objects = None
  ∧ (∀ s, thread_id s.2 ≠ 0 → resource_manager_finalize s = None).
Proof.
  apply (life_cycle_releases_every_reference 0%nat (Some 1%nat) sample_objects).
  - vm_compute. lia.
  - intros s [= <-]. vm_compute. lia.
Defined.
